(** * Key estimation by profile correlation: Essentia's [Key2] and [KeyEDM]

    A shallow embedding of [key2.cpp] and [keyEDM.cpp]: the catalogue of key
    profiles chosen by [configure], the interpolation of [resize], the
    circular [correlation], the decision procedure of [compute], and the
    [process] of the two streaming wrappers.

    Conventions of the embedding.
    - [int] values are integers of [Z].  The only products the code forms are
      [i*n+j] and [shift*12], both below [12 * pcpsize]; signed overflow is
      undefined in C++, and the model describes the runs without it.
    - [Real] is Essentia's floating-point typedef.  Its declaration is not
      part of the two translation units, so the code is embedded over an
      interface [RealOps] that names exactly the operations the code applies
      to it.  Essentia declares it as [float]: [binary32] instantiates the
      interface with IEEE single precision, as the standard library
      specifies it (evaluation of the code on concrete vectors, NaN
      included).
    - A [std::vector] is a list; [v[i]] outside the vector is undefined in
      the source and reads [0] here, a write outside it does nothing here.
    - A thrown [EssentiaException] is the [Err] result. *)

From Stdlib Require Import String ZArith QArith List Bool Lia.
From Stdlib Require Import SpecFloat.
Import ListNotations.
Open Scope Z_scope.

(** ** The interface of [Real] *)

Class RealOps (Real : Type) : Type := {
  rlit : Q -> Real;                 (* a literal, or an [int] converted *)
  radd : Real -> Real -> Real;
  rsub : Real -> Real -> Real;
  rmul : Real -> Real -> Real;
  rdiv : Real -> Real -> Real;
  rsqrt : Real -> Real;
  rgtb : Real -> Real -> bool;      (* [a > b]  *)
  rgeb : Real -> Real -> bool       (* [a >= b] *)
}.

Definition rof_int {Real} `{RealOps Real} (z : Z) : Real := rlit (inject_Z z).

(** ** Exceptions and results *)

Inductive EssentiaException : Type :=
| UnsupportedProfileType (profileType : string)
| InvalidProfileSize
| KeyNotFound.

Inductive result (A : Type) : Type :=
| Ok (a : A)
| Err (e : EssentiaException).
Arguments Ok {A} a.
Arguments Err {A} e.

(** What [process] of a streaming algorithm answers the scheduler. *)
Inductive AlgorithmStatus : Type := PASS | FINISHED.

(** ** Vectors *)

Definition range (lo hi : Z) : list Z :=
  map (fun k => lo + Z.of_nat k) (seq 0 (Z.to_nat (hi - lo))).

Section Vectors.
Context {A : Type}.

Definition vget (d : A) (v : list A) (i : Z) : A :=
  if i <? 0 then d else nth (Z.to_nat i) v d.

Fixpoint upd (v : list A) (k : nat) (x : A) : list A :=
  match v, k with
  | [], _ => []
  | _ :: t, O => x :: t
  | h :: t, S k' => h :: upd t k' x
  end.

Definition vset (v : list A) (i : Z) (x : A) : list A :=
  if i <? 0 then v else upd v (Z.to_nat i) x.

(** [v.resize(n)]: the first [n] elements stay, new ones are
    value-initialised. *)
Definition vresize (d : A) (n : Z) (v : list A) : list A :=
  firstn (Z.to_nat n) v ++ repeat d (Z.to_nat n - length v).
End Vectors.

(** ** Conversions between [int] and [double] in the key index *)

(** [(int) q]: conversion toward zero. *)
Definition truncQ (q : Q) : Z := Z.quot (Qnum q) (Z.pos (Qden q)).

(** [(int) (keyIndexMajor * 12 / pcpsize + 0.5)].  The product and the
    quotient are [int] operations; the sum is taken in [double], which
    holds every [int] and every [int] plus one half exactly, so the
    rational sum is the value converted. *)
Definition keyIndexOf (keyIndexMode pcpsize : Z) : Z :=
  truncQ (inject_Z (Z.quot (keyIndexMode * 12) pcpsize) + (1 # 2))%Q.

Definition keyNames : list string :=
  ["A"; "Bb"; "B"; "C"; "C#"; "D"; "Eb"; "E"; "F"; "F#"; "G"; "Ab"]%string.

(** ** Code shared by the two algorithms *)

Section Shared.
Context {Real : Type} `{RealOps Real}.

Definition rzero : Real := rof_int 0.

Definition rget (v : list Real) (i : Z) : Real := vget rzero v i.

(** Modelled from the spec: [mean] of [essentiamath.h], which is not among
    the sources; the spec calls it the arithmetic mean.  The sum runs
    from the first element to the last. *)
Definition mean (v : list Real) : Real :=
  rdiv (fold_left radd v rzero) (rof_int (Z.of_nat (length v))).

(** [Key2::correlation] and [KeyEDM::correlation]: the two bodies are the
    same text. *)
Definition correlation (v1 : list Real) (mean1 std1 : Real)
           (v2 : list Real) (mean2 std2 : Real) (shift : Z) : Real :=
  let size := Z.of_nat (length v1) in
  let r :=
    fold_left
      (fun r i =>
         let index := Z.rem (i - shift) size in
         let index := if index <? 0 then index + size else index in
         radd r (rmul (rsub (rget v1 i) mean1) (rsub (rget v2 index) mean2)))
      (range 0 size) rzero in
  rdiv r (rmul std1 std2).

(** The standard deviation loop of [compute] and of [resize]:
    [s = 0; for i < size: s += (v[i] - m) * (v[i] - m); s = sqrt(s)]. *)
Definition stdSum (v : list Real) (m : Real) (size : Z) : Real :=
  rsqrt (fold_left
           (fun s i => radd s (rmul (rsub (rget v i) m) (rsub (rget v i) m)))
           (range 0 size) rzero).

(** The statements of the body of [resize]'s loop that concern one
    profile: the anchor [profile[i*n] = T[i]], the increment towards the
    next anchor, and the [n-1] interpolated values. *)
Definition interpolate (T : list Real) (n i : Z) (profile : list Real)
  : list Real :=
  let profile := vset profile (i * n) (rget T i) in
  let incr :=
    if i =? 11
    then rdiv (rsub (rget T 11) (rget T 0)) (rof_int n)
    else rdiv (rsub (rget T i) (rget T (i + 1))) (rof_int n) in
  fold_left
    (fun profile j =>
       vset profile (i * n + j) (rsub (rget T i) (rmul (rof_int j) incr)))
    (range 1 n) profile.

(** The loop of [resize] over the twelve semitones, for one profile. *)
Definition interpolateAll (T : list Real) (n : Z) (profile : list Real)
  : list Real :=
  fold_left (fun profile i => interpolate T n i profile) (range 0 12) profile.

(** The three variables one mode contributes to the search:
      [maxMajor], [max2Major], [keyIndexMajor]. *)
Record Peak : Type := mkPeak { pmax : Real; pmax2 : Real; pindex : Z }.

Definition peak0 : Peak := mkPeak (rof_int (-1)) (rof_int (-1)) (-1).

(** [if (corr > max) { max2 = max; max = corr; keyIndex = shift; }] *)
Definition track (corr : Real) (shift : Z) (p : Peak) : Peak :=
  if rgtb corr (pmax p) then mkPeak corr (pmax p) shift else p.

(** One mode's share of the loop over [shift] of [compute]: the loop
    visits [shift = 0 .. pcpsize-1] and hands the score of each to
    [track]. *)
Definition scan (score : Z -> Real) (pcpsize : Z) : Peak :=
  fold_left (fun p shift => track (score shift) shift p)
            (range 0 pcpsize) peak0.

Record Output : Type := mkOutput {
  key : string;
  scale : string;
  strength : Real;
  firstToSecondRelativeStrength : Real
}.

(** The three tokens a streaming [process] pushes on [_key], [_scale] and
    [_strength]. *)
Record Pushed : Type := mkPushed {
  pushed_key : string;
  pushed_scale : string;
  pushed_strength : Real
}.
End Shared.

(** ** [KeyEDM] (keyEDM.h, keyEDM.cpp) *)

Module KeyEDM.

Inductive Scales : Type := MAJOR | MINOR.

(** The range [declareParameters] declares for [profileType]. *)
Definition profileTypeRange : list string :=
  ["edma"; "edmm"; "bmtg1"; "bmtg2"; "bmtg3"]%string.

(** The table [profileTypes] of [configure]. *)
Definition profileTypes : list (list Q) :=
  [ (* temperley *)
    [5.0; 2.0; 3.5; 2.0; 4.5; 4.0; 2.0; 4.5; 2.0; 3.5; 1.5; 4.0];
    [5.0; 2.0; 3.5; 4.5; 2.0; 4.0; 2.0; 4.5; 3.5; 2.0; 1.5; 4.0];
    (* shaath *)
    [6.6; 2.0; 3.5; 2.3; 4.6; 4.0; 2.5; 5.2; 2.4; 3.7; 2.3; 3.4];
    [6.5; 2.7; 3.5; 5.4; 2.6; 3.5; 2.5; 5.2; 4.0; 2.7; 4.3; 3.2];
    (* edma *)
    [0.16519551; 0.04749026; 0.08293076; 0.06687112; 0.09994645; 0.09274123;
     0.05294487; 0.13159476; 0.05218986; 0.07443653; 0.06940723; 0.0642515];
    [0.17235348; 0.05336489; 0.0761009; 0.10043649; 0.05621498; 0.08527853;
     0.0497915; 0.13451001; 0.07458916; 0.05003023; 0.09187879; 0.05545106];
    (* edmm *)
    [0.083; 0.083; 0.083; 0.083; 0.083; 0.083;
     0.083; 0.083; 0.083; 0.083; 0.083; 0.083];
    [0.17235348; 0.04; 0.0761009; 0.12; 0.05621498; 0.08527853;
     0.0497915; 0.13451001; 0.07458916; 0.05003023; 0.09187879; 0.05545106]
  ]%Q.

Section Algo.
Context {Real : Type} `{RealOps Real}.

Record State : Type := mkState {
  _M : list Real;
  _m : list Real;
  _profile_doM : list Real;
  _profile_dom : list Real;
  _mean_profile_M : Real;
  _mean_profile_m : Real;
  _std_profile_M : Real;
  _std_profile_m : Real;
  _profileType : string;
  _keys : list string
}.

(** The object before its first [configure]. *)
Definition fresh : State :=
  mkState [] [] [] [] rzero rzero rzero rzero EmptyString [].

(** [arrayToVector<Real>(profileTypes[k])] *)
Definition arrayToVector (k : nat) : list Real :=
  map rlit (nth k profileTypes []).

Definition resize (pcpsize : Z) (st : State) : State :=
  let n := Z.quot pcpsize 12 in
  let doM := vresize rzero pcpsize (_profile_doM st) in
  let dom := vresize rzero pcpsize (_profile_dom st) in
  let '(doM, dom) :=
    fold_left
      (fun '(doM, dom) i =>
         (interpolate (_M st) n i doM, interpolate (_m st) n i dom))
      (range 0 12) (doM, dom) in
  let mean_M := mean doM in
  let mean_m := mean dom in
  mkState (_M st) (_m st) doM dom mean_M mean_m
          (stdSum doM mean_M pcpsize) (stdSum dom mean_m pcpsize)
          (_profileType st) (_keys st).

(** [SET_PROFILE(i)] *)
Definition SET_PROFILE (i : nat) (st : State) : State :=
  mkState (arrayToVector (2 * i)) (arrayToVector (2 * i + 1))
          (_profile_doM st) (_profile_dom st)
          (_mean_profile_M st) (_mean_profile_m st)
          (_std_profile_M st) (_std_profile_m st)
          (_profileType st) (_keys st).

(** [configure], with the two parameters it reads.  The object a throw
    leaves behind is not modelled. *)
Definition configure (st : State) (profileType : string) (pcpSize : Z)
  : result State :=
  let st :=
    mkState (_M st) (_m st) (_profile_doM st) (_profile_dom st)
            (_mean_profile_M st) (_mean_profile_m st)
            (_std_profile_M st) (_std_profile_m st)
            profileType keyNames in
  let set i := Ok (resize pcpSize (SET_PROFILE i st)) in
  if (profileType =? "temperley")%string then set 0%nat
  else if (profileType =? "shaath")%string then set 1%nat
  else if (profileType =? "edma")%string then set 2%nat
  else if (profileType =? "edmm")%string then set 3%nat
  else Err (UnsupportedProfileType profileType).

(** The loop over [shift] of [compute]. *)
Definition search (st : State) (pcp : list Real) (mean_pcp std_pcp : Real)
           (pcpsize : Z) : Peak * Peak :=
  fold_left
    (fun '(pMaj, pMin) shift =>
       let corrMajor :=
         correlation pcp mean_pcp std_pcp (_profile_doM st)
                     (_mean_profile_M st) (_std_profile_M st) shift in
       let pMaj := track corrMajor shift pMaj in
       let corrMinor :=
         correlation pcp mean_pcp std_pcp (_profile_dom st)
                     (_mean_profile_m st) (_std_profile_m st) shift in
       let pMin := track corrMinor shift pMin in
       (pMaj, pMin))
    (range 0 pcpsize) (peak0, peak0).

(** The [if]/[else] after the loop: the values of [keyIndex], [scale],
    [max] and [max2] it leaves. *)
Definition select (pMaj pMin : Peak) (pcpsize : Z)
  : Z * Scales * Real * Real :=
  if rgeb (pmax pMaj) (pmax pMin)
  then (keyIndexOf (pindex pMaj) pcpsize, MAJOR, pmax pMaj, pmax2 pMaj)
  else (keyIndexOf (pindex pMin) pcpsize, MINOR, pmax pMin, pmax2 pMin).

Definition scaleName (s : Scales) : string :=
  match s with MAJOR => "major" | MINOR => "minor" end.

(** [compute]: the object it leaves (the profiles may have been
    resized) and either the four outputs or the exception. *)
Definition compute (st : State) (pcp : list Real) : State * result Output :=
  let pcpsize := Z.of_nat (length pcp) in
  if (pcpsize <? 12) || negb (Z.rem pcpsize 12 =? 0)
  then (st, Err InvalidProfileSize)
  else
    let st :=
      if negb (pcpsize =? Z.of_nat (length (_profile_dom st)))
      then resize pcpsize st else st in
    let mean_pcp := mean pcp in
    let std_pcp := stdSum pcp mean_pcp pcpsize in
    let '(pMaj, pMin) := search st pcp mean_pcp std_pcp pcpsize in
    let '(keyIndex, scale, max, max2) := select pMaj pMin pcpsize in
    if keyIndex <? 0
    then (st, Err KeyNotFound)
    else
      (st, Ok (mkOutput (nth (Z.to_nat keyIndex) (_keys st) EmptyString)
                        (scaleName scale) max
                        (rdiv (rsub max max2) max))).

(** Names for the intermediate values of [compute] the statements below
    speak of: the object after the test on the cached size, the peaks the
    loop leaves, and the mode the run reports ([None] when it throws). *)
Definition prepared (st : State) (pcp : list Real) : State :=
  let pcpsize := Z.of_nat (length pcp) in
  if negb (pcpsize =? Z.of_nat (length (_profile_dom st)))
  then resize pcpsize st else st.

Definition peaks (st : State) (pcp : list Real) : Peak * Peak :=
  let pcpsize := Z.of_nat (length pcp) in
  let mean_pcp := mean pcp in
  search (prepared st pcp) pcp mean_pcp (stdSum pcp mean_pcp pcpsize) pcpsize.

Definition chosen (st : State) (pcp : list Real) : option Scales :=
  let '(pMaj, pMin) := peaks st pcp in
  let '(keyIndex, scale, _, _) :=
    select pMaj pMin (Z.of_nat (length pcp)) in
  if keyIndex <? 0 then None else Some scale.

(** The score [compute] gives a shift in a mode, and the peak it leaves for
    the mode. *)
Definition score (st : State) (pcp : list Real) (sc : Scales) (shift : Z)
  : Real :=
  let st := prepared st pcp in
  let mean_pcp := mean pcp in
  let std_pcp := stdSum pcp mean_pcp (Z.of_nat (length pcp)) in
  match sc with
  | MAJOR => correlation pcp mean_pcp std_pcp (_profile_doM st)
                         (_mean_profile_M st) (_std_profile_M st) shift
  | MINOR => correlation pcp mean_pcp std_pcp (_profile_dom st)
                         (_mean_profile_m st) (_std_profile_m st) shift
  end.

Definition peakOf (st : State) (pcp : list Real) (sc : Scales) : Peak :=
  match sc with
  | MAJOR => fst (peaks st pcp)
  | MINOR => snd (peaks st pcp)
  end.

(** The outputs written from the peak of the winning mode. *)
Definition report (st : State) (pcp : list Real) (p : Peak) (s : Scales)
  : Output :=
  mkOutput (nth (Z.to_nat (keyIndexOf (pindex p) (Z.of_nat (length pcp))))
                (_keys (prepared st pcp)) EmptyString)
           (scaleName s) (pmax p)
           (rdiv (rsub (pmax p) (pmax2 p)) (pmax p)).

(** [streaming::KeyEDM::process].  Three things the body takes from the
    framework are arguments here: the answer of [shouldStop()], the vector
    [meanFrames(hpcpKey)] of the pooled frames, and the value of [pcpSize]
    the wrapped algorithm holds when [configure("profileType", "edma")]
    runs its [configure] again.  [algo] is the wrapped algorithm; the
    result is the status with the tokens pushed, or the exception that
    leaves the body. *)
Definition process (algo : State) (pcpSize : Z) (shouldStop : bool)
           (hpcpAverage : list Real)
  : State * result (AlgorithmStatus * option Pushed) :=
  if negb shouldStop then (algo, Ok (PASS, None))
  else
    match configure algo "edma" pcpSize with
    | Err e => (algo, Err e)
    | Ok algo =>
        let '(algo, r) := compute algo hpcpAverage in
        match r with
        | Err e => (algo, Err e)
        | Ok out =>
            (algo, Ok (FINISHED,
                       Some (mkPushed (key out) (scale out) (strength out))))
        end
    end.
End Algo.
End KeyEDM.

(** ** [Key2] (key2.h, key2.cpp) *)

Module Key2.

Inductive Scales : Type := MAJOR | MINOR | OTHER.

(** The range [declareParameters] declares for [profileType]. *)
Definition profileTypeRange : list string :=
  ["bmtg1"; "bmtg2"; "bmtg3"; "edma"]%string.

(** The table [profileTypes] of [configure]. *)
Definition profileTypes : list (list Q) :=
  [ (* bmtg1 *)
    [1.0000; 0.1573; 0.4200; 0.1570; 0.5296; 0.3669;
     0.1632; 0.7711; 0.1676; 0.3827; 0.2113; 0.2965];
    [1.0000; 0.2330; 0.3615; 0.3905; 0.2925; 0.3777;
     0.1961; 0.7425; 0.2701; 0.2161; 0.4228; 0.2272];
    [1.0000; 0.2608; 0.3528; 0.2935; 0.4393; 0.3580;
     0.2137; 0.7809; 0.2578; 0.2539; 0.3233; 0.2615];
    (* bmtg2 *)
    [1.00; 0.10; 0.42; 0.10; 0.53; 0.37; 0.10; 0.77; 0.10; 0.38; 0.21; 0.30];
    [1.00; 0.10; 0.36; 0.39; 0.29; 0.38; 0.10; 0.74; 0.27; 0.10; 0.42; 0.23];
    [1.00; 0.26; 0.35; 0.29; 0.44; 0.36; 0.21; 0.78; 0.26; 0.25; 0.32; 0.26];
    (* bmtg3 *)
    [1.00; 0.00; 0.42; 0.00; 0.53; 0.37; 0.00; 0.76; 0.00; 0.38; 0.21; 0.30];
    [1.00; 0.00; 0.36; 0.39; 0.10; 0.37; 0.00; 0.76; 0.27; 0.00; 0.42; 0.23];
    [1.00; 0.26; 0.35; 0.29; 0.44; 0.37; 0.21; 0.76; 0.26; 0.25; 0.32; 0.26];
    (* edma *)
    [1.00; 0.29; 0.50; 0.40; 0.60; 0.56; 0.32; 0.80; 0.31; 0.45; 0.42; 0.39];
    [1.00; 0.31; 0.44; 0.58; 0.33; 0.49; 0.29; 0.78; 0.43; 0.29; 0.53; 0.32];
    [1.00; 0.26; 0.35; 0.29; 0.44; 0.36; 0.21; 0.78; 0.26; 0.25; 0.32; 0.26]
  ]%Q.

Section Algo.
Context {Real : Type} `{RealOps Real}.

Record State : Type := mkState {
  _M : list Real;
  _m : list Real;
  _O : list Real;
  _profile_doM : list Real;
  _profile_dom : list Real;
  _profile_doO : list Real;
  _mean_profile_M : Real;
  _mean_profile_m : Real;
  _mean_profile_O : Real;
  _std_profile_M : Real;
  _std_profile_m : Real;
  _std_profile_O : Real;
  _profileType : string;
  _keys : list string
}.

(** The object before its first [configure]. *)
Definition fresh : State :=
  mkState [] [] [] [] [] [] rzero rzero rzero rzero rzero rzero EmptyString [].

(** [arrayToVector<Real>(profileTypes[k])] *)
Definition arrayToVector (k : nat) : list Real :=
  map rlit (nth k profileTypes []).

Definition resize (pcpsize : Z) (st : State) : State :=
  let n := Z.quot pcpsize 12 in
  let doM := vresize rzero pcpsize (_profile_doM st) in
  let dom := vresize rzero pcpsize (_profile_dom st) in
  let doO := vresize rzero pcpsize (_profile_doO st) in
  let '(doM, dom, doO) :=
    fold_left
      (fun '(doM, dom, doO) i =>
         (interpolate (_M st) n i doM,
          interpolate (_m st) n i dom,
          interpolate (_O st) n i doO))
      (range 0 12) (doM, dom, doO) in
  let mean_M := mean doM in
  let mean_m := mean dom in
  let mean_O := mean doO in
  mkState (_M st) (_m st) (_O st) doM dom doO mean_M mean_m mean_O
          (stdSum doM mean_M pcpsize) (stdSum dom mean_m pcpsize)
          (stdSum doO mean_O pcpsize)
          (_profileType st) (_keys st).

(** [SET_PROFILE(i)] *)
Definition SET_PROFILE (i : nat) (st : State) : State :=
  mkState (arrayToVector (3 * i)) (arrayToVector (3 * i + 1))
          (arrayToVector (3 * i + 2))
          (_profile_doM st) (_profile_dom st) (_profile_doO st)
          (_mean_profile_M st) (_mean_profile_m st) (_mean_profile_O st)
          (_std_profile_M st) (_std_profile_m st) (_std_profile_O st)
          (_profileType st) (_keys st).

(** [configure], with the two parameters it reads.  The object a throw
    leaves behind is not modelled. *)
Definition configure (st : State) (profileType : string) (pcpSize : Z)
  : result State :=
  let st :=
    mkState (_M st) (_m st) (_O st)
            (_profile_doM st) (_profile_dom st) (_profile_doO st)
            (_mean_profile_M st) (_mean_profile_m st) (_mean_profile_O st)
            (_std_profile_M st) (_std_profile_m st) (_std_profile_O st)
            profileType keyNames in
  let set i := Ok (resize pcpSize (SET_PROFILE i st)) in
  if (profileType =? "bmtg1")%string then set 0%nat
  else if (profileType =? "bmtg2")%string then set 1%nat
  else if (profileType =? "bmtg3")%string then set 2%nat
  else if (profileType =? "edma")%string then set 3%nat
  else Err (UnsupportedProfileType profileType).

(** The loop over [shift] of [compute]. *)
Definition search (st : State) (pcp : list Real) (mean_pcp std_pcp : Real)
           (pcpsize : Z) : Peak * Peak * Peak :=
  fold_left
    (fun '(pMajor, pMinor, pOther) shift =>
       let corrMajor :=
         correlation pcp mean_pcp std_pcp (_profile_doM st)
                     (_mean_profile_M st) (_std_profile_M st) shift in
       let pMajor := track corrMajor shift pMajor in
       let corrMinor :=
         correlation pcp mean_pcp std_pcp (_profile_dom st)
                     (_mean_profile_m st) (_std_profile_m st) shift in
       let pMinor := track corrMinor shift pMinor in
       let corrOther :=
         correlation pcp mean_pcp std_pcp (_profile_doO st)
                     (_mean_profile_O st) (_std_profile_O st) shift in
       let pOther := track corrOther shift pOther in
       (pMajor, pMinor, pOther))
    (range 0 pcpsize) (peak0, peak0, peak0).

(** The [if] / [else if] / [else if] after the loop, started from the
    initial values [keyIndex = -1], [scale = MAJOR], [max = -1],
    [max2 = -1]; the last [else if] has no [else]. *)
Definition select (pMajor pMinor pOther : Peak) (pcpsize : Z)
  : Z * Scales * Real * Real :=
  if rgtb (pmax pMajor) (pmax pMinor) && rgtb (pmax pMajor) (pmax pOther)
  then (keyIndexOf (pindex pMajor) pcpsize, MAJOR, pmax pMajor, pmax2 pMajor)
  else if rgeb (pmax pMinor) (pmax pMajor) && rgeb (pmax pMinor) (pmax pOther)
  then (keyIndexOf (pindex pMinor) pcpsize, MINOR, pmax pMinor, pmax2 pMinor)
  else if rgtb (pmax pOther) (pmax pMajor) && rgtb (pmax pOther) (pmax pMinor)
  then (keyIndexOf (pindex pOther) pcpsize, OTHER, pmax pOther, pmax2 pOther)
  else (-1, MAJOR, rof_int (-1), rof_int (-1)).

Definition scaleName (s : Scales) : string :=
  match s with MAJOR => "major" | MINOR => "minor" | OTHER => "minor" end.

(** [compute]: the object it leaves (the profiles may have been
    resized) and either the four outputs or the exception. *)
Definition compute (st : State) (pcp : list Real) : State * result Output :=
  let pcpsize := Z.of_nat (length pcp) in
  if (pcpsize <? 12) || negb (Z.rem pcpsize 12 =? 0)
  then (st, Err InvalidProfileSize)
  else
    let st :=
      if negb (pcpsize =? Z.of_nat (length (_profile_dom st)))
      then resize pcpsize st else st in
    let mean_pcp := mean pcp in
    let std_pcp := stdSum pcp mean_pcp pcpsize in
    let '(pMajor, pMinor, pOther) :=
      search st pcp mean_pcp std_pcp pcpsize in
    let '(keyIndex, scale, max, max2) :=
      select pMajor pMinor pOther pcpsize in
    if keyIndex <? 0
    then (st, Err KeyNotFound)
    else
      (st, Ok (mkOutput (nth (Z.to_nat keyIndex) (_keys st) EmptyString)
                        (scaleName scale) max
                        (rdiv (rsub max max2) max))).

(** Names for the intermediate values of [compute] the statements below
    speak of: the object after the test on the cached size, the peaks the
    loop leaves, and the mode the run reports ([None] when it throws). *)
Definition prepared (st : State) (pcp : list Real) : State :=
  let pcpsize := Z.of_nat (length pcp) in
  if negb (pcpsize =? Z.of_nat (length (_profile_dom st)))
  then resize pcpsize st else st.

Definition peaks (st : State) (pcp : list Real) : Peak * Peak * Peak :=
  let pcpsize := Z.of_nat (length pcp) in
  let mean_pcp := mean pcp in
  search (prepared st pcp) pcp mean_pcp (stdSum pcp mean_pcp pcpsize) pcpsize.

Definition chosen (st : State) (pcp : list Real) : option Scales :=
  let '(pMajor, pMinor, pOther) := peaks st pcp in
  let '(keyIndex, scale, _, _) :=
    select pMajor pMinor pOther (Z.of_nat (length pcp)) in
  if keyIndex <? 0 then None else Some scale.

(** The score [compute] gives a shift in a mode, and the peak it leaves for
    the mode. *)
Definition score (st : State) (pcp : list Real) (sc : Scales) (shift : Z)
  : Real :=
  let st := prepared st pcp in
  let mean_pcp := mean pcp in
  let std_pcp := stdSum pcp mean_pcp (Z.of_nat (length pcp)) in
  match sc with
  | MAJOR => correlation pcp mean_pcp std_pcp (_profile_doM st)
                         (_mean_profile_M st) (_std_profile_M st) shift
  | MINOR => correlation pcp mean_pcp std_pcp (_profile_dom st)
                         (_mean_profile_m st) (_std_profile_m st) shift
  | OTHER => correlation pcp mean_pcp std_pcp (_profile_doO st)
                         (_mean_profile_O st) (_std_profile_O st) shift
  end.

Definition peakOf (st : State) (pcp : list Real) (sc : Scales) : Peak :=
  match sc with
  | MAJOR => fst (fst (peaks st pcp))
  | MINOR => snd (fst (peaks st pcp))
  | OTHER => snd (peaks st pcp)
  end.

(** The outputs written from the peak of the winning mode. *)
Definition report (st : State) (pcp : list Real) (p : Peak) (s : Scales)
  : Output :=
  mkOutput (nth (Z.to_nat (keyIndexOf (pindex p) (Z.of_nat (length pcp))))
                (_keys (prepared st pcp)) EmptyString)
           (scaleName s) (pmax p)
           (rdiv (rsub (pmax p) (pmax2 p)) (pmax p)).

(** [streaming::Key2::process].  Three things the body takes from the
    framework are arguments here: the answer of [shouldStop()], the vector
    [meanFrames(hpcpKey)] of the pooled frames, and the value of [pcpSize]
    the wrapped algorithm holds when [configure("profileType", "bmtg2")]
    runs its [configure] again.  [algo] is the wrapped algorithm; the
    result is the status with the tokens pushed, or the exception that
    leaves the body. *)
Definition process (algo : State) (pcpSize : Z) (shouldStop : bool)
           (hpcpAverage : list Real)
  : State * result (AlgorithmStatus * option Pushed) :=
  if negb shouldStop then (algo, Ok (PASS, None))
  else
    match configure algo "bmtg2" pcpSize with
    | Err e => (algo, Err e)
    | Ok algo =>
        let '(algo, r) := compute algo hpcpAverage in
        match r with
        | Err e => (algo, Err e)
        | Ok out =>
            (algo, Ok (FINISHED,
                       Some (mkPushed (key out) (scale out) (strength out))))
        end
    end.
End Algo.
End Key2.

(** ** The vocabulary of the specification *)

(** A PCP the size test of [compute] lets through. *)
Definition validSize (pcpsize : Z) : Prop :=
  12 <= pcpsize /\ pcpsize mod 12 = 0.

(** The rounding the specification asks of the key index: the real
    quotient [shift * 12 / N], one half added, then truncated. *)
Definition keyIndexSpec (shift pcpsize : Z) : Z :=
  truncQ ((inject_Z (shift * 12) / inject_Z pcpsize) + (1 # 2))%Q.

Section Specification.
Context {Real : Type} `{RealOps Real}.

(** The sum of [f 0 .. f (n-1)], first term first. *)
Fixpoint rsumN (n : nat) (f : Z -> Real) : Real :=
  match n with
  | O => rzero
  | S k => radd (rsumN k f) (f (Z.of_nat k))
  end.

Definition rsum (n : Z) (f : Z -> Real) : Real := rsumN (Z.to_nat n) f.

Definition sqDev (x m : Real) : Real := rmul (rsub x m) (rsub x m).

(** Arithmetic mean, and the root of the summed squared deviations (not
    divided by the number of values). *)
Definition meanSpec (v : list Real) : Real :=
  let N := Z.of_nat (length v) in rdiv (rsum N (rget v)) (rof_int N).

Definition stdSpec (v : list Real) (m : Real) : Real :=
  rsqrt (rsum (Z.of_nat (length v)) (fun i => sqDev (rget v i) m)).

(** The formula of the circular correlator. *)
Definition correlateSpec (pcp : list Real) (pcpMean pcpStdSum : Real)
           (profile : list Real) (profMean profStd : Real) (shift : Z)
  : Real :=
  let N := Z.of_nat (length pcp) in
  rdiv (rsum N (fun i => rmul (rsub (rget pcp i) pcpMean)
                              (rsub (rget profile ((i - shift) mod N))
                                    profMean)))
       (rmul pcpStdSum profStd).

(** The value of an interpolated profile at offset [j] of semitone [i]. *)
Definition stored (T : list Real) (n i j : Z) : Real :=
  if j =? 0 then rget T i
  else rsub (rget T i)
            (rmul (rof_int j)
                  (rdiv (rsub (rget T i) (rget T ((i + 1) mod 12)))
                        (rof_int n))).

(** An interpolated profile of [12 * n] values with its cached mean and
    deviation. *)
Definition Interpolated (T profile : list Real) (n : Z) (m s : Real) : Prop :=
  Z.of_nat (length profile) = 12 * n
  /\ (forall i, 0 <= i < 12 -> rget profile (i * n) = rget T i)
  /\ (forall i j, 0 <= i < 12 -> 1 <= j <= n - 1 ->
       rget profile (i * n + j)
       = rsub (rget T i)
              (rmul (rof_int j)
                    (rdiv (rsub (rget T i) (rget T ((i + 1) mod 12)))
                          (rof_int n))))
  /\ m = meanSpec profile
  /\ s = stdSpec profile m.

(** The value the running maximum has after the shifts below [k]. *)
Fixpoint runningMaxN (score : Z -> Real) (k : nat) : Real :=
  match k with
  | O => rof_int (-1)
  | S k' =>
      if rgtb (score (Z.of_nat k')) (runningMaxN score k')
      then score (Z.of_nat k') else runningMaxN score k'
  end.

Definition runningMax (score : Z -> Real) (k : Z) : Real :=
  runningMaxN score (Z.to_nat k).

(** What the update rule leaves for one mode whatever the comparisons
    answer: the maximum is the running maximum after the last shift;
    either no score was found greater than the initial [-1] and the three
    values are the initial ones, or the index is the last shift whose
    score was found greater than the running maximum, the maximum is that
    score, and the second maximum is the running maximum it replaced. *)
Definition Followed (score : Z -> Real) (N : Z) (p : Peak) : Prop :=
  pmax p = runningMax score N
  /\ ((pindex p = -1
       /\ pmax p = rof_int (-1) /\ pmax2 p = rof_int (-1)
       /\ forall s, 0 <= s < N -> rgtb (score s) (rof_int (-1)) = false)
      \/ (0 <= pindex p < N
          /\ pmax p = score (pindex p)
          /\ pmax2 p = runningMax score (pindex p)
          /\ rgtb (pmax p) (pmax2 p) = true
          /\ (forall s, pindex p < s < N ->
                        rgtb (score s) (pmax p) = false))).

(** What the search leaves for one mode, in the words of the update rule:
    the maximum is the running maximum after the last shift and is at
    least every score; either no score ever exceeded the initial [-1], or
    the index is the first shift that reaches the maximum and the second
    maximum is the value the running maximum had on arriving there. *)
Definition Tracked (score : Z -> Real) (N : Z) (p : Peak) : Prop :=
  pmax p = runningMax score N
  /\ rgeb (pmax p) (rof_int (-1)) = true
  /\ (forall s, 0 <= s < N -> rgeb (pmax p) (score s) = true)
  /\ ((pindex p = -1
       /\ pmax p = rof_int (-1) /\ pmax2 p = rof_int (-1)
       /\ forall s, 0 <= s < N -> rgtb (score s) (rof_int (-1)) = false)
      \/ (0 <= pindex p < N
          /\ pmax p = score (pindex p)
          /\ pmax2 p = runningMax score (pindex p)
          /\ rgtb (pmax p) (pmax2 p) = true
          /\ (forall s, 0 <= s < pindex p ->
                        rgtb (pmax p) (score s) = true)
          /\ (forall s, pindex p < s < N ->
                        rgtb (score s) (pmax p) = false))).

(** The second-highest score over all shifts, in the words of the
    specification: the score of a shift other than the one where the
    maximum occurred, at least the score of every other such shift. *)
Definition SecondHighest (score : Z -> Real) (N best : Z) (x : Real) : Prop :=
  (exists s, 0 <= s < N /\ s <> best /\ x = score s)
  /\ forall t, 0 <= t < N -> t <> best -> rgeb x (score t) = true.
End Specification.

(** ** The object between two calls *)

Section Invariants.
Context {Real : Type} `{RealOps Real}.

(** A cached profile with the mean and the deviation stored beside it. *)
Definition Cached (profile : list Real) (m s : Real) : Prop :=
  m = mean profile
  /\ s = stdSum profile m (Z.of_nat (length profile)).

(** The object [configure] builds and [compute] keeps: templates of twelve
    values, the twelve key names, profiles of one length, and beside each
    profile its own mean and deviation. *)
Definition KeyEDM_Coherent (st : KeyEDM.State) : Prop :=
  length (KeyEDM._M st) = 12%nat
  /\ length (KeyEDM._m st) = 12%nat
  /\ KeyEDM._keys st = keyNames
  /\ length (KeyEDM._profile_doM st) = length (KeyEDM._profile_dom st)
  /\ Cached (KeyEDM._profile_doM st)
            (KeyEDM._mean_profile_M st) (KeyEDM._std_profile_M st)
  /\ Cached (KeyEDM._profile_dom st)
            (KeyEDM._mean_profile_m st) (KeyEDM._std_profile_m st).

Definition Key2_Coherent (st : Key2.State) : Prop :=
  length (Key2._M st) = 12%nat
  /\ length (Key2._m st) = 12%nat
  /\ length (Key2._O st) = 12%nat
  /\ Key2._keys st = keyNames
  /\ length (Key2._profile_doM st) = length (Key2._profile_dom st)
  /\ length (Key2._profile_doO st) = length (Key2._profile_dom st)
  /\ Cached (Key2._profile_doM st)
            (Key2._mean_profile_M st) (Key2._std_profile_M st)
  /\ Cached (Key2._profile_dom st)
            (Key2._mean_profile_m st) (Key2._std_profile_m st)
  /\ Cached (Key2._profile_doO st)
            (Key2._mean_profile_O st) (Key2._std_profile_O st).
End Invariants.

(** ** Laws an implementation of [Real] may satisfy *)

(** On the values [ok] holds of (the comparable ones: every float but NaN),
    [>=] is a total preorder and [>] its strict part; the initial [-1] is
    one of them. *)
Class RealOrder {Real : Type} (ops : RealOps Real) (ok : Real -> Prop)
  : Prop := {
  ok_initial : ok (rof_int (-1));
  rgeb_total : forall x y, ok x -> ok y ->
                           rgeb x y = true \/ rgeb y x = true;
  rgeb_trans : forall x y z, ok x -> ok y -> ok z ->
                             rgeb x y = true -> rgeb y z = true ->
                             rgeb x z = true;
  rgtb_rgeb : forall x y, ok x -> ok y -> rgtb x y = negb (rgeb y x)
}.

(** ** Single precision *)

(** IEEE single precision: 24 bits of mantissa, infinities at exponent
    128, every operation rounded to nearest, ties to even.  A decimal
    literal of the source is a [double] before it is stored as a [float],
    so [rlit] rounds the quotient to double precision first; an [int] is
    exact in a [double]. *)
Definition f64_of_Z (z : Z) : spec_float := binary_normalize 53 1024 z 0 false.

Definition f32_of_f64 (x : spec_float) : spec_float :=
  match x with
  | S754_finite s m e => binary_normalize 24 128 (cond_Zopp s (Z.pos m)) e s
  | _ => x
  end.

#[export] Instance binary32 : RealOps spec_float := {|
  rlit q :=
    f32_of_f64 (SFdiv 53 1024 (f64_of_Z (Qnum q)) (f64_of_Z (Z.pos (Qden q))));
  radd := SFadd 24 128;
  rsub := SFsub 24 128;
  rmul := SFmul 24 128;
  rdiv := SFdiv 24 128;
  rsqrt := SFsqrt 24 128;
  rgtb a b := SFltb b a;
  rgeb a b := SFleb b a
|}.

(** The place of a float in the order of the comparisons, as a triple of
    integers read lexicographically: the class (infinities, signs, zero),
    then the exponent, then the mantissa. *)
Definition sfKey (x : spec_float) : Z * Z * Z :=
  match x with
  | S754_infinity true => (-2, 0, 0)
  | S754_finite true m e => (-1, - e, - Z.pos m)
  | S754_zero _ => (0, 0, 0)
  | S754_nan => (0, 0, 0)
  | S754_finite false m e => (1, e, Z.pos m)
  | S754_infinity false => (2, 0, 0)
  end.

Definition lexle (k k' : Z * Z * Z) : Prop :=
  let '(a, b, c) := k in
  let '(a', b', c') := k' in
  a < a' \/ (a = a' /\ (b < b' \/ (b = b' /\ c <= c'))).

(** The floats a comparison can order, and those that are numbers. *)
Definition comparable (x : spec_float) : Prop := x <> S754_nan.

Definition is_nan (x : spec_float) : bool :=
  match x with S754_nan => true | _ => false end.

Definition is_finite (x : spec_float) : bool :=
  match x with S754_zero _ | S754_finite _ _ _ => true | _ => false end.

(** A zero of either sign, or NaN: what arithmetic on zeros can give. *)
Definition zero_or_nan (x : spec_float) : Prop :=
  match x with S754_zero _ | S754_nan => True | _ => False end.

(** ** Vocabulary for concrete runs *)

(** The PCP turned by [k] bins: [pcp'[i] = pcp[(i - k) mod N]]. *)
Definition rotate {Real : Type} `{RealOps Real} (k : Z) (pcp : list Real)
  : list Real :=
  let N := Z.of_nat (length pcp) in
  map (fun i => rget pcp ((i - k) mod N)) (range 0 N).

(** A freshly built object after one [configure]. *)
Definition KeyEDM_configured {Real : Type} `{RealOps Real}
           (profileType : string) (pcpSize : Z) : KeyEDM.State :=
  match KeyEDM.configure KeyEDM.fresh profileType pcpSize with
  | Ok st => st
  | Err _ => KeyEDM.fresh
  end.

Definition Key2_configured {Real : Type} `{RealOps Real}
           (profileType : string) (pcpSize : Z) : Key2.State :=
  match Key2.configure Key2.fresh profileType pcpSize with
  | Ok st => st
  | Err _ => Key2.fresh
  end.

(** Four 12-bin PCPs of single-precision values, each of them exactly the
    rational written: all the energy in the first bin; a vector on which
    the major and the other profile of [bmtg2] reach the same best score
    (its fourth value is [0x1.4fd8acp-2], about 0.32797498); a vector of
    equal values; a vector that repeats after six bins. *)
Definition unitPCP : list spec_float :=
  map rlit [1; 0; 0; 0; 0; 0; 0; 0; 0; 0; 0; 0]%Q.

Definition tiePCP : list spec_float :=
  map rlit [1; 0; 0; 5502507 # 16777216; 0.25; 0.25;
            1; 0; 0.75; 0.5; 0.75; 1]%Q.

Definition flatPCP : list spec_float := repeat (rlit 1) 12.

Definition periodicPCP : list spec_float :=
  map rlit [0.125; 0; 0.375; 0; 0; 0; 0.125; 0; 0.375; 0; 0; 0]%Q.

(** [k'] follows [k] in the alphabet of key names, circularly. *)
Definition keyAfter (k k' : string) : Prop :=
  exists i, 0 <= i < 12
            /\ k = nth (Z.to_nat i) keyNames EmptyString
            /\ k' = nth (Z.to_nat ((i + 1) mod 12)) keyNames EmptyString.

(** Two floats within [tol] of each other. *)
Definition close (tol a b : spec_float) : bool :=
  SFleb (SFabs (SFsub 24 128 a b)) tol.

(** Rotation invariance of [KeyEDM] at one PCP, up to a tolerance on the
    two strengths: turning the PCP by one semitone of bins moves the key
    to the next name and keeps strength and relative strength. *)
Definition RotationInvariantUpTo (tol : spec_float) (st : KeyEDM.State)
           (pcp : list spec_float) : Prop :=
  forall out out',
    snd (KeyEDM.compute st pcp) = Ok out ->
    snd (KeyEDM.compute st (rotate (Z.of_nat (length pcp) / 12) pcp))
    = Ok out' ->
    keyAfter (key out) (key out')
    /\ close tol (strength out) (strength out') = true
    /\ close tol (firstToSecondRelativeStrength out)
                 (firstToSecondRelativeStrength out') = true.

(** * Properties *)

(** The twelve shifts of a 12-bin PCP, one after the other. *)
Ltac twelve_shifts s Hs tac :=
  let Hcases := fresh "Hcases" in
  assert (Hcases : s = 0 \/ s = 1 \/ s = 2 \/ s = 3 \/ s = 4 \/ s = 5
                   \/ s = 6 \/ s = 7 \/ s = 8 \/ s = 9 \/ s = 10 \/ s = 11)
    by (cbn in Hs; lia);
  repeat (destruct Hcases as [-> | Hcases]; [tac|]);
  subst s; tac.

(** ** Ranges, vectors and loops *)

Lemma in_range (lo hi x : Z) : In x (range lo hi) <-> lo <= x < hi.
Proof.
  unfold range. rewrite in_map_iff. split.
  - intros (k & <- & Hk). apply in_seq in Hk. lia.
  - intros Hx. exists (Z.to_nat (x - lo)). split; [lia|].
    apply in_seq. lia.
Qed.

Lemma length_range (lo hi : Z) : length (range lo hi) = Z.to_nat (hi - lo).
Proof. unfold range. now rewrite length_map, length_seq. Qed.

Lemma range_snoc (lo hi : Z) :
  lo <= hi -> range lo (hi + 1) = range lo hi ++ [hi].
Proof.
  intros Hle. unfold range.
  replace (Z.to_nat (hi + 1 - lo)) with (Z.to_nat (hi - lo) + 1)%nat by lia.
  rewrite seq_app, map_app. cbn [seq map]. do 2 f_equal. lia.
Qed.

Lemma range_nil (lo hi : Z) : hi <= lo -> range lo hi = [].
Proof.
  intros Hle. unfold range.
  now replace (Z.to_nat (hi - lo)) with 0%nat by lia.
Qed.

(** A property kept by every turn of a loop holds when the loop ends. *)
Lemma fold_left_invariant {A B : Type} (P : A -> Prop) (f : A -> B -> A)
      (l : list B) (a : A) :
  P a -> (forall a x, In x l -> P a -> P (f a x)) -> P (fold_left f l a).
Proof.
  revert a. induction l as [|x l IH]; intros a Ha Hstep; cbn; [exact Ha|].
  apply IH.
  - apply Hstep; [now left | exact Ha].
  - intros a' y Hy. apply Hstep. now right.
Qed.

(** Loops over two and three accumulators that do not read each other
    are the loops over each. *)
Lemma fold_left_pair {A B C : Type} (f : A -> C -> A) (g : B -> C -> B)
      (l : list C) (a : A) (b : B) :
  fold_left (fun '(a, b) x => (f a x, g b x)) l (a, b)
  = (fold_left f l a, fold_left g l b).
Proof.
  revert a b. induction l as [|x l IH]; intros a b; cbn; [reflexivity|].
  apply IH.
Qed.

Lemma fold_left_triple {A B C D : Type} (f : A -> D -> A) (g : B -> D -> B)
      (h : C -> D -> C) (l : list D) (a : A) (b : B) (c : C) :
  fold_left (fun '(a, b, c) x => (f a x, g b x, h c x)) l (a, b, c)
  = (fold_left f l a, fold_left g l b, fold_left h l c).
Proof.
  revert a b c. induction l as [|x l IH]; intros a b c; cbn; [reflexivity|].
  apply IH.
Qed.

Section VectorFacts.
Context {A : Type}.

Lemma length_upd (v : list A) (k : nat) (x : A) :
  length (upd v k x) = length v.
Proof.
  revert k. induction v as [|h t IH]; intros [|k]; cbn; auto.
Qed.

Lemma nth_upd_same (v : list A) (k : nat) (x d : A) :
  (k < length v)%nat -> nth k (upd v k x) d = x.
Proof.
  revert k. induction v as [|h t IH]; intros [|k] Hk; cbn in *;
    try lia; auto. apply IH. lia.
Qed.

Lemma nth_upd_other (v : list A) (k j : nat) (x d : A) :
  j <> k -> nth j (upd v k x) d = nth j v d.
Proof.
  revert k j. induction v as [|h t IH]; intros [|k] [|j] Hne; cbn;
    try reflexivity; try congruence. apply IH. congruence.
Qed.

Lemma length_vset (v : list A) (i : Z) (x : A) :
  length (vset v i x) = length v.
Proof. unfold vset. destruct (i <? 0); [reflexivity | apply length_upd]. Qed.

Lemma vget_vset_same (d : A) (v : list A) (i : Z) (x : A) :
  0 <= i < Z.of_nat (length v) -> vget d (vset v i x) i = x.
Proof.
  intros Hi. unfold vget, vset.
  destruct (Z.ltb_spec i 0); [lia|]. apply nth_upd_same. lia.
Qed.

Lemma vget_vset_other (d : A) (v : list A) (i j : Z) (x : A) :
  i <> j -> vget d (vset v i x) j = vget d v j.
Proof.
  intros Hne. unfold vget, vset.
  destruct (Z.ltb_spec j 0); [reflexivity|].
  destruct (Z.ltb_spec i 0); [reflexivity|].
  apply nth_upd_other. lia.
Qed.

Lemma length_vresize (d : A) (n : Z) (v : list A) :
  length (vresize d n v) = Z.to_nat n.
Proof.
  unfold vresize. rewrite length_app, length_firstn, repeat_length. lia.
Qed.
End VectorFacts.

(** ** The key index *)

Lemma truncQ_plus_half (z : Z) :
  truncQ (inject_Z z + (1 # 2))%Q = if z <? 0 then z + 1 else z.
Proof.
  unfold truncQ, inject_Z, Qplus. cbn [Qnum Qden].
  replace (Z.pos (1 * 2)) with 2 by reflexivity.
  destruct (Z.ltb_spec z 0) as [Hz|Hz]; Z.quot_rem_to_equations; lia.
Qed.

(** What the conversion computes for a shift that was stored: the floor of
    [shift * 12 / pcpsize]. *)
Lemma keyIndexOf_shift (shift pcpsize : Z) :
  0 <= shift -> 0 < pcpsize ->
  keyIndexOf shift pcpsize = (shift * 12) / pcpsize.
Proof.
  intros Hs Hn. unfold keyIndexOf. rewrite truncQ_plus_half.
  rewrite Z.quot_div_nonneg by lia.
  destruct (Z.ltb_spec (shift * 12 / pcpsize) 0) as [Hneg|]; [|reflexivity].
  assert (0 <= shift * 12 / pcpsize) by (apply Z.div_pos; lia). lia.
Qed.

(** What it computes for the initial [-1] of a mode no shift improved. *)
Lemma keyIndexOf_initial (pcpsize : Z) :
  12 <= pcpsize -> keyIndexOf (-1) pcpsize = 0.
Proof.
  intros Hn. unfold keyIndexOf. rewrite truncQ_plus_half.
  replace (-1 * 12) with (-12) by reflexivity.
  destruct (Z.eq_dec pcpsize 12) as [->|Hne]; [reflexivity|].
  replace (Z.quot (-12) pcpsize) with 0; [reflexivity|].
  Z.quot_rem_to_equations. nia.
Qed.

Lemma keyIndexOf_bounds (k pcpsize : Z) :
  12 <= pcpsize -> -1 <= k < pcpsize -> 0 <= keyIndexOf k pcpsize <= 11.
Proof.
  intros Hn Hk. destruct (Z.eq_dec k (-1)) as [->|Hne].
  - rewrite keyIndexOf_initial by exact Hn. lia.
  - rewrite keyIndexOf_shift by lia. split.
    + apply Z.div_pos; lia.
    + assert (k * 12 / pcpsize < 12); [|lia].
      apply Z.div_lt_upper_bound; lia.
Qed.

Lemma nth_keyNames (k : Z) :
  0 <= k <= 11 -> In (nth (Z.to_nat k) keyNames EmptyString) keyNames.
Proof. intros Hk. apply nth_In. cbn. lia. Qed.

(** ** The search loop, one mode at a time *)

Section ScanFacts.
Context {Real : Type} `{RealOps Real}.

Lemma scan_index_range (score : Z -> Real) (pcpsize : Z) :
  -1 <= pindex (scan score pcpsize) < Z.max pcpsize 0.
Proof.
  unfold scan.
  apply (fold_left_invariant
           (fun p => -1 <= pindex p < Z.max pcpsize 0)).
  - cbn. lia.
  - intros p shift Hin Hp. apply in_range in Hin. unfold track.
    destruct (rgtb _ _); cbn; lia.
Qed.

Lemma KeyEDM_peakOf_scan (st : KeyEDM.State) (pcp : list Real)
      (sc : KeyEDM.Scales) :
  KeyEDM.peakOf st pcp sc
  = scan (KeyEDM.score st pcp sc) (Z.of_nat (length pcp)).
Proof.
  assert (E : KeyEDM.peaks st pcp
              = (scan (KeyEDM.score st pcp KeyEDM.MAJOR) (Z.of_nat (length pcp)),
                 scan (KeyEDM.score st pcp KeyEDM.MINOR) (Z.of_nat (length pcp)))).
  { exact (fold_left_pair
             (fun p shift => track (KeyEDM.score st pcp KeyEDM.MAJOR shift) shift p)
             (fun p shift => track (KeyEDM.score st pcp KeyEDM.MINOR shift) shift p)
             _ peak0 peak0). }
  unfold KeyEDM.peakOf. rewrite E. destruct sc; reflexivity.
Qed.

Lemma Key2_peakOf_scan (st : Key2.State) (pcp : list Real)
      (sc : Key2.Scales) :
  Key2.peakOf st pcp sc
  = scan (Key2.score st pcp sc) (Z.of_nat (length pcp)).
Proof.
  assert (E : Key2.peaks st pcp
              = (scan (Key2.score st pcp Key2.MAJOR) (Z.of_nat (length pcp)),
                 scan (Key2.score st pcp Key2.MINOR) (Z.of_nat (length pcp)),
                 scan (Key2.score st pcp Key2.OTHER) (Z.of_nat (length pcp)))).
  { exact (fold_left_triple
             (fun p shift => track (Key2.score st pcp Key2.MAJOR shift) shift p)
             (fun p shift => track (Key2.score st pcp Key2.MINOR shift) shift p)
             (fun p shift => track (Key2.score st pcp Key2.OTHER shift) shift p)
             _ peak0 peak0 peak0). }
  unfold Key2.peakOf. rewrite E. destruct sc; reflexivity.
Qed.

Lemma KeyEDM_peak_index (st : KeyEDM.State) (pcp : list Real)
      (sc : KeyEDM.Scales) :
  -1 <= pindex (KeyEDM.peakOf st pcp sc) < Z.max (Z.of_nat (length pcp)) 0.
Proof. rewrite KeyEDM_peakOf_scan. apply scan_index_range. Qed.

Lemma Key2_peak_index (st : Key2.State) (pcp : list Real)
      (sc : Key2.Scales) :
  -1 <= pindex (Key2.peakOf st pcp sc) < Z.max (Z.of_nat (length pcp)) 0.
Proof. rewrite Key2_peakOf_scan. apply scan_index_range. Qed.
End ScanFacts.

(** ** [compute], unfolded along its three exits *)

Lemma sizeTest_spec (pcpsize : Z) :
  0 <= pcpsize ->
  ((pcpsize <? 12) || negb (Z.rem pcpsize 12 =? 0) = false
   <-> validSize pcpsize).
Proof.
  intros Hn. unfold validSize.
  rewrite Z.rem_mod_nonneg by lia.
  rewrite orb_false_iff, negb_false_iff, Z.ltb_ge, Z.eqb_eq. tauto.
Qed.

Section ComputeFacts.
Context {Real : Type} `{RealOps Real}.

Lemma KeyEDM_compute_invalid (st : KeyEDM.State) (pcp : list Real) :
  ~ validSize (Z.of_nat (length pcp)) ->
  KeyEDM.compute st pcp = (st, Err InvalidProfileSize).
Proof.
  intros Hbad. unfold KeyEDM.compute.
  destruct ((Z.of_nat (length pcp) <? 12)
            || negb (Z.rem (Z.of_nat (length pcp)) 12 =? 0)) eqn:E;
    [reflexivity|].
  apply sizeTest_spec in E; [contradiction | lia].
Qed.

Lemma KeyEDM_chosen_eq (st : KeyEDM.State) (pcp : list Real) :
  KeyEDM.chosen st pcp
  = (let '(keyIndex, scale, _, _) :=
       KeyEDM.select (KeyEDM.peakOf st pcp KeyEDM.MAJOR)
                     (KeyEDM.peakOf st pcp KeyEDM.MINOR)
                     (Z.of_nat (length pcp)) in
     if keyIndex <? 0 then None else Some scale).
Proof.
  unfold KeyEDM.chosen, KeyEDM.peakOf.
  destruct (KeyEDM.peaks st pcp) as [pMaj pMin]. reflexivity.
Qed.

Lemma KeyEDM_compute_valid (st : KeyEDM.State) (pcp : list Real) :
  validSize (Z.of_nat (length pcp)) ->
  KeyEDM.compute st pcp
  = (KeyEDM.prepared st pcp,
     match KeyEDM.chosen st pcp with
     | Some sc => Ok (KeyEDM.report st pcp (KeyEDM.peakOf st pcp sc) sc)
     | None => Err KeyNotFound
     end).
Proof.
  intros Hok. apply sizeTest_spec in Hok; [|lia].
  unfold KeyEDM.compute. rewrite Hok.
  unfold KeyEDM.chosen, KeyEDM.report, KeyEDM.peakOf, KeyEDM.peaks.
  fold (KeyEDM.prepared st pcp).
  destruct (KeyEDM.search _ _ _ _ _) as [pMaj pMin].
  unfold KeyEDM.select. cbn [fst snd].
  destruct (rgeb (pmax pMaj) (pmax pMin));
    destruct (keyIndexOf _ _ <? 0); reflexivity.
Qed.

Lemma Key2_compute_invalid (st : Key2.State) (pcp : list Real) :
  ~ validSize (Z.of_nat (length pcp)) ->
  Key2.compute st pcp = (st, Err InvalidProfileSize).
Proof.
  intros Hbad. unfold Key2.compute.
  destruct ((Z.of_nat (length pcp) <? 12)
            || negb (Z.rem (Z.of_nat (length pcp)) 12 =? 0)) eqn:E;
    [reflexivity|].
  apply sizeTest_spec in E; [contradiction | lia].
Qed.

Lemma Key2_chosen_eq (st : Key2.State) (pcp : list Real) :
  Key2.chosen st pcp
  = (let '(keyIndex, scale, _, _) :=
       Key2.select (Key2.peakOf st pcp Key2.MAJOR)
                   (Key2.peakOf st pcp Key2.MINOR)
                   (Key2.peakOf st pcp Key2.OTHER)
                   (Z.of_nat (length pcp)) in
     if keyIndex <? 0 then None else Some scale).
Proof.
  unfold Key2.chosen, Key2.peakOf.
  destruct (Key2.peaks st pcp) as [[pMajor pMinor] pOther]. reflexivity.
Qed.

Lemma Key2_compute_valid (st : Key2.State) (pcp : list Real) :
  validSize (Z.of_nat (length pcp)) ->
  Key2.compute st pcp
  = (Key2.prepared st pcp,
     match Key2.chosen st pcp with
     | Some sc => Ok (Key2.report st pcp (Key2.peakOf st pcp sc) sc)
     | None => Err KeyNotFound
     end).
Proof.
  intros Hok. apply sizeTest_spec in Hok; [|lia].
  unfold Key2.compute. rewrite Hok.
  unfold Key2.chosen, Key2.report, Key2.peakOf, Key2.peaks.
  fold (Key2.prepared st pcp).
  destruct (Key2.search _ _ _ _ _) as [[pMajor pMinor] pOther].
  unfold Key2.select. cbn [fst snd].
  destruct (rgtb (pmax pMajor) (pmax pMinor) && rgtb (pmax pMajor) (pmax pOther));
    [destruct (keyIndexOf _ _ <? 0); reflexivity|].
  destruct (rgeb (pmax pMinor) (pmax pMajor) && rgeb (pmax pMinor) (pmax pOther));
    [destruct (keyIndexOf _ _ <? 0); reflexivity|].
  destruct (rgtb (pmax pOther) (pmax pMajor) && rgtb (pmax pOther) (pmax pMinor));
    [destruct (keyIndexOf _ _ <? 0); reflexivity|].
  reflexivity.
Qed.

(** The key index of a stored peak is never negative. *)
Lemma KeyEDM_keyIndex_peak (st : KeyEDM.State) (pcp : list Real)
      (sc : KeyEDM.Scales) :
  validSize (Z.of_nat (length pcp)) ->
  0 <= keyIndexOf (pindex (KeyEDM.peakOf st pcp sc)) (Z.of_nat (length pcp))
    <= 11.
Proof.
  intros [Hn _]. apply keyIndexOf_bounds; [exact Hn|].
  pose proof (KeyEDM_peak_index st pcp sc). lia.
Qed.

Lemma Key2_keyIndex_peak (st : Key2.State) (pcp : list Real)
      (sc : Key2.Scales) :
  validSize (Z.of_nat (length pcp)) ->
  0 <= keyIndexOf (pindex (Key2.peakOf st pcp sc)) (Z.of_nat (length pcp))
    <= 11.
Proof.
  intros [Hn _]. apply keyIndexOf_bounds; [exact Hn|].
  pose proof (Key2_peak_index st pcp sc). lia.
Qed.

(** [KeyEDM]'s [if]/[else] always reports a mode. *)
Lemma KeyEDM_chosen_cases (st : KeyEDM.State) (pcp : list Real) :
  validSize (Z.of_nat (length pcp)) ->
  KeyEDM.chosen st pcp
  = Some (if rgeb (pmax (KeyEDM.peakOf st pcp KeyEDM.MAJOR))
                  (pmax (KeyEDM.peakOf st pcp KeyEDM.MINOR))
          then KeyEDM.MAJOR else KeyEDM.MINOR).
Proof.
  intros Hok. rewrite KeyEDM_chosen_eq. unfold KeyEDM.select.
  pose proof (KeyEDM_keyIndex_peak st pcp KeyEDM.MAJOR Hok) as HM.
  pose proof (KeyEDM_keyIndex_peak st pcp KeyEDM.MINOR Hok) as Hm.
  destruct (rgeb _ _).
  - destruct (Z.ltb_spec (keyIndexOf (pindex (KeyEDM.peakOf st pcp KeyEDM.MAJOR))
                                    (Z.of_nat (length pcp))) 0);
      [lia | reflexivity].
  - destruct (Z.ltb_spec (keyIndexOf (pindex (KeyEDM.peakOf st pcp KeyEDM.MINOR))
                                    (Z.of_nat (length pcp))) 0);
      [lia | reflexivity].
Qed.

(** [Key2]'s cascade reports the mode of the first test that holds, and
    none when the three fail. *)
Lemma Key2_chosen_cases (st : Key2.State) (pcp : list Real) :
  validSize (Z.of_nat (length pcp)) ->
  let maxMajor := pmax (Key2.peakOf st pcp Key2.MAJOR) in
  let maxMinor := pmax (Key2.peakOf st pcp Key2.MINOR) in
  let maxOther := pmax (Key2.peakOf st pcp Key2.OTHER) in
  Key2.chosen st pcp
  = if rgtb maxMajor maxMinor && rgtb maxMajor maxOther then Some Key2.MAJOR
    else if rgeb maxMinor maxMajor && rgeb maxMinor maxOther
         then Some Key2.MINOR
         else if rgtb maxOther maxMajor && rgtb maxOther maxMinor
              then Some Key2.OTHER
              else None.
Proof.
  intros Hok. cbv zeta. rewrite Key2_chosen_eq. unfold Key2.select.
  pose proof (Key2_keyIndex_peak st pcp Key2.MAJOR Hok) as HM.
  pose proof (Key2_keyIndex_peak st pcp Key2.MINOR Hok) as Hm.
  pose proof (Key2_keyIndex_peak st pcp Key2.OTHER Hok) as HO.
  destruct (rgtb _ _ && rgtb _ _).
  { destruct (Z.ltb_spec (keyIndexOf (pindex (Key2.peakOf st pcp Key2.MAJOR))
                                    (Z.of_nat (length pcp))) 0);
      [lia | reflexivity]. }
  destruct (rgeb _ _ && rgeb _ _).
  { destruct (Z.ltb_spec (keyIndexOf (pindex (Key2.peakOf st pcp Key2.MINOR))
                                    (Z.of_nat (length pcp))) 0);
      [lia | reflexivity]. }
  destruct (rgtb _ _ && rgtb _ _).
  { destruct (Z.ltb_spec (keyIndexOf (pindex (Key2.peakOf st pcp Key2.OTHER))
                                    (Z.of_nat (length pcp))) 0);
      [lia | reflexivity]. }
  reflexivity.
Qed.
End ComputeFacts.

(** ** The size test *)

(** C5.  [compute] throws the size exception exactly when the PCP has fewer
    than 12 values or a number of values that is not a multiple of 12, in
    [Key2] and in [KeyEDM] alike; a PCP whose length is a positive multiple
    of 12 never meets it. *)
Theorem compute_size_error {Real : Type} `{RealOps Real}
        (st2 : Key2.State) (stE : KeyEDM.State) (pcp : list Real) :
  let N := Z.of_nat (length pcp) in
  (snd (Key2.compute st2 pcp) = Err InvalidProfileSize
   <-> N < 12 \/ N mod 12 <> 0)
  /\ (snd (KeyEDM.compute stE pcp) = Err InvalidProfileSize
      <-> N < 12 \/ N mod 12 <> 0).
Proof.
  cbv zeta.
  assert (Hdec : validSize (Z.of_nat (length pcp))
                 \/ ~ validSize (Z.of_nat (length pcp))).
  { unfold validSize.
    destruct (Z_le_dec 12 (Z.of_nat (length pcp)));
      destruct (Z.eq_dec (Z.of_nat (length pcp) mod 12) 0); tauto. }
  split; (split; [intros He | intros Hbad]).
  - destruct Hdec as [Hok|Hno]; [|unfold validSize in Hno; lia].
    rewrite (Key2_compute_valid st2 pcp Hok) in He. cbn [snd] in He.
    destruct (Key2.chosen st2 pcp); discriminate.
  - rewrite Key2_compute_invalid; [reflexivity|]. unfold validSize. lia.
  - destruct Hdec as [Hok|Hno]; [|unfold validSize in Hno; lia].
    rewrite (KeyEDM_compute_valid stE pcp Hok) in He. cbn [snd] in He.
    destruct (KeyEDM.chosen stE pcp); discriminate.
  - rewrite KeyEDM_compute_invalid; [reflexivity|]. unfold validSize. lia.
Qed.

(** Lengths 11 and 13 are refused, here on vectors of zeros in single
    precision; a vector of length 12 passes the test. *)
Example size_11_13_refused :
  let zeros n := repeat (@rlit spec_float binary32 0) n in
  snd (KeyEDM.compute (KeyEDM_configured "edma" 36) (zeros 11%nat))
  = Err InvalidProfileSize
  /\ snd (KeyEDM.compute (KeyEDM_configured "edma" 36) (zeros 13%nat))
     = Err InvalidProfileSize
  /\ snd (Key2.compute (Key2_configured "bmtg2" 36) (zeros 11%nat))
     = Err InvalidProfileSize
  /\ snd (Key2.compute (Key2_configured "bmtg2" 36) (zeros 13%nat))
     = Err InvalidProfileSize
  /\ snd (KeyEDM.compute (KeyEDM_configured "edma" 36) unitPCP)
     <> Err InvalidProfileSize
  /\ snd (Key2.compute (Key2_configured "bmtg2" 36) unitPCP)
     <> Err InvalidProfileSize.
Proof. cbv zeta. repeat split; vm_compute; congruence. Qed.

(** ** The key index and the alphabet *)

Section Alphabet.
Context {Real : Type} `{RealOps Real}.

Lemma KeyEDM_resize_keys (n : Z) (st : KeyEDM.State) :
  KeyEDM._keys (KeyEDM.resize n st) = KeyEDM._keys st.
Proof.
  unfold KeyEDM.resize. destruct (fold_left _ _ _) as [doM dom]. reflexivity.
Qed.

Lemma Key2_resize_keys (n : Z) (st : Key2.State) :
  Key2._keys (Key2.resize n st) = Key2._keys st.
Proof.
  unfold Key2.resize. destruct (fold_left _ _ _) as [[doM dom] doO].
  reflexivity.
Qed.

Lemma KeyEDM_prepared_keys (st : KeyEDM.State) (pcp : list Real) :
  KeyEDM._keys (KeyEDM.prepared st pcp) = KeyEDM._keys st.
Proof.
  unfold KeyEDM.prepared. destruct (negb _); [apply KeyEDM_resize_keys|].
  reflexivity.
Qed.

Lemma Key2_prepared_keys (st : Key2.State) (pcp : list Real) :
  Key2._keys (Key2.prepared st pcp) = Key2._keys st.
Proof.
  unfold Key2.prepared. destruct (negb _); [apply Key2_resize_keys|].
  reflexivity.
Qed.

(** Every successful [configure] installs the twelve names. *)
Lemma KeyEDM_configure_keys (st st' : KeyEDM.State) (profileType : string)
      (pcpSize : Z) :
  KeyEDM.configure st profileType pcpSize = Ok st' ->
  KeyEDM._keys st' = keyNames.
Proof.
  unfold KeyEDM.configure.
  repeat (destruct (String.eqb _ _);
          [intros [= <-]; rewrite KeyEDM_resize_keys; reflexivity|]).
  discriminate.
Qed.

Lemma Key2_configure_keys (st st' : Key2.State) (profileType : string)
      (pcpSize : Z) :
  Key2.configure st profileType pcpSize = Ok st' ->
  Key2._keys st' = keyNames.
Proof.
  unfold Key2.configure.
  repeat (destruct (String.eqb _ _);
          [intros [= <-]; rewrite Key2_resize_keys; reflexivity|]).
  discriminate.
Qed.
End Alphabet.

(** C10.  For a PCP of valid size [N], the index the code computes from a
    winning shift below [N], [(int)(shift * 12 / N + 0.5)] with the integer
    quotient, is the floor of [shift * 12 / N] and lies between 0 and 11;
    and every run of [compute] that does not throw returns one of the
    twelve key names. *)
Theorem key_index_within_alphabet {Real : Type} `{RealOps Real}
        (st2 : Key2.State) (stE : KeyEDM.State) (pcp : list Real) :
  let N := Z.of_nat (length pcp) in
  validSize N ->
  Key2._keys st2 = keyNames ->
  KeyEDM._keys stE = keyNames ->
  (forall shift, 0 <= shift < N ->
                 keyIndexOf shift N = shift * 12 / N
                 /\ 0 <= keyIndexOf shift N <= 11
                 /\ In (nth (Z.to_nat (keyIndexOf shift N)) keyNames
                            EmptyString) keyNames)
  /\ (forall out, snd (Key2.compute st2 pcp) = Ok out ->
                  In (key out) keyNames)
  /\ (forall out, snd (KeyEDM.compute stE pcp) = Ok out ->
                  In (key out) keyNames).
Proof.
  cbv zeta. intros Hok Hk2 HkE. split; [|split].
  - intros shift Hs. destruct Hok as [Hn _].
    assert (Hb : 0 <= keyIndexOf shift (Z.of_nat (length pcp)) <= 11)
      by (apply keyIndexOf_bounds; lia).
    split; [apply keyIndexOf_shift; lia|].
    split; [exact Hb | now apply nth_keyNames].
  - intros out Hout. rewrite (Key2_compute_valid st2 pcp Hok) in Hout.
    cbn [snd] in Hout. destruct (Key2.chosen st2 pcp) as [sc|]; [|discriminate].
    injection Hout as <-. unfold Key2.report. cbn [key].
    rewrite Key2_prepared_keys, Hk2.
    apply nth_keyNames, Key2_keyIndex_peak, Hok.
  - intros out Hout. rewrite (KeyEDM_compute_valid stE pcp Hok) in Hout.
    cbn [snd] in Hout. destruct (KeyEDM.chosen stE pcp) as [sc|]; [|discriminate].
    injection Hout as <-. unfold KeyEDM.report. cbn [key].
    rewrite KeyEDM_prepared_keys, HkE.
    apply nth_keyNames, KeyEDM_keyIndex_peak, Hok.
Qed.

Lemma key_index_within_alphabet_witness :
  validSize (Z.of_nat (length unitPCP))
  /\ (forall out,
        snd (KeyEDM.compute (KeyEDM_configured "edma" 36) unitPCP) = Ok out ->
        In (key out) keyNames).
Proof.
  assert (Hok : validSize (Z.of_nat (length unitPCP)))
    by (split; [cbn; lia | reflexivity]).
  split; [exact Hok|].
  apply (key_index_within_alphabet
           (Key2_configured "bmtg2" 36) (KeyEDM_configured "edma" 36)
           unitPCP Hok); vm_compute; reflexivity.
Defined.

(** ** The choice of the mode *)

(** C1.  The mode [compute] reports follows the ordered tests of the code.
    [Key2]: major exactly when [maxMajor > maxMinor] and
    [maxMajor > maxOther]; failing that, minor exactly when
    [maxMinor >= maxMajor] and [maxMinor >= maxOther]; failing both, other
    exactly when [maxOther > maxMajor] and [maxOther > maxMinor], and the
    label written for other is "minor".  [KeyEDM]: major exactly when
    [maxMajor >= maxMinor], minor otherwise.  In each case the outputs are
    those of the peak of the chosen mode. *)
Theorem mode_selection_cascade {Real : Type} `{RealOps Real}
        (st2 : Key2.State) (stE : KeyEDM.State) (pcp : list Real) :
  validSize (Z.of_nat (length pcp)) ->
  let maxMajor := pmax (Key2.peakOf st2 pcp Key2.MAJOR) in
  let maxMinor := pmax (Key2.peakOf st2 pcp Key2.MINOR) in
  let maxOther := pmax (Key2.peakOf st2 pcp Key2.OTHER) in
  let major := rgtb maxMajor maxMinor && rgtb maxMajor maxOther in
  let minor := rgeb maxMinor maxMajor && rgeb maxMinor maxOther in
  let other := rgtb maxOther maxMajor && rgtb maxOther maxMinor in
  let maxMaj := pmax (KeyEDM.peakOf stE pcp KeyEDM.MAJOR) in
  let maxMin := pmax (KeyEDM.peakOf stE pcp KeyEDM.MINOR) in
  (Key2.chosen st2 pcp = Some Key2.MAJOR <-> major = true)
  /\ (Key2.chosen st2 pcp = Some Key2.MINOR
      <-> major = false /\ minor = true)
  /\ (Key2.chosen st2 pcp = Some Key2.OTHER
      <-> major = false /\ minor = false /\ other = true)
  /\ (forall sc, Key2.chosen st2 pcp = Some sc ->
        snd (Key2.compute st2 pcp)
        = Ok (Key2.report st2 pcp (Key2.peakOf st2 pcp sc) sc))
  /\ (Key2.scaleName Key2.MAJOR = "major"
      /\ Key2.scaleName Key2.MINOR = "minor"
      /\ Key2.scaleName Key2.OTHER = "minor")%string
  /\ (KeyEDM.chosen stE pcp = Some KeyEDM.MAJOR <-> rgeb maxMaj maxMin = true)
  /\ (KeyEDM.chosen stE pcp = Some KeyEDM.MINOR
      <-> rgeb maxMaj maxMin = false)
  /\ (forall sc, KeyEDM.chosen stE pcp = Some sc ->
        snd (KeyEDM.compute stE pcp)
        = Ok (KeyEDM.report stE pcp (KeyEDM.peakOf stE pcp sc) sc))
  /\ (KeyEDM.scaleName KeyEDM.MAJOR = "major"
      /\ KeyEDM.scaleName KeyEDM.MINOR = "minor")%string.
Proof.
  intros Hok. cbv zeta.
  pose proof (Key2_chosen_cases st2 pcp Hok) as H2. cbv zeta in H2.
  pose proof (KeyEDM_chosen_cases stE pcp Hok) as HE.
  assert (Hout2 : forall sc, Key2.chosen st2 pcp = Some sc ->
            snd (Key2.compute st2 pcp)
            = Ok (Key2.report st2 pcp (Key2.peakOf st2 pcp sc) sc)).
  { intros sc Hsc. rewrite (Key2_compute_valid st2 pcp Hok), Hsc.
    reflexivity. }
  assert (HoutE : forall sc, KeyEDM.chosen stE pcp = Some sc ->
            snd (KeyEDM.compute stE pcp)
            = Ok (KeyEDM.report stE pcp (KeyEDM.peakOf stE pcp sc) sc)).
  { intros sc Hsc. rewrite (KeyEDM_compute_valid stE pcp Hok), Hsc.
    reflexivity. }
  revert Hout2 HoutE. rewrite H2, HE. intros Hout2 HoutE.
  repeat match goal with |- _ /\ _ => split end;
    try reflexivity; try assumption.
  - destruct (rgtb _ _ && rgtb _ _); [tauto|].
    destruct (rgeb _ _ && rgeb _ _); [split; [discriminate|discriminate]|].
    destruct (rgtb _ _ && rgtb _ _); split; discriminate.
  - destruct (rgtb _ _ && rgtb _ _);
      [split; [discriminate | intros [? _]; discriminate]|].
    destruct (rgeb _ _ && rgeb _ _); [tauto|].
    destruct (rgtb _ _ && rgtb _ _);
      (split; [discriminate | intros [_ ?]; discriminate]).
  - destruct (rgtb _ _ && rgtb _ _);
      [split; [discriminate | intros [? _]; discriminate]|].
    destruct (rgeb _ _ && rgeb _ _);
      [split; [discriminate | intros (_ & ? & _); discriminate]|].
    destruct (rgtb _ _ && rgtb _ _); [tauto|].
    split; [discriminate | intros (_ & _ & ?); discriminate].
  - destruct (rgeb (pmax (KeyEDM.peakOf stE pcp KeyEDM.MAJOR)) _);
      split; intros E; first [reflexivity | discriminate E].
  - destruct (rgeb (pmax (KeyEDM.peakOf stE pcp KeyEDM.MAJOR)) _);
      split; intros E; first [reflexivity | discriminate E].
Qed.

Lemma mode_selection_cascade_witness :
  validSize (Z.of_nat (length unitPCP))
  /\ (Key2.chosen (Key2_configured "bmtg2" 36) unitPCP = Some Key2.MINOR
      <-> (rgtb (pmax (Key2.peakOf (Key2_configured "bmtg2" 36) unitPCP Key2.MAJOR))
                (pmax (Key2.peakOf (Key2_configured "bmtg2" 36) unitPCP Key2.MINOR))
           && rgtb (pmax (Key2.peakOf (Key2_configured "bmtg2" 36) unitPCP Key2.MAJOR))
                   (pmax (Key2.peakOf (Key2_configured "bmtg2" 36) unitPCP Key2.OTHER))
           = false)
          /\ (rgeb (pmax (Key2.peakOf (Key2_configured "bmtg2" 36) unitPCP Key2.MINOR))
                   (pmax (Key2.peakOf (Key2_configured "bmtg2" 36) unitPCP Key2.MAJOR))
              && rgeb (pmax (Key2.peakOf (Key2_configured "bmtg2" 36) unitPCP Key2.MINOR))
                      (pmax (Key2.peakOf (Key2_configured "bmtg2" 36) unitPCP Key2.OTHER))
              = true)).
Proof.
  assert (Hok : validSize (Z.of_nat (length unitPCP)))
    by (split; [cbn; lia | reflexivity]).
  split; [exact Hok|].
  exact (proj1 (proj2
           (mode_selection_cascade
              (Key2_configured "bmtg2" 36) (KeyEDM_configured "edma" 36)
              unitPCP Hok))).
Defined.

(** ** The profile types [configure] accepts *)

Section ProfileTypes.
Context {Real : Type} `{RealOps Real}.
Local Open Scope string_scope.

(** [Key2::configure] succeeds on the four declared types and on no
    other. *)
Lemma Key2_configure_accepts (st : Key2.State) (profileType : string)
      (pcpSize : Z) :
  (In profileType Key2.profileTypeRange ->
   exists st', Key2.configure st profileType pcpSize = Ok st')
  /\ (~ In profileType Key2.profileTypeRange ->
      Key2.configure st profileType pcpSize
      = Err (UnsupportedProfileType profileType)).
Proof.
  unfold Key2.configure, Key2.profileTypeRange. cbn [In].
  destruct (String.eqb_spec profileType "bmtg1");
    [split; [eexists; reflexivity | intros Hn; exfalso; apply Hn; auto]|].
  destruct (String.eqb_spec profileType "bmtg2");
    [split; [eexists; reflexivity | intros Hn; exfalso; apply Hn; auto]|].
  destruct (String.eqb_spec profileType "bmtg3");
    [split; [eexists; reflexivity | intros Hn; exfalso; apply Hn; auto]|].
  destruct (String.eqb_spec profileType "edma");
    [split; [eexists; reflexivity | intros Hn; exfalso; apply Hn; auto 6]|].
  split; [|reflexivity].
  intros [E|[E|[E|[E|[]]]]]; congruence.
Qed.

(** [KeyEDM::configure] succeeds on the four types its body names. *)
Lemma KeyEDM_configure_accepts (st : KeyEDM.State) (profileType : string)
      (pcpSize : Z) :
  let named := ["temperley"; "shaath"; "edma"; "edmm"]%string in
  (In profileType named ->
   exists st', KeyEDM.configure st profileType pcpSize = Ok st')
  /\ (~ In profileType named ->
      KeyEDM.configure st profileType pcpSize
      = Err (UnsupportedProfileType profileType)).
Proof.
  cbv zeta. unfold KeyEDM.configure. cbn [In].
  destruct (String.eqb_spec profileType "temperley");
    [split; [eexists; reflexivity | intros Hn; exfalso; apply Hn; auto]|].
  destruct (String.eqb_spec profileType "shaath");
    [split; [eexists; reflexivity | intros Hn; exfalso; apply Hn; auto]|].
  destruct (String.eqb_spec profileType "edma");
    [split; [eexists; reflexivity | intros Hn; exfalso; apply Hn; auto]|].
  destruct (String.eqb_spec profileType "edmm");
    [split; [eexists; reflexivity | intros Hn; exfalso; apply Hn; auto 6]|].
  split; [|reflexivity].
  intros [E|[E|[E|[E|[]]]]]; congruence.
Qed.

(** C9, at the inputs where the code leaves it.  [KeyEDM] declares the
    range edma, edmm, bmtg1, bmtg2, bmtg3 for [profileType], yet its
    [configure] throws the unsupported-type exception on bmtg1, bmtg2 and
    bmtg3, and accepts temperley and shaath, which the range does not
    list. *)
Theorem KeyEDM_configure_refuses_declared_types
        (st : KeyEDM.State) (pcpSize : Z) :
  (In "bmtg1" KeyEDM.profileTypeRange
   /\ KeyEDM.configure st "bmtg1" pcpSize
      = Err (UnsupportedProfileType "bmtg1"))
  /\ (In "bmtg2" KeyEDM.profileTypeRange
      /\ KeyEDM.configure st "bmtg2" pcpSize
         = Err (UnsupportedProfileType "bmtg2"))
  /\ (In "bmtg3" KeyEDM.profileTypeRange
      /\ KeyEDM.configure st "bmtg3" pcpSize
         = Err (UnsupportedProfileType "bmtg3"))
  /\ (~ In "temperley" KeyEDM.profileTypeRange
      /\ exists st', KeyEDM.configure st "temperley" pcpSize = Ok st')
  /\ (~ In "shaath" KeyEDM.profileTypeRange
      /\ exists st', KeyEDM.configure st "shaath" pcpSize = Ok st').
Proof.
  unfold KeyEDM.profileTypeRange. cbn [In].
  repeat split; auto 6;
    try (intros [E|[E|[E|[E|[E|[]]]]]]; discriminate E);
    eexists; reflexivity.
Qed.
End ProfileTypes.

(** ** The rounding of the key index *)

(** The index the specification asks for is the quotient rounded to the
    nearest integer; the code's is the quotient rounded down.  They differ
    exactly when the remainder is at least half of [pcpsize]. *)
Lemma keyIndexSpec_round (shift pcpsize : Z) :
  0 <= shift -> 0 < pcpsize ->
  keyIndexSpec shift pcpsize = (2 * (shift * 12) + pcpsize) / (2 * pcpsize).
Proof.
  intros Hs Hn. unfold keyIndexSpec, truncQ.
  destruct pcpsize as [|p|p]; try lia.
  unfold Qdiv, Qinv, Qmult, Qplus, inject_Z. cbn [Qnum Qden].
  rewrite Z.quot_div_nonneg by lia.
  f_equal; lia.
Qed.

Lemma keyIndexSpec_vs_code (shift pcpsize : Z) :
  0 <= shift -> 0 < pcpsize ->
  keyIndexSpec shift pcpsize
  = keyIndexOf shift pcpsize
    + (if 2 * ((shift * 12) mod pcpsize) <? pcpsize then 0 else 1).
Proof.
  intros Hs Hn.
  rewrite keyIndexSpec_round, keyIndexOf_shift by lia.
  destruct (Z.ltb_spec (2 * ((shift * 12) mod pcpsize)) pcpsize);
    Z.to_euclidean_division_equations; nia.
Qed.

(** C3, at an input where the code leaves it.  [KeyEDM] is configured with
    edma for 36 bins and run, in single precision, on its own major profile
    turned by two bins.  The best shift is 2, where the correlation is 1.
    The rounded quotient [2 * 12 / 36 + 0.5] is index 1, "Bb"; the code
    divides as integers first, gets index 0, and reports "A". *)
Theorem key_index_is_truncated_quotient :
  let st := KeyEDM_configured (Real := spec_float) "edma" 36 in
  let pcp := rotate 2 (KeyEDM._profile_doM st) in
  length pcp = 36%nat
  /\ pindex (KeyEDM.peakOf st pcp KeyEDM.MAJOR) = 2
  /\ KeyEDM.chosen st pcp = Some KeyEDM.MAJOR
  /\ keyIndexOf 2 36 = 0
  /\ keyIndexSpec 2 36 = 1
  /\ (exists out, snd (KeyEDM.compute st pcp) = Ok out
                  /\ key out = "A"%string)
  /\ nth (Z.to_nat (keyIndexSpec 2 36)) keyNames EmptyString = "Bb"%string.
Proof.
  cbv zeta. repeat split; try (vm_compute; reflexivity).
  eexists. split; vm_compute; reflexivity.
Qed.

(** ** Sums written as loops *)

Lemma fold_left_ext_in {A B : Type} (f g : A -> B -> A) (l : list B) (a : A) :
  (forall a x, In x l -> f a x = g a x) ->
  fold_left f l a = fold_left g l a.
Proof.
  revert a. induction l as [|x l IH]; intros a Hfg; cbn; [reflexivity|].
  rewrite Hfg by now left. apply IH. intros a' y Hy. apply Hfg. now right.
Qed.

(** The index the correlation reads: the C remainder, brought back into
    [0, size), is the mathematical residue. *)
Lemma circular_index (i shift size : Z) :
  0 < size ->
  (let index := Z.rem (i - shift) size in
   if index <? 0 then index + size else index) = (i - shift) mod size.
Proof.
  intros Hn. cbv zeta.
  pose proof (Z.quot_rem' (i - shift) size) as Hqr.
  pose proof (Z.rem_bound_abs (i - shift) size ltac:(lia)) as Hb.
  destruct (Z.ltb_spec (Z.rem (i - shift) size) 0).
  - apply Z.mod_unique_pos with (q := Z.quot (i - shift) size - 1); lia.
  - apply Z.mod_unique_pos with (q := Z.quot (i - shift) size); lia.
Qed.

Section SumFacts.
Context {Real : Type} `{RealOps Real}.

Lemma fold_range_rsumN (g : Z -> Real) (n : nat) :
  fold_left (fun r i => radd r (g i)) (range 0 (Z.of_nat n)) rzero
  = rsumN n g.
Proof.
  induction n as [|n IH]; [reflexivity|].
  replace (Z.of_nat (S n)) with (Z.of_nat n + 1) by lia.
  rewrite range_snoc by lia. rewrite fold_left_app, IH. reflexivity.
Qed.

Lemma fold_range_rsum (g : Z -> Real) (n : Z) :
  0 <= n ->
  fold_left (fun r i => radd r (g i)) (range 0 n) rzero = rsum n g.
Proof.
  intros Hn. unfold rsum. rewrite <- fold_range_rsumN.
  now rewrite Z2Nat.id by exact Hn.
Qed.

Lemma rsumN_ext (n : nat) (f g : Z -> Real) :
  (forall i, 0 <= i < Z.of_nat n -> f i = g i) -> rsumN n f = rsumN n g.
Proof.
  induction n as [|n IH]; intros Hfg; [reflexivity|]. cbn [rsumN].
  rewrite IH by (intros i Hi; apply Hfg; lia).
  rewrite Hfg by lia. reflexivity.
Qed.

Lemma rsum_ext (n : Z) (f g : Z -> Real) :
  (forall i, 0 <= i < n -> f i = g i) -> rsum n f = rsum n g.
Proof. intros Hfg. apply rsumN_ext. intros i Hi. apply Hfg. lia. Qed.

Lemma rget_app_l (l r : list Real) (i : Z) :
  i < Z.of_nat (length l) -> rget (l ++ r) i = rget l i.
Proof.
  intros Hi. unfold rget, vget. destruct (Z.ltb_spec i 0); [reflexivity|].
  apply app_nth1. lia.
Qed.

Lemma rget_app_last (l : list Real) (x : Real) :
  rget (l ++ [x]) (Z.of_nat (length l)) = x.
Proof.
  unfold rget, vget. destruct (Z.ltb_spec (Z.of_nat (length l)) 0); [lia|].
  rewrite Nat2Z.id, app_nth2, Nat.sub_diag by lia. reflexivity.
Qed.

(** The sum of a vector, element after element, is the sum over its
    indices. *)
Lemma fold_radd_rsumN (v : list Real) :
  fold_left radd v rzero = rsumN (length v) (rget v).
Proof.
  induction v as [|x l IH] using rev_ind; [reflexivity|].
  rewrite fold_left_app, length_app, Nat.add_comm. cbn [length Nat.add fold_left rsumN].
  rewrite rget_app_last, IH. f_equal.
  apply rsumN_ext. intros i Hi. symmetry. apply rget_app_l. lia.
Qed.

Lemma mean_meanSpec (v : list Real) : mean v = meanSpec v.
Proof.
  unfold mean, meanSpec, rsum. now rewrite fold_radd_rsumN, Nat2Z.id.
Qed.

Lemma stdSum_stdSpec (v : list Real) (m : Real) :
  stdSum v m (Z.of_nat (length v)) = stdSpec v m.
Proof.
  unfold stdSum, stdSpec. f_equal.
  apply (fold_range_rsum (fun i => sqDev (rget v i) m)). lia.
Qed.

Lemma correlation_correlateSpec (v1 : list Real) (mean1 std1 : Real)
      (v2 : list Real) (mean2 std2 : Real) (shift : Z) :
  correlation v1 mean1 std1 v2 mean2 std2 shift
  = correlateSpec v1 mean1 std1 v2 mean2 std2 shift.
Proof.
  unfold correlation, correlateSpec. cbv zeta. f_equal.
  rewrite <- fold_range_rsum by lia.
  apply fold_left_ext_in. intros r i Hi. apply in_range in Hi.
  pose proof (circular_index i shift (Z.of_nat (length v1))) as Hidx.
  cbv zeta in Hidx. rewrite Hidx by lia. reflexivity.
Qed.

Lemma scan_ext (f g : Z -> Real) (pcpsize : Z) :
  (forall shift, 0 <= shift < pcpsize -> f shift = g shift) ->
  scan f pcpsize = scan g pcpsize.
Proof.
  intros Hfg. unfold scan. apply fold_left_ext_in.
  intros p shift Hin. apply in_range in Hin. now rewrite Hfg.
Qed.
End SumFacts.

(** ** The correlation *)

(** C6.  For a PCP and a profile of the same length [N] and a shift below
    [N], [correlation] returns the sum over [i < N] of
    [(pcp[i] - pcpMean) * (profile[(i - shift) mod N] - profMean)] divided
    by [pcpStdSum * profStd]; the index is the residue in [0, N), inside
    the profile; [pcpMean] is the arithmetic mean of the PCP and
    [pcpStdSum] the root of its summed squared deviations, not divided by
    [N].  [compute] takes both once, before its loop: the peaks of
    [KeyEDM] are those of the scan of this one formula over the shifts. *)
Theorem correlation_formula {Real : Type} `{RealOps Real}
        (st : KeyEDM.State) (pcp profile : list Real)
        (profMean profStd : Real) (shift : Z) :
  let N := Z.of_nat (length pcp) in
  length profile = length pcp ->
  0 <= shift < N ->
  let pcpMean := meanSpec pcp in
  let pcpStdSum := stdSpec pcp pcpMean in
  correlation pcp (mean pcp) (stdSum pcp (mean pcp) N)
              profile profMean profStd shift
  = rdiv (rsum N (fun i =>
                    rmul (rsub (rget pcp i) pcpMean)
                         (rsub (rget profile ((i - shift) mod N)) profMean)))
         (rmul pcpStdSum profStd)
  /\ (forall i, 0 <= i < N ->
                0 <= (i - shift) mod N < Z.of_nat (length profile))
  /\ pcpMean = rdiv (rsum N (rget pcp)) (rof_int N)
  /\ pcpStdSum
     = rsqrt (rsum N (fun i => rmul (rsub (rget pcp i) pcpMean)
                                    (rsub (rget pcp i) pcpMean)))
  /\ (let st' := KeyEDM.prepared st pcp in
      KeyEDM.peakOf st pcp KeyEDM.MAJOR
      = scan (correlateSpec pcp pcpMean pcpStdSum (KeyEDM._profile_doM st')
                (KeyEDM._mean_profile_M st') (KeyEDM._std_profile_M st')) N
      /\ KeyEDM.peakOf st pcp KeyEDM.MINOR
         = scan (correlateSpec pcp pcpMean pcpStdSum (KeyEDM._profile_dom st')
                   (KeyEDM._mean_profile_m st') (KeyEDM._std_profile_m st')) N).
Proof.
  cbv zeta. intros Hlen Hshift.
  rewrite stdSum_stdSpec, mean_meanSpec, correlation_correlateSpec.
  split; [reflexivity|]. split.
  { intros i Hi. rewrite Hlen. apply Z.mod_pos_bound. lia. }
  split; [reflexivity|]. split; [reflexivity|].
  split; rewrite KeyEDM_peakOf_scan; apply scan_ext; intros s Hs;
    unfold KeyEDM.score; cbv zeta;
    rewrite stdSum_stdSpec, mean_meanSpec; apply correlation_correlateSpec.
Qed.

Lemma correlation_formula_witness :
  length (KeyEDM._profile_doM (KeyEDM_configured (Real := spec_float) "edma" 12))
  = length unitPCP
  /\ correlation unitPCP (mean unitPCP)
                 (stdSum unitPCP (mean unitPCP) 12)
                 (KeyEDM._profile_doM (KeyEDM_configured "edma" 12))
                 (KeyEDM._mean_profile_M (KeyEDM_configured "edma" 12))
                 (KeyEDM._std_profile_M (KeyEDM_configured "edma" 12)) 3
     = correlateSpec unitPCP (meanSpec unitPCP)
                     (stdSpec unitPCP (meanSpec unitPCP))
                     (KeyEDM._profile_doM (KeyEDM_configured "edma" 12))
                     (KeyEDM._mean_profile_M (KeyEDM_configured "edma" 12))
                     (KeyEDM._std_profile_M (KeyEDM_configured "edma" 12)) 3.
Proof.
  assert (Hlen : length (KeyEDM._profile_doM
                           (KeyEDM_configured (Real := spec_float) "edma" 12))
                 = length unitPCP) by (vm_compute; reflexivity).
  split; [exact Hlen|].
  refine (proj1 (correlation_formula
                   (KeyEDM_configured "edma" 12) unitPCP _ _ _ 3 Hlen _)).
  cbn. lia.
Defined.

(** ** The interpolation *)

Section InterpolationFacts.
Context {Real : Type} `{RealOps Real}.

Lemma rget_vset_same (v : list Real) (i : Z) (x : Real) :
  0 <= i < Z.of_nat (length v) -> rget (vset v i x) i = x.
Proof. apply vget_vset_same. Qed.

Lemma rget_vset_other (v : list Real) (i j : Z) (x : Real) :
  i <> j -> rget (vset v i x) j = rget v j.
Proof. apply vget_vset_other. Qed.

(** A run of writes [p[base + j] = val j] for [j = 1 .. m]. *)
Lemma fold_vset_length (base : Z) (val : Z -> Real) (l : list Z)
      (p : list Real) :
  length (fold_left (fun p j => vset p (base + j) (val j)) l p) = length p.
Proof.
  revert p. induction l as [|j l IH]; intros p; cbn; [reflexivity|].
  rewrite IH. apply length_vset.
Qed.

Lemma fold_vset_get (base : Z) (val : Z -> Real) (m : nat) (p : list Real)
      (k : Z) :
  0 <= base -> base + Z.of_nat m < Z.of_nat (length p) ->
  rget (fold_left (fun p j => vset p (base + j) (val j))
                  (range 1 (1 + Z.of_nat m)) p) k
  = if (base + 1 <=? k) && (k <=? base + Z.of_nat m)
    then val (k - base) else rget p k.
Proof.
  intros Hb. induction m as [|m IH]; intros Hlen.
  - cbn [Z.of_nat]. rewrite range_nil by lia. cbn [fold_left].
    destruct (Z.leb_spec (base + 1) k); destruct (Z.leb_spec k (base + 0));
      cbn; try reflexivity; lia.
  - replace (1 + Z.of_nat (S m)) with (1 + Z.of_nat m + 1) by lia.
    rewrite range_snoc by lia. rewrite fold_left_app. cbn [fold_left].
    destruct (Z.eq_dec k (base + (1 + Z.of_nat m))) as [->|Hne].
    + rewrite rget_vset_same
        by (rewrite fold_vset_length; lia).
      destruct (Z.leb_spec (base + 1) (base + (1 + Z.of_nat m)));
        destruct (Z.leb_spec (base + (1 + Z.of_nat m))
                             (base + Z.of_nat (S m)));
        cbn; try lia. f_equal. lia.
    + rewrite rget_vset_other by congruence.
      rewrite IH by lia.
      destruct (Z.leb_spec (base + 1) k);
        destruct (Z.leb_spec k (base + Z.of_nat m));
        destruct (Z.leb_spec k (base + Z.of_nat (S m)));
        cbn; try reflexivity; lia.
Qed.

Lemma length_interpolate (T : list Real) (n i : Z) (p : list Real) :
  length (interpolate T n i p) = length p.
Proof.
  unfold interpolate. cbv zeta. rewrite fold_vset_length.
  apply length_vset.
Qed.

(** One turn of the outer loop fills the [n] places of semitone [i] and
    leaves the others. *)
Lemma interpolate_get (T : list Real) (n i : Z) (p : list Real) (k : Z) :
  1 <= n -> 0 <= i < 12 -> Z.of_nat (length p) = 12 * n ->
  rget (interpolate T n i p) k
  = if (i * n <=? k) && (k <? (i + 1) * n)
    then stored T n i (k - i * n) else rget p k.
Proof.
  intros Hn Hi Hlen. unfold interpolate. cbv zeta.
  set (incr := if i =? 11 then _ else _).
  assert (Hincr : incr = rdiv (rsub (rget T i) (rget T ((i + 1) mod 12)))
                              (rof_int n)).
  { subst incr. destruct (Z.eqb_spec i 11) as [->|Hne]; [reflexivity|].
    rewrite Z.mod_small by lia. reflexivity. }
  assert (Hr : range 1 n = range 1 (1 + Z.of_nat (Z.to_nat (n - 1))))
    by (f_equal; lia).
  rewrite Hr.
  rewrite (fold_vset_get (i * n)
             (fun j => rsub (rget T i) (rmul (rof_int j) incr)))
    by (rewrite ?length_vset; nia).
  rewrite Z2Nat.id by lia.
  assert (Hlast : (i + 1) * n = i * n + n) by lia.
  destruct (Z.eq_dec k (i * n)) as [->|Hk0].
  - destruct (Z.leb_spec (i * n + 1) (i * n)); [lia|]. cbn [andb].
    destruct (Z.leb_spec (i * n) (i * n)); [|lia].
    destruct (Z.ltb_spec (i * n) ((i + 1) * n)); [|lia]. cbn [andb].
    rewrite rget_vset_same by nia.
    unfold stored. now rewrite Z.sub_diag.
  - destruct (Z.leb_spec (i * n + 1) k);
      destruct (Z.leb_spec k (i * n + (n - 1)));
      destruct (Z.leb_spec (i * n) k);
      destruct (Z.ltb_spec k ((i + 1) * n));
      cbn [andb]; try lia; try (apply rget_vset_other; lia).
    unfold stored. destruct (Z.eqb_spec (k - i * n) 0); [lia|].
    now rewrite Hincr.
Qed.

Lemma length_interpolateAll (T : list Real) (n : Z) (p : list Real) :
  length (interpolateAll T n p) = length p.
Proof.
  unfold interpolateAll.
  apply (fold_left_invariant (fun q => length q = length p)); [reflexivity|].
  intros q i _ Hq. now rewrite length_interpolate.
Qed.

Lemma interpolate_upto_get (T : list Real) (n : Z) (p : list Real)
      (c : nat) (k : Z) :
  1 <= n -> (c <= 12)%nat -> Z.of_nat (length p) = 12 * n ->
  rget (fold_left (fun p i => interpolate T n i p)
                  (range 0 (Z.of_nat c)) p) k
  = if (0 <=? k) && (k <? Z.of_nat c * n)
    then stored T n (k / n) (k mod n) else rget p k.
Proof.
  intros Hn. induction c as [|c IH]; intros Hc Hlen.
  - cbn [Z.of_nat range]. rewrite range_nil by lia. cbn [fold_left].
    destruct (Z.leb_spec 0 k); destruct (Z.ltb_spec k (0 * n));
      cbn [andb]; try reflexivity; lia.
  - replace (Z.of_nat (S c)) with (Z.of_nat c + 1) by lia.
    rewrite range_snoc by lia. rewrite fold_left_app. cbn [fold_left].
    rewrite interpolate_get; try lia.
    2:{ apply (fold_left_invariant
                 (fun q => Z.of_nat (length q) = 12 * n)); [exact Hlen|].
        intros q i _ Hq. now rewrite length_interpolate. }
    rewrite IH by lia.
    destruct (Z.leb_spec (Z.of_nat c * n) k);
      destruct (Z.ltb_spec k ((Z.of_nat c + 1) * n));
      destruct (Z.leb_spec 0 k);
      destruct (Z.ltb_spec k (Z.of_nat c * n));
      cbn [andb]; try reflexivity; try nia.
    assert (Hq : k / n = Z.of_nat c).
    { symmetry. apply Z.div_unique with (r := k - Z.of_nat c * n); nia. }
    rewrite Hq. f_equal.
    rewrite Z.mod_eq by lia. rewrite Hq. lia.
Qed.

(** After the twelve turns every place holds its stored value. *)
Lemma interpolateAll_get (T : list Real) (n : Z) (p : list Real)
      (i j : Z) :
  1 <= n -> Z.of_nat (length p) = 12 * n ->
  0 <= i < 12 -> 0 <= j < n ->
  rget (interpolateAll T n p) (i * n + j) = stored T n i j.
Proof.
  intros Hn Hlen Hi Hj. unfold interpolateAll.
  change 12 with (Z.of_nat 12) at 1.
  rewrite interpolate_upto_get by (try lia; exact Hlen).
  destruct (Z.leb_spec 0 (i * n + j));
    destruct (Z.ltb_spec (i * n + j) (Z.of_nat 12 * n));
    cbn [andb]; try nia.
  f_equal.
  - symmetry. apply Z.div_unique with (r := j); lia.
  - symmetry. apply Z.mod_unique with (q := i); lia.
Qed.

Lemma interpolateAll_Interpolated (T p : list Real) (n : Z) :
  1 <= n ->
  let profile := interpolateAll T n (vresize rzero (12 * n) p) in
  Interpolated T profile n (mean profile)
               (stdSum profile (mean profile) (12 * n)).
Proof.
  intros Hn profile.
  assert (Hlen : Z.of_nat (length profile) = 12 * n).
  { subst profile. rewrite length_interpolateAll, length_vresize. lia. }
  unfold Interpolated. split; [exact Hlen|]. split; [|split; [|split]].
  - intros i Hi. subst profile.
    replace (i * n) with (i * n + 0) by lia.
    rewrite interpolateAll_get; try lia; [reflexivity|].
    rewrite length_vresize. lia.
  - intros i j Hi Hj. subst profile.
    rewrite interpolateAll_get; try lia.
    + unfold stored. destruct (Z.eqb_spec j 0); [lia | reflexivity].
    + rewrite length_vresize. lia.
  - apply mean_meanSpec.
  - rewrite <- Hlen. apply stdSum_stdSpec.
Qed.

Lemma KeyEDM_resize_fields (pcpsize : Z) (st : KeyEDM.State) :
  let n := Z.quot pcpsize 12 in
  let doM := interpolateAll (KeyEDM._M st) n
               (vresize rzero pcpsize (KeyEDM._profile_doM st)) in
  let dom := interpolateAll (KeyEDM._m st) n
               (vresize rzero pcpsize (KeyEDM._profile_dom st)) in
  KeyEDM.resize pcpsize st
  = KeyEDM.mkState (KeyEDM._M st) (KeyEDM._m st) doM dom
      (mean doM) (mean dom)
      (stdSum doM (mean doM) pcpsize) (stdSum dom (mean dom) pcpsize)
      (KeyEDM._profileType st) (KeyEDM._keys st).
Proof.
  cbv zeta. unfold KeyEDM.resize, interpolateAll. cbv zeta.
  rewrite (fold_left_pair
             (fun p i => interpolate (KeyEDM._M st) (Z.quot pcpsize 12) i p)
             (fun p i => interpolate (KeyEDM._m st) (Z.quot pcpsize 12) i p)).
  reflexivity.
Qed.

Lemma Key2_resize_fields (pcpsize : Z) (st : Key2.State) :
  let n := Z.quot pcpsize 12 in
  let doM := interpolateAll (Key2._M st) n
               (vresize rzero pcpsize (Key2._profile_doM st)) in
  let dom := interpolateAll (Key2._m st) n
               (vresize rzero pcpsize (Key2._profile_dom st)) in
  let doO := interpolateAll (Key2._O st) n
               (vresize rzero pcpsize (Key2._profile_doO st)) in
  Key2.resize pcpsize st
  = Key2.mkState (Key2._M st) (Key2._m st) (Key2._O st) doM dom doO
      (mean doM) (mean dom) (mean doO)
      (stdSum doM (mean doM) pcpsize) (stdSum dom (mean dom) pcpsize)
      (stdSum doO (mean doO) pcpsize)
      (Key2._profileType st) (Key2._keys st).
Proof.
  cbv zeta. unfold Key2.resize, interpolateAll. cbv zeta.
  rewrite (fold_left_triple
             (fun p i => interpolate (Key2._M st) (Z.quot pcpsize 12) i p)
             (fun p i => interpolate (Key2._m st) (Z.quot pcpsize 12) i p)
             (fun p i => interpolate (Key2._O st) (Z.quot pcpsize 12) i p)).
  reflexivity.
Qed.
End InterpolationFacts.

(** C7.  For [n >= 1], [resize (12 * n)] leaves in every profile of both
    algorithms a vector of [12 * n] values that holds the template value
    [T[i]] at each anchor [i * n], and [T[i] - j * incr] at [i * n + j] for
    [j = 1 .. n-1], with [incr = (T[i] - T[(i+1) mod 12]) / n]; the cached
    mean is the arithmetic mean of the [12 * n] values and the cached
    deviation the root of the summed squared deviations, not divided by
    their number.  The templates are not touched. *)
Theorem resize_interpolates {Real : Type} `{RealOps Real}
        (st2 : Key2.State) (stE : KeyEDM.State) (n : Z) :
  1 <= n ->
  let s2 := Key2.resize (12 * n) st2 in
  let sE := KeyEDM.resize (12 * n) stE in
  (Interpolated (Key2._M st2) (Key2._profile_doM s2) n
                (Key2._mean_profile_M s2) (Key2._std_profile_M s2)
   /\ Interpolated (Key2._m st2) (Key2._profile_dom s2) n
                   (Key2._mean_profile_m s2) (Key2._std_profile_m s2)
   /\ Interpolated (Key2._O st2) (Key2._profile_doO s2) n
                   (Key2._mean_profile_O s2) (Key2._std_profile_O s2)
   /\ Key2._M s2 = Key2._M st2 /\ Key2._m s2 = Key2._m st2
   /\ Key2._O s2 = Key2._O st2)
  /\ (Interpolated (KeyEDM._M stE) (KeyEDM._profile_doM sE) n
                   (KeyEDM._mean_profile_M sE) (KeyEDM._std_profile_M sE)
      /\ Interpolated (KeyEDM._m stE) (KeyEDM._profile_dom sE) n
                      (KeyEDM._mean_profile_m sE) (KeyEDM._std_profile_m sE)
      /\ KeyEDM._M sE = KeyEDM._M stE /\ KeyEDM._m sE = KeyEDM._m stE).
Proof.
  intros Hn. cbv zeta.
  pose proof (Key2_resize_fields (12 * n) st2) as E2.
  pose proof (KeyEDM_resize_fields (12 * n) stE) as EE.
  cbv zeta in E2, EE.
  assert (Hq : Z.quot (12 * n) 12 = n)
    by (rewrite Z.mul_comm; apply Z.quot_mul; lia).
  rewrite Hq in E2, EE. rewrite E2, EE. cbn.
  repeat split; try reflexivity;
    apply (interpolateAll_Interpolated _ _ n Hn).
Qed.

Lemma resize_interpolates_witness :
  1 <= 3
  /\ Interpolated (KeyEDM._M (KeyEDM_configured (Real := spec_float) "edma" 12))
                  (KeyEDM._profile_doM
                     (KeyEDM.resize 36 (KeyEDM_configured "edma" 12)))
                  3
                  (KeyEDM._mean_profile_M
                     (KeyEDM.resize 36 (KeyEDM_configured "edma" 12)))
                  (KeyEDM._std_profile_M
                     (KeyEDM.resize 36 (KeyEDM_configured "edma" 12))).
Proof.
  assert (H3 : 1 <= 3) by lia.
  split; [exact H3|].
  exact (proj1 (proj2 (resize_interpolates
                         (Key2_configured "bmtg2" 12)
                         (KeyEDM_configured "edma" 12) 3 H3))).
Defined.

(** ** Single precision satisfies the laws of the comparisons *)

Lemma SFleb_lexle (x y : spec_float) :
  comparable x -> comparable y ->
  (SFleb x y = true <-> lexle (sfKey x) (sfKey y)).
Proof.
  unfold comparable, SFleb, SFcompare, lexle.
  destruct x as [[|]|[|]| |[|] m e]; destruct y as [[|]|[|]| |[|] m' e'];
    intros Hx Hy; try congruence; cbn [sfKey];
    try (split; [intros _; lia | reflexivity]);
    try (split; [discriminate | intros Hle; exfalso; lia]);
    destruct (Z.compare_spec e e');
    change (Pos.compare_cont Eq m m') with (Pos.compare m m');
    try destruct (Pos.compare_spec m m'); cbn [CompOpp];
    try (split; [intros _; lia | reflexivity]);
    try (split; [discriminate | intros Hle; exfalso; lia]).
Qed.

Lemma SFltb_lexle (x y : spec_float) :
  comparable x -> comparable y ->
  (SFltb x y = true <-> ~ lexle (sfKey y) (sfKey x)).
Proof.
  unfold comparable, SFltb, SFcompare, lexle.
  destruct x as [[|]|[|]| |[|] m e]; destruct y as [[|]|[|]| |[|] m' e'];
    intros Hx Hy; try congruence; cbn [sfKey];
    try (split; [intros _; lia | reflexivity]);
    try (split; [discriminate | intros Hle; exfalso; lia]);
    destruct (Z.compare_spec e e');
    change (Pos.compare_cont Eq m m') with (Pos.compare m m');
    try destruct (Pos.compare_spec m m'); cbn [CompOpp];
    try (split; [intros _; lia | reflexivity]);
    try (split; [discriminate | intros Hle; exfalso; lia]).
Qed.

Lemma binary32_order : RealOrder binary32 comparable.
Proof.
  split.
  - vm_compute. discriminate.
  - intros x y Hx Hy. cbn [rgeb binary32].
    rewrite !SFleb_lexle by assumption.
    destruct (sfKey x) as [[a b] c], (sfKey y) as [[a' b'] c'].
    unfold lexle. lia.
  - intros x y z Hx Hy Hz. cbn [rgeb binary32].
    rewrite !SFleb_lexle by assumption.
    destruct (sfKey x) as [[a b] c], (sfKey y) as [[a' b'] c'],
             (sfKey z) as [[a'' b''] c''].
    unfold lexle. lia.
  - intros x y Hx Hy. cbn [rgtb rgeb binary32].
    pose proof (SFltb_lexle y x Hy Hx) as Hlt.
    pose proof (SFleb_lexle x y Hx Hy) as Hle.
    destruct (SFltb y x), (SFleb x y); cbn; try reflexivity;
      exfalso; intuition congruence.
Qed.

(** ** What the search tracks *)

Section ScanStructure.
Context {Real : Type} {ops : RealOps Real}.

Lemma scan_succ (score : Z -> Real) (n : nat) :
  scan score (Z.of_nat (S n))
  = track (score (Z.of_nat n)) (Z.of_nat n) (scan score (Z.of_nat n)).
Proof.
  unfold scan. replace (Z.of_nat (S n)) with (Z.of_nat n + 1) by lia.
  rewrite range_snoc by lia. now rewrite fold_left_app.
Qed.

Lemma scan_max_running (score : Z -> Real) (n : nat) :
  pmax (scan score (Z.of_nat n)) = runningMaxN score n.
Proof.
  induction n as [|n IH]; [reflexivity|].
  rewrite scan_succ. unfold track. cbn [runningMaxN]. rewrite IH.
  destruct (rgtb _ _); [reflexivity | exact IH].
Qed.

(** The part of [Tracked] that needs no law of the comparisons. *)
Lemma scan_structure (score : Z -> Real) (n : nat) :
  let p := scan score (Z.of_nat n) in
  (pindex p = -1
   /\ pmax p = rof_int (-1) /\ pmax2 p = rof_int (-1)
   /\ forall s, 0 <= s < Z.of_nat n -> rgtb (score s) (rof_int (-1)) = false)
  \/ (0 <= pindex p < Z.of_nat n
      /\ pmax p = score (pindex p)
      /\ pmax2 p = runningMax score (pindex p)
      /\ rgtb (pmax p) (pmax2 p) = true
      /\ forall s, pindex p < s < Z.of_nat n ->
                   rgtb (score s) (pmax p) = false).
Proof.
  induction n as [|n IH]; cbv zeta.
  - left. repeat split; try reflexivity. intros s Hs. lia.
  - rewrite scan_succ. cbv zeta in IH. unfold track.
    destruct (rgtb (score (Z.of_nat n)) (pmax (scan score (Z.of_nat n))))
      eqn:Hgt.
    + right. cbn [pindex pmax pmax2]. split; [lia|].
      split; [reflexivity|]. split.
      { unfold runningMax. rewrite Nat2Z.id. apply scan_max_running. }
      split; [exact Hgt|]. intros s Hs. lia.
    + destruct IH as [(Hi & Hm & Hm2 & Hall) | (Hi & Hm & Hm2 & Hgt2 & Hall)].
      * left. repeat split; try assumption. intros s Hs.
        destruct (Z.eq_dec s (Z.of_nat n)) as [->|Hne].
        -- now rewrite <- Hm.
        -- apply Hall. lia.
      * right. split; [lia|]. repeat split; try assumption. intros s Hs.
        destruct (Z.eq_dec s (Z.of_nat n)) as [->|Hne].
        -- exact Hgt.
        -- apply Hall. lia.
Qed.

Lemma scan_Followed (score : Z -> Real) (n : nat) :
  Followed score (Z.of_nat n) (scan score (Z.of_nat n)).
Proof.
  split.
  - unfold runningMax. rewrite Nat2Z.id. apply scan_max_running.
  - apply scan_structure.
Qed.
End ScanStructure.

Section ScanOrder.
Context {Real : Type} {ops : RealOps Real} {ok : Real -> Prop}
        {laws : RealOrder ops ok}.

Lemma rgeb_refl (x : Real) : ok x -> rgeb x x = true.
Proof. intros Hx. destruct (rgeb_total x x Hx Hx); assumption. Qed.

Lemma rgtb_true_rgeb (x y : Real) :
  ok x -> ok y -> rgtb x y = true -> rgeb x y = true.
Proof.
  intros Hx Hy Hgt. rewrite (rgtb_rgeb x y Hx Hy) in Hgt.
  destruct (rgeb_total x y Hx Hy) as [E|E]; [exact E|].
  rewrite E in Hgt. discriminate.
Qed.

Lemma rgtb_false_rgeb (x y : Real) :
  ok x -> ok y -> rgtb x y = false -> rgeb y x = true.
Proof.
  intros Hx Hy Hgt. rewrite (rgtb_rgeb x y Hx Hy) in Hgt.
  now apply negb_false_iff in Hgt.
Qed.

Lemma rgtb_rgeb_trans (x y z : Real) :
  ok x -> ok y -> ok z ->
  rgtb x y = true -> rgeb y z = true -> rgtb x z = true.
Proof.
  intros Hx Hy Hz Hgt Hge. rewrite (rgtb_rgeb x z Hx Hz).
  destruct (rgeb z x) eqn:E; [|reflexivity].
  rewrite (rgtb_rgeb x y Hx Hy) in Hgt.
  now rewrite (rgeb_trans y z x Hy Hz Hx Hge E) in Hgt.
Qed.

Lemma rgeb_rgtb_trans (x y z : Real) :
  ok x -> ok y -> ok z ->
  rgeb x y = true -> rgtb y z = true -> rgtb x z = true.
Proof.
  intros Hx Hy Hz Hge Hgt. rewrite (rgtb_rgeb x z Hx Hz).
  destruct (rgeb z x) eqn:E; [|reflexivity].
  rewrite (rgtb_rgeb y z Hy Hz) in Hgt.
  now rewrite (rgeb_trans z x y Hz Hx Hy E Hge) in Hgt.
Qed.

Variable score : Z -> Real.
Variable N : nat.
Hypothesis score_ok : forall s, 0 <= s < Z.of_nat N -> ok (score s).

Lemma runningMax_ok (k : nat) : (k <= N)%nat -> ok (runningMaxN score k).
Proof.
  induction k as [|k IH]; intros Hk; cbn [runningMaxN].
  - apply ok_initial.
  - destruct (rgtb _ _); [apply score_ok; lia | apply IH; lia].
Qed.

Lemma runningMax_ge_initial (k : nat) :
  (k <= N)%nat -> rgeb (runningMaxN score k) (rof_int (-1)) = true.
Proof.
  induction k as [|k IH]; intros Hk; cbn [runningMaxN].
  - apply rgeb_refl, ok_initial.
  - destruct (rgtb _ _) eqn:Hgt; [|apply IH; lia].
    apply (rgeb_trans _ (runningMaxN score k)).
    + apply score_ok; lia.
    + apply runningMax_ok; lia.
    + apply ok_initial.
    + apply rgtb_true_rgeb; [apply score_ok; lia | apply runningMax_ok; lia|].
      exact Hgt.
    + apply IH; lia.
Qed.

Lemma runningMax_ge (k : nat) (s : Z) :
  (k <= N)%nat -> 0 <= s < Z.of_nat k ->
  rgeb (runningMaxN score k) (score s) = true.
Proof.
  induction k as [|k IH]; intros Hk Hs; [lia|]. cbn [runningMaxN].
  assert (Hsk : ok (score (Z.of_nat k))) by (apply score_ok; lia).
  assert (Hrk : ok (runningMaxN score k)) by (apply runningMax_ok; lia).
  destruct (rgtb _ _) eqn:Hgt.
  - destruct (Z.eq_dec s (Z.of_nat k)) as [->|Hne]; [now apply rgeb_refl|].
    apply (rgeb_trans _ (runningMaxN score k)); try assumption.
    + apply score_ok; lia.
    + now apply rgtb_true_rgeb.
    + apply IH; lia.
  - destruct (Z.eq_dec s (Z.of_nat k)) as [->|Hne].
    + now apply rgtb_false_rgeb.
    + apply IH; lia.
Qed.

Lemma scan_pmax_ok : ok (pmax (scan score (Z.of_nat N))).
Proof. rewrite scan_max_running. now apply runningMax_ok. Qed.

(** With comparable scores the search leaves what [Tracked] says. *)
Lemma scan_Tracked : Tracked score (Z.of_nat N) (scan score (Z.of_nat N)).
Proof.
  pose proof (scan_max_running score N) as Hmax.
  unfold Tracked. split.
  { unfold runningMax. now rewrite Nat2Z.id. }
  split; [rewrite Hmax; now apply runningMax_ge_initial|].
  split; [intros s Hs; rewrite Hmax; now apply runningMax_ge|].
  destruct (scan_structure score N)
    as [(Hi & Hm & Hm2 & Hall) | (Hi & Hm & Hm2 & Hgt & Hall)];
    [left; repeat split; assumption|].
  right. repeat split; try assumption; try lia.
  intros s Hs. rewrite Hm2 in Hgt.
  apply (rgtb_rgeb_trans _ (runningMax score (pindex (scan score (Z.of_nat N))))).
  - rewrite Hm. apply score_ok. lia.
  - apply runningMax_ok. lia.
  - apply score_ok. lia.
  - exact Hgt.
  - apply runningMax_ge; lia.
Qed.
End ScanOrder.

(** X17: what the search leaves.  For each mode of [Key2] and of
    [KeyEDM], the three values the loop over the shifts
    [0 .. len(pcp)-1] leaves are those of the strictly-greater update
    rule: the maximum is the running maximum after the last shift, the
    index is the shift at which it was stored, and the second maximum is
    the running maximum that shift replaced (a score equal to the maximum
    replaces nothing), which need not be the second-highest score; the
    three initial values stay when no score is found above [-1].  When
    the scores of the mode are comparable, the maximum is moreover at
    least [-1] and at least every score, and the index is the first shift
    whose score attains it: every earlier score is strictly below, no
    later one exceeds it. *)
Theorem search_tracks_maximum {Real : Type} {ops : RealOps Real}
        {ok : Real -> Prop} {laws : RealOrder ops ok}
        (st2 : Key2.State) (stE : KeyEDM.State) (pcp : list Real) :
  let N := Z.of_nat (length pcp) in
  (forall sc,
      Followed (Key2.score st2 pcp sc) N (Key2.peakOf st2 pcp sc)
      /\ ((forall s, 0 <= s < N -> ok (Key2.score st2 pcp sc s)) ->
          Tracked (Key2.score st2 pcp sc) N (Key2.peakOf st2 pcp sc)))
  /\ (forall sc,
         Followed (KeyEDM.score stE pcp sc) N (KeyEDM.peakOf stE pcp sc)
         /\ ((forall s, 0 <= s < N -> ok (KeyEDM.score stE pcp sc s)) ->
             Tracked (KeyEDM.score stE pcp sc) N (KeyEDM.peakOf stE pcp sc))).
Proof.
  cbv zeta. split; intros sc.
  - rewrite Key2_peakOf_scan.
    split; [apply scan_Followed | intros Hok; now apply scan_Tracked].
  - rewrite KeyEDM_peakOf_scan.
    split; [apply scan_Followed | intros Hok; now apply scan_Tracked].
Qed.

Lemma search_tracks_maximum_witness :
  (forall s, 0 <= s < 12 ->
             comparable (KeyEDM.score (KeyEDM_configured "edma" 12) unitPCP
                                      KeyEDM.MINOR s))
  /\ Tracked (KeyEDM.score (KeyEDM_configured "edma" 12) unitPCP KeyEDM.MINOR)
             12
             (KeyEDM.peakOf (KeyEDM_configured "edma" 12) unitPCP
                            KeyEDM.MINOR).
Proof.
  assert (Hok : forall s, 0 <= s < 12 ->
                  comparable (KeyEDM.score (KeyEDM_configured "edma" 12)
                                           unitPCP KeyEDM.MINOR s)).
  { intros s Hs.
    assert (Hcases : s = 0 \/ s = 1 \/ s = 2 \/ s = 3 \/ s = 4 \/ s = 5
                     \/ s = 6 \/ s = 7 \/ s = 8 \/ s = 9 \/ s = 10
                     \/ s = 11) by lia.
    repeat (destruct Hcases as [-> | Hcases];
            [vm_compute; discriminate|]).
    subst s. vm_compute. discriminate. }
  split; [exact Hok|].
  exact (proj2 (proj2 (search_tracks_maximum
                         (laws := binary32_order)
                         (Key2_configured "bmtg2" 12)
                         (KeyEDM_configured "edma" 12) unitPCP)
                      KeyEDM.MINOR)
               Hok).
Defined.

(** C4 fails on the code.  The second maximum the loop keeps is not the
    second-highest score over the shifts.  [KeyEDM] with edma and [Key2]
    with bmtg2 are run in single precision on the 12-bin PCP with all its
    energy in the first bin; every score is finite.  In the mode each of
    them reports (minor in [KeyEDM], other in [Key2]) the best score comes
    at shift 0, so nothing is ever moved into the second maximum: it is
    still the initial [-1] after the loop, a value no shift scores, while
    the second-highest score is that of shift 5 (about 0.427 and 0.496).
    The relative strength returned is computed from that [-1]. *)
Theorem second_maximum_is_not_the_second_highest_score :
  let stE := KeyEDM_configured (Real := spec_float) "edma" 12 in
  let st2 := Key2_configured (Real := spec_float) "bmtg2" 12 in
  let pE := KeyEDM.peakOf stE unitPCP KeyEDM.MINOR in
  let p2 := Key2.peakOf st2 unitPCP Key2.OTHER in
  validSize (Z.of_nat (length unitPCP))
  /\ (forallb (fun s => is_finite (KeyEDM.score stE unitPCP KeyEDM.MINOR s))
              (range 0 12) = true
      /\ pindex pE = 0
      /\ pmax pE = KeyEDM.score stE unitPCP KeyEDM.MINOR 0
      /\ SecondHighest (KeyEDM.score stE unitPCP KeyEDM.MINOR) 12 (pindex pE)
                       (S754_finite false 14320193 (-25))
      /\ pmax2 pE = rlit (-1)
      /\ rgtb (S754_finite false 14320193 (-25)) (pmax2 pE) = true
      /\ ~ SecondHighest (KeyEDM.score stE unitPCP KeyEDM.MINOR) 12
                         (pindex pE) (pmax2 pE)
      /\ snd (KeyEDM.compute stE unitPCP)
         = Ok (mkOutput "A" "minor" (pmax pE)
                        (rdiv (rsub (pmax pE) (rlit (-1))) (pmax pE))))
  /\ (forallb (fun s => is_finite (Key2.score st2 unitPCP Key2.OTHER s))
              (range 0 12) = true
      /\ pindex p2 = 0
      /\ pmax p2 = Key2.score st2 unitPCP Key2.OTHER 0
      /\ SecondHighest (Key2.score st2 unitPCP Key2.OTHER) 12 (pindex p2)
                       (S754_finite false 16642685 (-25))
      /\ pmax2 p2 = rlit (-1)
      /\ rgtb (S754_finite false 16642685 (-25)) (pmax2 p2) = true
      /\ ~ SecondHighest (Key2.score st2 unitPCP Key2.OTHER) 12
                         (pindex p2) (pmax2 p2)
      /\ snd (Key2.compute st2 unitPCP)
         = Ok (mkOutput "A" "minor" (pmax p2)
                        (rdiv (rsub (pmax p2) (rlit (-1))) (pmax p2)))).
Proof.
  cbv zeta.
  assert (HiE : pindex (KeyEDM.peakOf (KeyEDM_configured "edma" 12) unitPCP
                                      KeyEDM.MINOR) = 0)
    by (vm_compute; reflexivity).
  assert (Hi2 : pindex (Key2.peakOf (Key2_configured "bmtg2" 12) unitPCP
                                    Key2.OTHER) = 0)
    by (vm_compute; reflexivity).
  rewrite HiE, Hi2.
  split; [split; [cbn; lia | reflexivity]|]. split.
  - split; [vm_compute; reflexivity|]. split; [reflexivity|].
    split; [vm_compute; reflexivity|]. split; [|split; [|split; [|split]]].
    + split.
      * exists 5. split; [lia|]. split; [lia|]. vm_compute. reflexivity.
      * intros t Ht Hne.
        twelve_shifts t Ht ltac:(first [vm_compute; reflexivity
                                       | exfalso; apply Hne; reflexivity]).
    + vm_compute. reflexivity.
    + vm_compute. reflexivity.
    + intros [(s & Hs & _ & E) _]. revert E.
      twelve_shifts s Hs ltac:(vm_compute; discriminate).
    + vm_compute. reflexivity.
  - split; [vm_compute; reflexivity|]. split; [reflexivity|].
    split; [vm_compute; reflexivity|]. split; [|split; [|split; [|split]]].
    + split.
      * exists 5. split; [lia|]. split; [lia|]. vm_compute. reflexivity.
      * intros t Ht Hne.
        twelve_shifts t Ht ltac:(first [vm_compute; reflexivity
                                       | exfalso; apply Hne; reflexivity]).
    + vm_compute. reflexivity.
    + vm_compute. reflexivity.
    + intros [(s & Hs & _ & E) _]. revert E.
      twelve_shifts s Hs ltac:(vm_compute; discriminate).
    + vm_compute. reflexivity.
Qed.

(** ** When the key is not found *)

Section KeyNotFoundFacts.
Context {Real : Type} {ops : RealOps Real}.

(** [KeyEDM] never throws it: one of its two branches always runs, and
    the index either branch computes is not negative, even from the
    initial [-1]. *)
Lemma KeyEDM_never_KeyNotFound (st : KeyEDM.State) (pcp : list Real) :
  snd (KeyEDM.compute st pcp) <> Err KeyNotFound.
Proof.
  destruct (Z_le_dec 12 (Z.of_nat (length pcp))) as [Hn|Hn].
  - destruct (Z.eq_dec (Z.of_nat (length pcp) mod 12) 0) as [Hm|Hm].
    + assert (Hok : validSize (Z.of_nat (length pcp))) by (split; assumption).
      rewrite (KeyEDM_compute_valid st pcp Hok),
              (KeyEDM_chosen_cases st pcp Hok).
      discriminate.
    + rewrite KeyEDM_compute_invalid; [discriminate|].
      unfold validSize. tauto.
  - rewrite KeyEDM_compute_invalid; [discriminate|].
    unfold validSize. tauto.
Qed.

(** [Key2] throws it exactly when none of its three tests holds. *)
Lemma Key2_KeyNotFound_tests (st : Key2.State) (pcp : list Real) :
  validSize (Z.of_nat (length pcp)) ->
  let maxMajor := pmax (Key2.peakOf st pcp Key2.MAJOR) in
  let maxMinor := pmax (Key2.peakOf st pcp Key2.MINOR) in
  let maxOther := pmax (Key2.peakOf st pcp Key2.OTHER) in
  snd (Key2.compute st pcp) = Err KeyNotFound
  <-> (rgtb maxMajor maxMinor && rgtb maxMajor maxOther = false
       /\ rgeb maxMinor maxMajor && rgeb maxMinor maxOther = false
       /\ rgtb maxOther maxMajor && rgtb maxOther maxMinor = false).
Proof.
  intros Hok. cbv zeta.
  rewrite (Key2_compute_valid st pcp Hok).
  pose proof (Key2_chosen_cases st pcp Hok) as Hc. cbv zeta in Hc.
  rewrite Hc. cbn [snd].
  destruct (rgtb _ _ && rgtb _ _);
    [split; [discriminate | intros (E & _); discriminate E]|].
  destruct (rgeb _ _ && rgeb _ _);
    [split; [discriminate | intros (_ & E & _); discriminate E]|].
  destruct (rgtb _ _ && rgtb _ _);
    [split; [discriminate | intros (_ & _ & E); discriminate E]|].
  split; [auto | reflexivity].
Qed.

Context {ok : Real -> Prop} {laws : RealOrder ops ok}.

(** Three comparable maxima fail the three tests exactly when major and
    other are level and both above minor. *)
Lemma cascade_gap (M m O : Real) :
  ok M -> ok m -> ok O ->
  (rgtb M m && rgtb M O = false
   /\ rgeb m M && rgeb m O = false
   /\ rgtb O M && rgtb O m = false)
  <-> (rgeb M O = true /\ rgeb O M = true /\ rgtb M m = true).
Proof.
  intros HM Hm HO.
  rewrite (rgtb_rgeb M m HM Hm), (rgtb_rgeb M O HM HO),
          (rgtb_rgeb O M HO HM), (rgtb_rgeb O m HO Hm).
  pose proof (rgeb_total M m HM Hm) as T1.
  pose proof (rgeb_total M O HM HO) as T2.
  pose proof (rgeb_total m O Hm HO) as T3.
  pose proof (rgeb_trans M m O HM Hm HO) as R1.
  pose proof (rgeb_trans M O m HM HO Hm) as R2.
  pose proof (rgeb_trans m M O Hm HM HO) as R3.
  pose proof (rgeb_trans m O M Hm HO HM) as R4.
  pose proof (rgeb_trans O M m HO HM Hm) as R5.
  pose proof (rgeb_trans O m M HO Hm HM) as R6.
  destruct (rgeb M m), (rgeb m M);
    try (destruct T1; discriminate); clear T1;
    destruct (rgeb M O), (rgeb O M);
    try (destruct T2; discriminate); clear T2;
    destruct (rgeb m O), (rgeb O m);
    try (destruct T3; discriminate); clear T3;
    try discriminate (R1 eq_refl eq_refl);
    try discriminate (R2 eq_refl eq_refl);
    try discriminate (R3 eq_refl eq_refl);
    try discriminate (R4 eq_refl eq_refl);
    try discriminate (R5 eq_refl eq_refl);
    try discriminate (R6 eq_refl eq_refl);
    clear; cbn; intuition discriminate.
Qed.
End KeyNotFoundFacts.

(** With comparable scores, [Key2] throws it exactly when the best major
    and the best other score are level and above the best minor score. *)
Lemma Key2_KeyNotFound_level_maxima {Real : Type} {ops : RealOps Real}
      {ok : Real -> Prop} {laws : RealOrder ops ok}
      (st : Key2.State) (pcp : list Real) :
  validSize (Z.of_nat (length pcp)) ->
  (forall sc s, 0 <= s < Z.of_nat (length pcp) ->
                ok (Key2.score st pcp sc s)) ->
  let maxMajor := pmax (Key2.peakOf st pcp Key2.MAJOR) in
  let maxMinor := pmax (Key2.peakOf st pcp Key2.MINOR) in
  let maxOther := pmax (Key2.peakOf st pcp Key2.OTHER) in
  snd (Key2.compute st pcp) = Err KeyNotFound
  <-> (rgeb maxMajor maxOther = true /\ rgeb maxOther maxMajor = true
       /\ rgtb maxMajor maxMinor = true).
Proof.
  intros Hvalid Hok. cbv zeta.
  pose proof (Key2_KeyNotFound_tests st pcp Hvalid) as Htests.
  cbv zeta in Htests. rewrite Htests.
  apply cascade_gap; rewrite Key2_peakOf_scan; apply scan_pmax_ok;
    intros s Hs; now apply Hok.
Qed.

(** C2, at an input where the code leaves it.  [Key2], configured with
    bmtg2, is run in single precision on a 12-bin PCP for which the best
    score of the major profile and the best score of the other profile are
    the same float, above the best minor score.  All 36 scores are finite,
    yet none of the three tests of the cascade holds, [keyIndex] keeps its
    initial [-1], and [compute] throws the key-not-found exception. *)
Theorem Key2_level_maxima_raise_KeyNotFound :
  let st := Key2_configured (Real := spec_float) "bmtg2" 12 in
  validSize (Z.of_nat (length tiePCP))
  /\ forallb (fun sc =>
                forallb (fun s => is_finite (Key2.score st tiePCP sc s))
                        (range 0 12))
             [Key2.MAJOR; Key2.MINOR; Key2.OTHER] = true
  /\ pmax (Key2.peakOf st tiePCP Key2.MAJOR)
     = pmax (Key2.peakOf st tiePCP Key2.OTHER)
  /\ rgtb (pmax (Key2.peakOf st tiePCP Key2.MAJOR))
          (pmax (Key2.peakOf st tiePCP Key2.MINOR)) = true
  /\ snd (Key2.compute st tiePCP) = Err KeyNotFound.
Proof.
  cbv zeta. split; [split; [cbn; lia | reflexivity]|].
  repeat split; vm_compute; reflexivity.
Qed.

(** The case the exception was written for does not reach it: on a PCP of
    equal values every score is NaN, no comparison succeeds, and both
    algorithms return the first key name with strength [-1]. *)
Example flat_pcp_is_reported_as_A :
  forallb (fun s => is_nan (KeyEDM.score (KeyEDM_configured "edma" 12)
                                         flatPCP KeyEDM.MAJOR s))
          (range 0 12) = true
  /\ snd (KeyEDM.compute (KeyEDM_configured "edma" 12) flatPCP)
     = Ok (mkOutput "A" "major" (rlit (-1)) (S754_zero true))
  /\ snd (Key2.compute (Key2_configured "bmtg2" 12) flatPCP)
     = Ok (mkOutput "A" "minor" (rlit (-1)) (S754_zero true)).
Proof. repeat split; vm_compute; reflexivity. Qed.

(** ** Turning the PCP *)

Section RotationFacts.
Context {Real : Type} {ops : RealOps Real}.

Lemma rget_map_range (f : Z -> Real) (N i : Z) :
  0 <= i < N -> rget (map f (range 0 N)) i = f i.
Proof.
  intros Hi. unfold rget, vget. destruct (Z.ltb_spec i 0); [lia|].
  rewrite (nth_indep _ _ (f 0)) by (rewrite length_map, length_range; lia).
  rewrite map_nth. f_equal. unfold range.
  rewrite (nth_indep _ _ (0 + Z.of_nat 0))
    by (rewrite length_map, length_seq; lia).
  rewrite (map_nth (fun k => 0 + Z.of_nat k)), seq_nth by lia. lia.
Qed.

Lemma length_rotate (k : Z) (pcp : list Real) :
  length (rotate k pcp) = length pcp.
Proof. unfold rotate. rewrite length_map, length_range. lia. Qed.

Lemma rget_rotate (k : Z) (pcp : list Real) (i : Z) :
  0 <= i < Z.of_nat (length pcp) ->
  rget (rotate k pcp) i = rget pcp ((i - k) mod Z.of_nat (length pcp)).
Proof.
  intros Hi. unfold rotate.
  apply (rget_map_range
           (fun i => rget pcp ((i - k) mod Z.of_nat (length pcp)))), Hi.
Qed.
End RotationFacts.

(** C8 fails on the code.  [KeyEDM], configured with edma, is run in
    single precision on two 12-bin PCPs and on each of them turned by one
    bin.  On the PCP with all its energy in the first bin the key moves
    from "A" to "Bb" and the strength is the same, but the relative
    strength goes from about 2.35 to about 1.34, beyond any tolerance up
    to one half: the second maximum is the running maximum met before the
    best shift ([-1] on the PCP, the score of shift 0 on the turned one),
    not the second-highest score.  On the PCP that repeats after six bins
    every score is finite and the best major score, at shift 2, is
    strictly above the score of every other shift; the key reported is
    "B", and on the turned PCP it is "F#", not "C": the scores of the
    shifts six bins apart differ by one unit in the last place, and the
    rounding of the sums decides differently once the PCP is turned. *)
Theorem rotation_invariance_fails_on_the_code :
  let st := KeyEDM_configured (Real := spec_float) "edma" 12 in
  let strength1 := S754_finite false 12454752 (-24) in
  let strength2 := S754_finite false 11855302 (-25) in
  validSize (Z.of_nat (length unitPCP))
  /\ validSize (Z.of_nat (length periodicPCP))
  /\ (snd (KeyEDM.compute st unitPCP)
      = Ok (mkOutput "A" "minor" strength1
                     (S754_finite false 9844255 (-22)))
      /\ snd (KeyEDM.compute st (rotate 1 unitPCP))
         = Ok (mkOutput "Bb" "minor" strength1
                        (S754_finite false 11212615 (-23)))
      /\ close (rlit 0.5) (S754_finite false 9844255 (-22))
               (S754_finite false 11212615 (-23)) = false
      /\ pmax2 (KeyEDM.peakOf st unitPCP KeyEDM.MINOR) = rlit (-1)
      /\ pmax2 (KeyEDM.peakOf st (rotate 1 unitPCP) KeyEDM.MINOR)
         = KeyEDM.score st (rotate 1 unitPCP) KeyEDM.MINOR 0
      /\ ~ RotationInvariantUpTo (rlit 0.5) st unitPCP)
  /\ (forallb (fun sc =>
                 forallb (fun s => is_finite (KeyEDM.score st periodicPCP sc s))
                         (range 0 12))
              [KeyEDM.MAJOR; KeyEDM.MINOR] = true
      /\ KeyEDM.chosen st periodicPCP = Some KeyEDM.MAJOR
      /\ pindex (KeyEDM.peakOf st periodicPCP KeyEDM.MAJOR) = 2
      /\ forallb (fun s => (s =? 2)
                           || rgtb (KeyEDM.score st periodicPCP KeyEDM.MAJOR 2)
                                   (KeyEDM.score st periodicPCP KeyEDM.MAJOR s))
                 (range 0 12) = true
      /\ snd (KeyEDM.compute st periodicPCP)
         = Ok (mkOutput "B" "major" strength2
                        (S754_finite false 13831895 (-24)))
      /\ snd (KeyEDM.compute st (rotate 1 periodicPCP))
         = Ok (mkOutput "F#" "major" strength2
                        (S754_finite false 11871270 (-47)))
      /\ ~ keyAfter "B" "F#"
      /\ forall tol, ~ RotationInvariantUpTo tol st periodicPCP).
Proof.
  cbv zeta.
  assert (Hkey : ~ keyAfter "B" "F#").
  { intros (i & Hi & HB & HF). revert HB HF.
    twelve_shifts i Hi
      ltac:(vm_compute; intros HB HF;
            first [discriminate HB | discriminate HF]). }
  split; [split; [cbn; lia | reflexivity]|].
  split; [split; [cbn; lia | reflexivity]|].
  split.
  - split; [vm_compute; reflexivity|]. split; [vm_compute; reflexivity|].
    split; [vm_compute; reflexivity|]. split; [vm_compute; reflexivity|].
    split; [vm_compute; reflexivity|].
    intros Hinv.
    destruct (Hinv (mkOutput "A" "minor" (S754_finite false 12454752 (-24))
                             (S754_finite false 9844255 (-22)))
                   (mkOutput "Bb" "minor" (S754_finite false 12454752 (-24))
                             (S754_finite false 11212615 (-23))))
      as (_ & _ & Hrel).
    + vm_compute. reflexivity.
    + vm_compute. reflexivity.
    + vm_compute in Hrel. discriminate Hrel.
  - split; [vm_compute; reflexivity|]. split; [vm_compute; reflexivity|].
    split; [vm_compute; reflexivity|]. split; [vm_compute; reflexivity|].
    split; [vm_compute; reflexivity|]. split; [vm_compute; reflexivity|].
    split; [exact Hkey|].
    intros tol Hinv.
    destruct (Hinv (mkOutput "B" "major" (S754_finite false 11855302 (-25))
                             (S754_finite false 13831895 (-24)))
                   (mkOutput "F#" "major" (S754_finite false 11855302 (-25))
                             (S754_finite false 11871270 (-47))))
      as (Hk & _).
    + vm_compute. reflexivity.
    + vm_compute. reflexivity.
    + exact (Hkey Hk).
Qed.

(** * Further properties of the code *)

(** ** The cached profiles *)

Section CacheFacts.
Context {Real : Type} `{RealOps Real}.

Lemma rget_ext (l l' : list Real) :
  length l = length l' ->
  (forall i, 0 <= i < Z.of_nat (length l) -> rget l i = rget l' i) ->
  l = l'.
Proof.
  intros Hlen Hget. apply (nth_ext l l' rzero rzero Hlen).
  intros k Hk. specialize (Hget (Z.of_nat k)).
  unfold rget, vget in Hget.
  destruct (Z.of_nat k <? 0) eqn:E; [apply Z.ltb_lt in E; lia|].
  rewrite Nat2Z.id in Hget. apply Hget. lia.
Qed.

(** On a vector of [12 * n] values the loop of [resize] writes every
    element: what the vector held before is gone. *)
Lemma interpolateAll_overwrites (T : list Real) (n : Z) (p p' : list Real) :
  1 <= n ->
  Z.of_nat (length p) = 12 * n -> Z.of_nat (length p') = 12 * n ->
  interpolateAll T n p = interpolateAll T n p'.
Proof.
  intros Hn Hp Hp'. apply rget_ext.
  - rewrite !length_interpolateAll. lia.
  - intros k Hk. rewrite length_interpolateAll, Hp in Hk.
    assert (Hdiv : 0 <= k / n < 12).
    { split; [apply Z.div_pos; lia | apply Z.div_lt_upper_bound; lia]. }
    assert (Hmod : 0 <= k mod n < n) by (apply Z.mod_pos_bound; lia).
    assert (Hk' : k = k / n * n + k mod n).
    { pose proof (Z.div_mod k n). lia. }
    rewrite Hk'.
    rewrite (interpolateAll_get T n p), (interpolateAll_get T n p');
      auto.
Qed.

Lemma vresize_size (n : Z) (p : list Real) :
  0 <= n -> Z.of_nat (length (vresize rzero n p)) = n.
Proof. intros Hn. rewrite length_vresize. lia. Qed.

Lemma interpolateAll_resized (T : list Real) (n : Z) (p p' : list Real) :
  1 <= n ->
  interpolateAll T n (vresize rzero (12 * n) p)
  = interpolateAll T n (vresize rzero (12 * n) p').
Proof.
  intros Hn. apply interpolateAll_overwrites; auto;
    apply vresize_size; lia.
Qed.

Lemma quot_12 (n : Z) : Z.quot (12 * n) 12 = n.
Proof. rewrite Z.mul_comm. apply Z.quot_mul. lia. Qed.

Lemma validSize_multiple (N : Z) :
  validSize N -> exists n, 1 <= n /\ N = 12 * n.
Proof.
  intros [Hge Hmod]. exists (N / 12). apply Z.div_exact in Hmod; lia.
Qed.

Lemma KeyEDM_resize_overwrites (n : Z) (st st' : KeyEDM.State) :
  1 <= n ->
  KeyEDM._M st = KeyEDM._M st' -> KeyEDM._m st = KeyEDM._m st' ->
  KeyEDM._profileType st = KeyEDM._profileType st' ->
  KeyEDM._keys st = KeyEDM._keys st' ->
  KeyEDM.resize (12 * n) st = KeyEDM.resize (12 * n) st'.
Proof.
  intros Hn HM Hm Ht Hk. rewrite !KeyEDM_resize_fields. cbv zeta.
  rewrite quot_12, HM, Hm, Ht, Hk.
  rewrite (interpolateAll_resized (KeyEDM._M st') n
             (KeyEDM._profile_doM st) (KeyEDM._profile_doM st') Hn).
  rewrite (interpolateAll_resized (KeyEDM._m st') n
             (KeyEDM._profile_dom st) (KeyEDM._profile_dom st') Hn).
  reflexivity.
Qed.

Lemma Key2_resize_overwrites (n : Z) (st st' : Key2.State) :
  1 <= n ->
  Key2._M st = Key2._M st' -> Key2._m st = Key2._m st' ->
  Key2._O st = Key2._O st' ->
  Key2._profileType st = Key2._profileType st' ->
  Key2._keys st = Key2._keys st' ->
  Key2.resize (12 * n) st = Key2.resize (12 * n) st'.
Proof.
  intros Hn HM Hm HO Ht Hk. rewrite !Key2_resize_fields. cbv zeta.
  rewrite quot_12, HM, Hm, HO, Ht, Hk.
  rewrite (interpolateAll_resized (Key2._M st') n
             (Key2._profile_doM st) (Key2._profile_doM st') Hn).
  rewrite (interpolateAll_resized (Key2._m st') n
             (Key2._profile_dom st) (Key2._profile_dom st') Hn).
  rewrite (interpolateAll_resized (Key2._O st') n
             (Key2._profile_doO st) (Key2._profile_doO st') Hn).
  reflexivity.
Qed.

Lemma KeyEDM_resize_lengths (N : Z) (st : KeyEDM.State) :
  length (KeyEDM._profile_doM (KeyEDM.resize N st)) = Z.to_nat N
  /\ length (KeyEDM._profile_dom (KeyEDM.resize N st)) = Z.to_nat N.
Proof.
  rewrite KeyEDM_resize_fields. cbv zeta.
  cbn [KeyEDM._profile_doM KeyEDM._profile_dom].
  rewrite !length_interpolateAll, !length_vresize. split; reflexivity.
Qed.

Lemma Key2_resize_lengths (N : Z) (st : Key2.State) :
  length (Key2._profile_doM (Key2.resize N st)) = Z.to_nat N
  /\ length (Key2._profile_dom (Key2.resize N st)) = Z.to_nat N
  /\ length (Key2._profile_doO (Key2.resize N st)) = Z.to_nat N.
Proof.
  rewrite Key2_resize_fields. cbv zeta.
  cbn [Key2._profile_doM Key2._profile_dom Key2._profile_doO].
  rewrite !length_interpolateAll, !length_vresize. repeat split; reflexivity.
Qed.

(** The test on the cached size: after it the minor profile has the size
    of the PCP, and a PCP of that size passes it without a resize. *)
Lemma KeyEDM_prepared_length (st : KeyEDM.State) (pcp : list Real) :
  length (KeyEDM._profile_dom (KeyEDM.prepared st pcp)) = length pcp.
Proof.
  unfold KeyEDM.prepared.
  destruct (Z.of_nat (length pcp) =? Z.of_nat (length (KeyEDM._profile_dom st)))
    eqn:E; cbn [negb].
  - apply Z.eqb_eq in E. lia.
  - destruct (KeyEDM_resize_lengths (Z.of_nat (length pcp)) st) as [_ ->].
    apply Nat2Z.id.
Qed.

Lemma Key2_prepared_length (st : Key2.State) (pcp : list Real) :
  length (Key2._profile_dom (Key2.prepared st pcp)) = length pcp.
Proof.
  unfold Key2.prepared.
  destruct (Z.of_nat (length pcp) =? Z.of_nat (length (Key2._profile_dom st)))
    eqn:E; cbn [negb].
  - apply Z.eqb_eq in E. lia.
  - destruct (Key2_resize_lengths (Z.of_nat (length pcp)) st) as (_ & -> & _).
    apply Nat2Z.id.
Qed.

Lemma KeyEDM_prepared_idem (st : KeyEDM.State) (pcp pcp' : list Real) :
  length pcp' = length pcp ->
  KeyEDM.prepared (KeyEDM.prepared st pcp) pcp' = KeyEDM.prepared st pcp.
Proof.
  intros Hlen. unfold KeyEDM.prepared at 1.
  rewrite KeyEDM_prepared_length, Hlen, Z.eqb_refl. reflexivity.
Qed.

Lemma Key2_prepared_idem (st : Key2.State) (pcp pcp' : list Real) :
  length pcp' = length pcp ->
  Key2.prepared (Key2.prepared st pcp) pcp' = Key2.prepared st pcp.
Proof.
  intros Hlen. unfold Key2.prepared at 1.
  rewrite Key2_prepared_length, Hlen, Z.eqb_refl. reflexivity.
Qed.

(** [compute] reads the object only after the test on the cached size. *)
Lemma KeyEDM_compute_prepared (st st' : KeyEDM.State) (pcp : list Real) :
  validSize (Z.of_nat (length pcp)) ->
  KeyEDM.prepared st pcp = KeyEDM.prepared st' pcp ->
  KeyEDM.compute st pcp = KeyEDM.compute st' pcp.
Proof.
  intros Hvalid Hprep.
  rewrite !KeyEDM_compute_valid by assumption.
  unfold KeyEDM.chosen, KeyEDM.report, KeyEDM.peakOf, KeyEDM.peaks.
  rewrite Hprep. reflexivity.
Qed.

Lemma Key2_compute_prepared (st st' : Key2.State) (pcp : list Real) :
  validSize (Z.of_nat (length pcp)) ->
  Key2.prepared st pcp = Key2.prepared st' pcp ->
  Key2.compute st pcp = Key2.compute st' pcp.
Proof.
  intros Hvalid Hprep.
  rewrite !Key2_compute_valid by assumption.
  unfold Key2.chosen, Key2.report, Key2.peakOf, Key2.peaks.
  rewrite Hprep. reflexivity.
Qed.

(** After a [resize] to any size, the test on the cached size leaves the
    profiles interpolated at the size of the PCP. *)
Lemma KeyEDM_prepared_resize (h : Z) (st : KeyEDM.State) (pcp : list Real) :
  validSize (Z.of_nat (length pcp)) ->
  KeyEDM.prepared (KeyEDM.resize h st) pcp
  = KeyEDM.resize (Z.of_nat (length pcp)) st.
Proof.
  intros Hvalid. destruct (validSize_multiple _ Hvalid) as (n & Hn & HN).
  unfold KeyEDM.prepared.
  destruct (KeyEDM_resize_lengths h st) as [_ Hlen]. rewrite Hlen, HN.
  destruct (12 * n =? Z.of_nat (Z.to_nat h)) eqn:E; cbn [negb].
  - apply Z.eqb_eq in E.
    assert (Hh : h = 12 * n) by lia. rewrite Hh. reflexivity.
  - apply KeyEDM_resize_overwrites; auto;
      rewrite KeyEDM_resize_fields; reflexivity.
Qed.

Lemma Key2_prepared_resize (h : Z) (st : Key2.State) (pcp : list Real) :
  validSize (Z.of_nat (length pcp)) ->
  Key2.prepared (Key2.resize h st) pcp
  = Key2.resize (Z.of_nat (length pcp)) st.
Proof.
  intros Hvalid. destruct (validSize_multiple _ Hvalid) as (n & Hn & HN).
  unfold Key2.prepared.
  destruct (Key2_resize_lengths h st) as (_ & Hlen & _). rewrite Hlen, HN.
  destruct (12 * n =? Z.of_nat (Z.to_nat h)) eqn:E; cbn [negb].
  - apply Z.eqb_eq in E.
    assert (Hh : h = 12 * n) by lia. rewrite Hh. reflexivity.
  - apply Key2_resize_overwrites; auto;
      rewrite Key2_resize_fields; reflexivity.
Qed.

(** What a successful [configure] is: the object is resized from one that
    holds the templates of the profile type and the key names; the
    templates depend on the profile type alone. *)
Lemma KeyEDM_configure_inv (st s : KeyEDM.State) (profileType : string)
      (pcpSize : Z) :
  KeyEDM.configure st profileType pcpSize = Ok s ->
  exists x : KeyEDM.State,
    s = KeyEDM.resize pcpSize x
    /\ length (KeyEDM._M x) = 12%nat /\ length (KeyEDM._m x) = 12%nat
    /\ KeyEDM._keys x = keyNames /\ KeyEDM._profileType x = profileType
    /\ forall (st' : KeyEDM.State) (h : Z),
         exists x' : KeyEDM.State,
           KeyEDM.configure st' profileType h = Ok (KeyEDM.resize h x')
           /\ KeyEDM._M x' = KeyEDM._M x /\ KeyEDM._m x' = KeyEDM._m x
           /\ KeyEDM._profileType x' = KeyEDM._profileType x
           /\ KeyEDM._keys x' = KeyEDM._keys x.
Proof.
  unfold KeyEDM.configure.
  repeat match goal with
         | |- (if ?b then _ else _) = _ -> _ => destruct b
         end;
    try discriminate;
    intros Hs; injection Hs as <-;
    (eexists; split; [reflexivity|]);
    (split; [reflexivity|]); (split; [reflexivity|]);
    (split; [reflexivity|]); (split; [reflexivity|]);
    intros st' h; eexists; (split; [reflexivity|]);
    repeat split.
Qed.

Lemma Key2_configure_inv (st s : Key2.State) (profileType : string)
      (pcpSize : Z) :
  Key2.configure st profileType pcpSize = Ok s ->
  exists x : Key2.State,
    s = Key2.resize pcpSize x
    /\ length (Key2._M x) = 12%nat /\ length (Key2._m x) = 12%nat
    /\ length (Key2._O x) = 12%nat
    /\ Key2._keys x = keyNames /\ Key2._profileType x = profileType
    /\ forall (st' : Key2.State) (h : Z),
         exists x' : Key2.State,
           Key2.configure st' profileType h = Ok (Key2.resize h x')
           /\ Key2._M x' = Key2._M x /\ Key2._m x' = Key2._m x
           /\ Key2._O x' = Key2._O x
           /\ Key2._profileType x' = Key2._profileType x
           /\ Key2._keys x' = Key2._keys x.
Proof.
  unfold Key2.configure.
  repeat match goal with
         | |- (if ?b then _ else _) = _ -> _ => destruct b
         end;
    try discriminate;
    intros Hs; injection Hs as <-;
    (eexists; split; [reflexivity|]);
    (split; [reflexivity|]); (split; [reflexivity|]);
    (split; [reflexivity|]);
    (split; [reflexivity|]); (split; [reflexivity|]);
    intros st' h; eexists; (split; [reflexivity|]);
    repeat split.
Qed.

(** Two objects configured with one profile type answer alike. *)
Lemma KeyEDM_compute_configured (st st' s s' : KeyEDM.State)
      (profileType : string) (h h' : Z) (pcp : list Real) :
  validSize (Z.of_nat (length pcp)) ->
  KeyEDM.configure st profileType h = Ok s ->
  KeyEDM.configure st' profileType h' = Ok s' ->
  KeyEDM.compute s pcp = KeyEDM.compute s' pcp.
Proof.
  intros Hvalid Hs Hs'.
  destruct (validSize_multiple _ Hvalid) as (n & Hn & HN).
  destruct (KeyEDM_configure_inv _ _ _ _ Hs) as (x & -> & _ & _ & _ & _ & Hx).
  destruct (Hx st' h') as (x' & Hx' & HM & Hm & Ht & Hk).
  rewrite Hx' in Hs'. injection Hs' as <-.
  apply KeyEDM_compute_prepared; [assumption|].
  rewrite !KeyEDM_prepared_resize by assumption. rewrite HN.
  apply KeyEDM_resize_overwrites; auto.
Qed.

Lemma Key2_compute_configured (st st' s s' : Key2.State)
      (profileType : string) (h h' : Z) (pcp : list Real) :
  validSize (Z.of_nat (length pcp)) ->
  Key2.configure st profileType h = Ok s ->
  Key2.configure st' profileType h' = Ok s' ->
  Key2.compute s pcp = Key2.compute s' pcp.
Proof.
  intros Hvalid Hs Hs'.
  destruct (validSize_multiple _ Hvalid) as (n & Hn & HN).
  destruct (Key2_configure_inv _ _ _ _ Hs)
    as (x & -> & _ & _ & _ & _ & _ & Hx).
  destruct (Hx st' h') as (x' & Hx' & HM & Hm & HO & Ht & Hk).
  rewrite Hx' in Hs'. injection Hs' as <-.
  apply Key2_compute_prepared; [assumption|].
  rewrite !Key2_prepared_resize by assumption. rewrite HN.
  apply Key2_resize_overwrites; auto.
Qed.
End CacheFacts.

Section ObjectFacts.
Context {Real : Type} `{RealOps Real}.

(** With one bin to the semitone the loop of [resize] copies the
    template. *)
Lemma interpolateAll_one (T p : list Real) :
  length T = 12%nat -> length p = 12%nat -> interpolateAll T 1 p = T.
Proof.
  intros HT Hp. apply rget_ext.
  - rewrite length_interpolateAll. lia.
  - intros i Hi. rewrite length_interpolateAll, Hp in Hi.
    replace i with (i * 1 + 0) at 1 by lia.
    rewrite interpolateAll_get by lia. reflexivity.
Qed.

Lemma KeyEDM_resize_12 (st : KeyEDM.State) :
  length (KeyEDM._M st) = 12%nat -> length (KeyEDM._m st) = 12%nat ->
  KeyEDM._profile_doM (KeyEDM.resize 12 st) = KeyEDM._M st
  /\ KeyEDM._profile_dom (KeyEDM.resize 12 st) = KeyEDM._m st.
Proof.
  intros HM Hm. rewrite KeyEDM_resize_fields. cbv zeta.
  cbn [KeyEDM._profile_doM KeyEDM._profile_dom].
  change (Z.quot 12 12) with 1.
  split; apply interpolateAll_one; auto; now rewrite length_vresize.
Qed.

Lemma Key2_resize_12 (st : Key2.State) :
  length (Key2._M st) = 12%nat -> length (Key2._m st) = 12%nat ->
  length (Key2._O st) = 12%nat ->
  Key2._profile_doM (Key2.resize 12 st) = Key2._M st
  /\ Key2._profile_dom (Key2.resize 12 st) = Key2._m st
  /\ Key2._profile_doO (Key2.resize 12 st) = Key2._O st.
Proof.
  intros HM Hm HO. rewrite Key2_resize_fields. cbv zeta.
  cbn [Key2._profile_doM Key2._profile_dom Key2._profile_doO].
  change (Z.quot 12 12) with 1.
  repeat split; apply interpolateAll_one; auto; now rewrite length_vresize.
Qed.

Lemma KeyEDM_resize_templates (N : Z) (st : KeyEDM.State) :
  KeyEDM._M (KeyEDM.resize N st) = KeyEDM._M st
  /\ KeyEDM._m (KeyEDM.resize N st) = KeyEDM._m st
  /\ KeyEDM._profileType (KeyEDM.resize N st) = KeyEDM._profileType st.
Proof. rewrite KeyEDM_resize_fields. repeat split. Qed.

Lemma Key2_resize_templates (N : Z) (st : Key2.State) :
  Key2._M (Key2.resize N st) = Key2._M st
  /\ Key2._m (Key2.resize N st) = Key2._m st
  /\ Key2._O (Key2.resize N st) = Key2._O st
  /\ Key2._profileType (Key2.resize N st) = Key2._profileType st.
Proof. rewrite Key2_resize_fields. repeat split. Qed.

Lemma KeyEDM_resize_Coherent (N : Z) (st : KeyEDM.State) :
  0 <= N ->
  length (KeyEDM._M st) = 12%nat -> length (KeyEDM._m st) = 12%nat ->
  KeyEDM._keys st = keyNames ->
  KeyEDM_Coherent (KeyEDM.resize N st).
Proof.
  intros HN HM Hm Hk. unfold KeyEDM_Coherent, Cached.
  destruct (KeyEDM_resize_lengths N st) as [LM Lm]. rewrite LM, Lm.
  rewrite KeyEDM_resize_keys.
  destruct (KeyEDM_resize_templates N st) as (-> & -> & _).
  rewrite Z2Nat.id by assumption.
  rewrite KeyEDM_resize_fields. cbv zeta. repeat split; assumption.
Qed.

Lemma Key2_resize_Coherent (N : Z) (st : Key2.State) :
  0 <= N ->
  length (Key2._M st) = 12%nat -> length (Key2._m st) = 12%nat ->
  length (Key2._O st) = 12%nat ->
  Key2._keys st = keyNames ->
  Key2_Coherent (Key2.resize N st).
Proof.
  intros HN HM Hm HO Hk. unfold Key2_Coherent, Cached.
  destruct (Key2_resize_lengths N st) as (LM & Lm & LO). rewrite LM, Lm, LO.
  rewrite Key2_resize_keys.
  destruct (Key2_resize_templates N st) as (-> & -> & -> & _).
  rewrite Z2Nat.id by assumption.
  rewrite Key2_resize_fields. cbv zeta. repeat split; assumption.
Qed.

End ObjectFacts.

(** X1: [configure] succeeds on exactly the names its chain of [if]s
    lists, and throws with the name it was given otherwise.  For [Key2]
    these are the names [declareParameters] declares. *)
Theorem configure_accepts_what_its_tests_name {Real : Type} `{RealOps Real}
        (st2 : Key2.State) (stE : KeyEDM.State) (profileType : string)
        (pcpSize : Z) :
  ((exists s, Key2.configure st2 profileType pcpSize = Ok s)
   <-> In profileType Key2.profileTypeRange)
  /\ (Key2.configure st2 profileType pcpSize
      = Err (UnsupportedProfileType profileType)
      <-> ~ In profileType Key2.profileTypeRange)
  /\ ((exists s, KeyEDM.configure stE profileType pcpSize = Ok s)
      <-> In profileType ["temperley"; "shaath"; "edma"; "edmm"]%string)
  /\ (KeyEDM.configure stE profileType pcpSize
      = Err (UnsupportedProfileType profileType)
      <-> ~ In profileType ["temperley"; "shaath"; "edma"; "edmm"]%string)
  /\ (forall s, Key2.configure st2 profileType pcpSize = Ok s ->
                Key2._profileType s = profileType)
  /\ (forall s, KeyEDM.configure stE profileType pcpSize = Ok s ->
                KeyEDM._profileType s = profileType).
Proof.
  destruct (Key2_configure_accepts st2 profileType pcpSize) as [A2 R2].
  destruct (KeyEDM_configure_accepts stE profileType pcpSize) as [AE RE].
  cbv zeta in AE, RE.
  assert (D2 : In profileType Key2.profileTypeRange
               \/ ~ In profileType Key2.profileTypeRange).
  { destruct (in_dec string_dec profileType Key2.profileTypeRange); auto. }
  assert (DE : In profileType ["temperley"; "shaath"; "edma"; "edmm"]%string
               \/ ~ In profileType
                       ["temperley"; "shaath"; "edma"; "edmm"]%string).
  { destruct (in_dec string_dec profileType
                     ["temperley"; "shaath"; "edma"; "edmm"]%string); auto. }
  repeat split.
  - intros [s Hs]. destruct D2 as [|D2]; [assumption|].
    rewrite (R2 D2) in Hs. discriminate.
  - exact A2.
  - intros He Hin. destruct (A2 Hin) as [s Hs]. congruence.
  - exact R2.
  - intros [s Hs]. destruct DE as [|DE]; [assumption|].
    rewrite (RE DE) in Hs. discriminate.
  - exact AE.
  - intros He Hin. destruct (AE Hin) as [s Hs]. congruence.
  - exact RE.
  - intros s Hs.
    destruct (Key2_configure_inv _ _ _ _ Hs)
      as (x & -> & _ & _ & _ & _ & Ht & _).
    rewrite Key2_resize_fields. exact Ht.
  - intros s Hs.
    destruct (KeyEDM_configure_inv _ _ _ _ Hs)
      as (x & -> & _ & _ & _ & Ht & _).
    rewrite KeyEDM_resize_fields. exact Ht.
Qed.

(** X2: the object [configure] builds is coherent, and [compute] keeps it
    so: templates of twelve values, the twelve key names, profiles of one
    length, and beside each profile the mean and the deviation of that
    very profile.  [compute] changes neither the templates nor the names
    nor the profile type. *)
Theorem configure_and_compute_keep_the_object_coherent
        {Real : Type} `{RealOps Real} :
  (forall (st s : Key2.State) profileType pcpSize,
      12 <= pcpSize ->
      Key2.configure st profileType pcpSize = Ok s ->
      Key2_Coherent s
      /\ length (Key2._profile_dom s) = Z.to_nat pcpSize)
  /\ (forall (st : Key2.State) pcp,
         let s := fst (Key2.compute st pcp) in
         (Key2_Coherent st -> Key2_Coherent s)
         /\ Key2._M s = Key2._M st /\ Key2._m s = Key2._m st
         /\ Key2._O s = Key2._O st /\ Key2._keys s = Key2._keys st
         /\ Key2._profileType s = Key2._profileType st)
  /\ (forall (st s : KeyEDM.State) profileType pcpSize,
         12 <= pcpSize ->
         KeyEDM.configure st profileType pcpSize = Ok s ->
         KeyEDM_Coherent s
         /\ length (KeyEDM._profile_dom s) = Z.to_nat pcpSize)
  /\ (forall (st : KeyEDM.State) pcp,
         let s := fst (KeyEDM.compute st pcp) in
         (KeyEDM_Coherent st -> KeyEDM_Coherent s)
         /\ KeyEDM._M s = KeyEDM._M st /\ KeyEDM._m s = KeyEDM._m st
         /\ KeyEDM._keys s = KeyEDM._keys st
         /\ KeyEDM._profileType s = KeyEDM._profileType st).
Proof.
  split; [|split; [|split]].
  - intros st s tp h Hh Hs.
    destruct (Key2_configure_inv _ _ _ _ Hs)
      as (x & -> & HM & Hm & HO & Hk & _).
    split.
    + apply Key2_resize_Coherent; auto; lia.
    + apply (proj1 (proj2 (Key2_resize_lengths _ _))).
  - intros st pcp. cbv zeta.
    assert (Hs : fst (Key2.compute st pcp) = st
                 \/ fst (Key2.compute st pcp)
                    = Key2.resize (Z.of_nat (length pcp)) st).
    { unfold Key2.compute.
      destruct ((Z.of_nat (length pcp) <? 12)
                || negb (Z.rem (Z.of_nat (length pcp)) 12 =? 0));
        [left; reflexivity|].
      destruct (negb (Z.of_nat (length pcp)
                      =? Z.of_nat (length (Key2._profile_dom st))));
        [right|left];
        repeat match goal with
               | |- context [let '(_, _) := ?p in _] => destruct p
               | |- context [if ?b then _ else _] => destruct b
               end; reflexivity. }
    destruct Hs as [Hs|Hs]; rewrite Hs; [split; [auto | repeat split]|].
    destruct (Key2_resize_templates (Z.of_nat (length pcp)) st)
      as (-> & -> & -> & ->).
    rewrite Key2_resize_keys. split; [|repeat split].
    intros (HM & Hm & HO & Hk & _).
    apply Key2_resize_Coherent; auto; lia.
  - intros st s tp h Hh Hs.
    destruct (KeyEDM_configure_inv _ _ _ _ Hs)
      as (x & -> & HM & Hm & Hk & _).
    split.
    + apply KeyEDM_resize_Coherent; auto; lia.
    + apply (proj2 (KeyEDM_resize_lengths _ _)).
  - intros st pcp. cbv zeta.
    assert (Hs : fst (KeyEDM.compute st pcp) = st
                 \/ fst (KeyEDM.compute st pcp)
                    = KeyEDM.resize (Z.of_nat (length pcp)) st).
    { unfold KeyEDM.compute.
      destruct ((Z.of_nat (length pcp) <? 12)
                || negb (Z.rem (Z.of_nat (length pcp)) 12 =? 0));
        [left; reflexivity|].
      destruct (negb (Z.of_nat (length pcp)
                      =? Z.of_nat (length (KeyEDM._profile_dom st))));
        [right|left];
        repeat match goal with
               | |- context [let '(_, _) := ?p in _] => destruct p
               | |- context [if ?b then _ else _] => destruct b
               end; reflexivity. }
    destruct Hs as [Hs|Hs]; rewrite Hs; [split; [auto | repeat split]|].
    destruct (KeyEDM_resize_templates (Z.of_nat (length pcp)) st)
      as (-> & -> & ->).
    rewrite KeyEDM_resize_keys. split; [|repeat split].
    intros (HM & Hm & Hk & _).
    apply KeyEDM_resize_Coherent; auto; lia.
Qed.

(** X3: [configure] with a [pcpSize] that is a multiple of twelve leaves
    nothing of the object it was called on: whatever the profiles, means
    and deviations were before, the object it builds is the same, and so
    is the exception it throws. *)
Theorem configure_forgets_the_previous_object {Real : Type} `{RealOps Real}
        (st2 st2' : Key2.State) (stE stE' : KeyEDM.State)
        (profileType : string) (n : Z) :
  1 <= n ->
  Key2.configure st2 profileType (12 * n)
  = Key2.configure st2' profileType (12 * n)
  /\ KeyEDM.configure stE profileType (12 * n)
     = KeyEDM.configure stE' profileType (12 * n).
Proof.
  intros Hn. split.
  - destruct (Key2.configure st2 profileType (12 * n)) as [s|e] eqn:Hs.
    + destruct (Key2_configure_inv _ _ _ _ Hs)
        as (x & -> & _ & _ & _ & _ & _ & Hx).
      destruct (Hx st2' (12 * n)) as (x' & -> & HM & Hm & HO & Ht & Hk).
      f_equal. symmetry. now apply Key2_resize_overwrites.
    + destruct (Key2_configure_accepts st2 profileType (12 * n)) as [A R].
      destruct (Key2_configure_accepts st2' profileType (12 * n))
        as [_ R'].
      destruct (in_dec string_dec profileType Key2.profileTypeRange)
        as [Hin|Hout].
      * destruct (A Hin) as [s Hs']. congruence.
      * rewrite <- Hs, (R Hout), (R' Hout). reflexivity.
  - destruct (KeyEDM.configure stE profileType (12 * n)) as [s|e] eqn:Hs.
    + destruct (KeyEDM_configure_inv _ _ _ _ Hs)
        as (x & -> & _ & _ & _ & _ & Hx).
      destruct (Hx stE' (12 * n)) as (x' & -> & HM & Hm & Ht & Hk).
      f_equal. symmetry. now apply KeyEDM_resize_overwrites.
    + destruct (KeyEDM_configure_accepts stE profileType (12 * n))
        as [A R].
      destruct (KeyEDM_configure_accepts stE' profileType (12 * n))
        as [_ R'].
      cbv zeta in A, R, R'.
      destruct (in_dec string_dec profileType
                       ["temperley"; "shaath"; "edma"; "edmm"]%string)
        as [Hin|Hout].
      * destruct (A Hin) as [s Hs']. congruence.
      * rewrite <- Hs, (R Hout), (R' Hout). reflexivity.
Qed.

Lemma configure_forgets_the_previous_object_witness :
  1 <= 3
  /\ KeyEDM.configure (KeyEDM_configured (Real := spec_float) "edmm" 24)
                      "edma" (12 * 3)
     = KeyEDM.configure KeyEDM.fresh "edma" (12 * 3).
Proof.
  assert (Hn : 1 <= 3) by lia.
  split; [exact Hn|].
  destruct (configure_forgets_the_previous_object (Real := spec_float)
              Key2.fresh Key2.fresh
              (KeyEDM_configured "edmm" 24) KeyEDM.fresh "edma" 3 Hn)
    as (_ & W).
  exact W.
Defined.

(** X4: [pcpSize] is only a hint.  Two objects configured with the same
    profile type, whatever [pcpSize] each was given and whatever each held
    before, give on a PCP of a valid size the same four outputs and are
    left the same by [compute]. *)
Theorem pcpSize_is_only_a_hint {Real : Type} `{RealOps Real}
        (st2 st2' s2 s2' : Key2.State) (stE stE' sE sE' : KeyEDM.State)
        (type2 typeE : string) (pcpSize pcpSize' : Z) (pcp : list Real) :
  12 <= pcpSize -> 12 <= pcpSize' ->
  validSize (Z.of_nat (length pcp)) ->
  Key2.configure st2 type2 pcpSize = Ok s2 ->
  Key2.configure st2' type2 pcpSize' = Ok s2' ->
  KeyEDM.configure stE typeE pcpSize = Ok sE ->
  KeyEDM.configure stE' typeE pcpSize' = Ok sE' ->
  Key2.compute s2 pcp = Key2.compute s2' pcp
  /\ KeyEDM.compute sE pcp = KeyEDM.compute sE' pcp.
Proof.
  intros _ _ Hvalid H2 H2' HE HE'. split.
  - exact (Key2_compute_configured _ _ _ _ _ _ _ _ Hvalid H2 H2').
  - exact (KeyEDM_compute_configured _ _ _ _ _ _ _ _ Hvalid HE HE').
Qed.

Lemma pcpSize_is_only_a_hint_witness :
  KeyEDM.compute (KeyEDM_configured (Real := spec_float) "edma" 36) unitPCP
  = KeyEDM.compute (KeyEDM_configured "edma" 12) unitPCP.
Proof.
  assert (Hvalid : validSize (Z.of_nat (length unitPCP)))
    by (split; [cbn; lia | reflexivity]).
  assert (H2 : Key2.configure Key2.fresh "bmtg2" 36
               = Ok (Key2_configured (Real := spec_float) "bmtg2" 36))
    by (vm_compute; reflexivity).
  assert (H2' : Key2.configure Key2.fresh "bmtg2" 12
                = Ok (Key2_configured (Real := spec_float) "bmtg2" 12))
    by (vm_compute; reflexivity).
  assert (HE : KeyEDM.configure KeyEDM.fresh "edma" 36
               = Ok (KeyEDM_configured (Real := spec_float) "edma" 36))
    by (vm_compute; reflexivity).
  assert (HE' : KeyEDM.configure KeyEDM.fresh "edma" 12
                = Ok (KeyEDM_configured (Real := spec_float) "edma" 12))
    by (vm_compute; reflexivity).
  assert (Hh : 12 <= 36) by lia.
  assert (Hh' : 12 <= 12) by lia.
  destruct (pcpSize_is_only_a_hint (Real := spec_float)
              Key2.fresh Key2.fresh
              (Key2_configured "bmtg2" 36) (Key2_configured "bmtg2" 12)
              KeyEDM.fresh KeyEDM.fresh
              (KeyEDM_configured "edma" 36) (KeyEDM_configured "edma" 12)
              "bmtg2" "edma" 36 12 unitPCP Hh Hh' Hvalid H2 H2' HE HE')
    as (_ & W).
  exact W.
Defined.

(** X5: [compute] caches the interpolated profiles.  After a call on a PCP
    of a valid size the minor profile has the size of that PCP; a further
    call on a PCP of the same size leaves the object as it is; and the
    call repeated on the same PCP gives the same outputs. *)
Theorem compute_caches_the_profiles {Real : Type} `{RealOps Real}
        (st2 : Key2.State) (stE : KeyEDM.State) (pcp pcp' : list Real) :
  validSize (Z.of_nat (length pcp)) ->
  length pcp' = length pcp ->
  let s2 := fst (Key2.compute st2 pcp) in
  let sE := fst (KeyEDM.compute stE pcp) in
  (length (Key2._profile_dom s2) = length pcp
   /\ fst (Key2.compute s2 pcp') = s2
   /\ Key2.compute s2 pcp = Key2.compute st2 pcp)
  /\ (length (KeyEDM._profile_dom sE) = length pcp
      /\ fst (KeyEDM.compute sE pcp') = sE
      /\ KeyEDM.compute sE pcp = KeyEDM.compute stE pcp).
Proof.
  intros Hvalid Hlen. cbv zeta.
  assert (Hvalid' : validSize (Z.of_nat (length pcp')))
    by now rewrite Hlen.
  rewrite (Key2_compute_valid st2 pcp Hvalid),
          (KeyEDM_compute_valid stE pcp Hvalid).
  cbn [fst]. split; split.
  - apply Key2_prepared_length.
  - split.
    + rewrite (Key2_compute_valid _ pcp' Hvalid'). cbn [fst].
      now apply Key2_prepared_idem.
    + rewrite <- (Key2_compute_valid st2 pcp Hvalid).
      apply Key2_compute_prepared; [assumption|].
      now apply Key2_prepared_idem.
  - apply KeyEDM_prepared_length.
  - split.
    + rewrite (KeyEDM_compute_valid _ pcp' Hvalid'). cbn [fst].
      now apply KeyEDM_prepared_idem.
    + rewrite <- (KeyEDM_compute_valid stE pcp Hvalid).
      apply KeyEDM_compute_prepared; [assumption|].
      now apply KeyEDM_prepared_idem.
Qed.

Lemma compute_caches_the_profiles_witness :
  let sE := fst (KeyEDM.compute (KeyEDM_configured "edma" 36) unitPCP) in
  length (KeyEDM._profile_dom sE) = length unitPCP
  /\ fst (KeyEDM.compute sE flatPCP) = sE
  /\ KeyEDM.compute sE unitPCP
     = KeyEDM.compute (KeyEDM_configured "edma" 36) unitPCP.
Proof.
  assert (Hvalid : validSize (Z.of_nat (length unitPCP)))
    by (split; [cbn; lia | reflexivity]).
  destruct (compute_caches_the_profiles (Real := spec_float)
              (Key2_configured "bmtg2" 36) (KeyEDM_configured "edma" 36)
              unitPCP flatPCP Hvalid eq_refl)
    as (_ & W).
  exact W.
Defined.

(** X6: with twelve bins nothing is interpolated.  After [configure] with
    [pcpSize = 12], and after [compute] on a PCP of twelve values whatever
    [pcpSize] was, the profiles the PCP is correlated with are the
    templates of the table, value for value. *)
Theorem twelve_bins_use_the_templates {Real : Type} `{RealOps Real}
        (st2 s2 : Key2.State) (stE sE : KeyEDM.State)
        (type2 typeE : string) (pcpSize : Z) (pcp : list Real) :
  length pcp = 12%nat ->
  Key2.configure st2 type2 pcpSize = Ok s2 ->
  KeyEDM.configure stE typeE pcpSize = Ok sE ->
  let s2' := fst (Key2.compute s2 pcp) in
  let sE' := fst (KeyEDM.compute sE pcp) in
  (Key2._profile_doM s2' = Key2._M s2
   /\ Key2._profile_dom s2' = Key2._m s2
   /\ Key2._profile_doO s2' = Key2._O s2)
  /\ (KeyEDM._profile_doM sE' = KeyEDM._M sE
      /\ KeyEDM._profile_dom sE' = KeyEDM._m sE)
  /\ (pcpSize = 12 ->
      (Key2._profile_doM s2 = Key2._M s2
       /\ Key2._profile_dom s2 = Key2._m s2
       /\ Key2._profile_doO s2 = Key2._O s2)
      /\ (KeyEDM._profile_doM sE = KeyEDM._M sE
          /\ KeyEDM._profile_dom sE = KeyEDM._m sE)).
Proof.
  intros Hlen H2 HE. cbv zeta.
  assert (Hvalid : validSize (Z.of_nat (length pcp)))
    by (rewrite Hlen; split; [cbn; lia | reflexivity]).
  destruct (Key2_configure_inv _ _ _ _ H2)
    as (x & -> & HM & Hm & HO & _).
  destruct (KeyEDM_configure_inv _ _ _ _ HE) as (y & -> & HyM & Hym & _).
  rewrite (Key2_compute_valid _ pcp Hvalid),
          (KeyEDM_compute_valid _ pcp Hvalid). cbn [fst].
  rewrite Key2_prepared_resize, KeyEDM_prepared_resize by assumption.
  rewrite Hlen. change (Z.of_nat 12) with 12.
  destruct (Key2_resize_templates pcpSize x) as (-> & -> & -> & _).
  destruct (KeyEDM_resize_templates pcpSize y) as (-> & -> & _).
  pose proof (Key2_resize_12 x HM Hm HO) as R2.
  pose proof (KeyEDM_resize_12 y HyM Hym) as RE.
  split; [exact R2|]. split; [exact RE|].
  intros ->. split; assumption.
Qed.

Lemma twelve_bins_use_the_templates_witness :
  KeyEDM._profile_doM
    (fst (KeyEDM.compute (KeyEDM_configured (Real := spec_float) "edma" 36)
                         unitPCP))
  = KeyEDM._M (KeyEDM_configured "edma" 36).
Proof.
  assert (H2 : Key2.configure Key2.fresh "bmtg2" 36
               = Ok (Key2_configured (Real := spec_float) "bmtg2" 36))
    by (vm_compute; reflexivity).
  assert (HE : KeyEDM.configure KeyEDM.fresh "edma" 36
               = Ok (KeyEDM_configured (Real := spec_float) "edma" 36))
    by (vm_compute; reflexivity).
  destruct (twelve_bins_use_the_templates (Real := spec_float)
              Key2.fresh (Key2_configured "bmtg2" 36)
              KeyEDM.fresh (KeyEDM_configured "edma" 36)
              "bmtg2" "edma" 36 unitPCP eq_refl H2 HE)
    as (_ & (W & _) & _).
  exact W.
Defined.

(** X7: the streaming [process].  Until the scheduler asks to stop it
    passes, pushes nothing and leaves the wrapped algorithm alone.  When
    it runs, it configures the wrapped algorithm with a fixed profile type
    ("bmtg2" in [Key2], "edma" in [KeyEDM]): whatever the wrapped
    algorithm was configured with and whatever its [pcpSize], the tokens
    pushed are the key, the scale and the strength that the algorithm of
    that fixed profile type computes on the averaged PCP, and an
    exception of that [compute] leaves [process]. *)
Theorem streaming_process_fixes_the_profile_type
        {Real : Type} `{RealOps Real}
        (algo2 : Key2.State) (algoE : KeyEDM.State) (pcpSize : Z)
        (hpcpAverage : list Real) :
  12 <= pcpSize ->
  (Key2.process algo2 pcpSize false hpcpAverage = (algo2, Ok (PASS, None))
   /\ snd (Key2.process algo2 pcpSize true hpcpAverage)
      = match snd (Key2.compute (Key2_configured "bmtg2" 36) hpcpAverage)
        with
        | Ok out =>
            Ok (FINISHED,
                Some (mkPushed (key out) (scale out) (strength out)))
        | Err e => Err e
        end)
  /\ (KeyEDM.process algoE pcpSize false hpcpAverage
      = (algoE, Ok (PASS, None))
      /\ snd (KeyEDM.process algoE pcpSize true hpcpAverage)
         = match snd (KeyEDM.compute (KeyEDM_configured "edma" 36)
                                     hpcpAverage)
           with
           | Ok out =>
               Ok (FINISHED,
                   Some (mkPushed (key out) (scale out) (strength out)))
           | Err e => Err e
           end).
Proof.
  intros _.
  assert (D : validSize (Z.of_nat (length hpcpAverage))
              \/ ~ validSize (Z.of_nat (length hpcpAverage))).
  { unfold validSize.
    destruct (Z_le_dec 12 (Z.of_nat (length hpcpAverage)));
      destruct (Z.eq_dec (Z.of_nat (length hpcpAverage) mod 12) 0); tauto. }
  split; (split; [reflexivity|]).
  - unfold Key2.process. cbn [negb].
    destruct (Key2.configure algo2 "bmtg2" pcpSize) as [s|e] eqn:Hs;
      [|discriminate Hs].
    assert (Hc : snd (Key2.compute s hpcpAverage)
                 = snd (Key2.compute (Key2_configured "bmtg2" 36)
                                     hpcpAverage)).
    { destruct D as [Hvalid|Hinvalid].
      - f_equal.
        apply (Key2_compute_configured algo2 Key2.fresh _ _ "bmtg2"
                 pcpSize 36 _ Hvalid Hs).
        reflexivity.
      - rewrite !Key2_compute_invalid by assumption. reflexivity. }
    rewrite <- Hc.
    destruct (Key2.compute s hpcpAverage) as [a [out|e]]; reflexivity.
  - unfold KeyEDM.process. cbn [negb].
    destruct (KeyEDM.configure algoE "edma" pcpSize) as [s|e] eqn:Hs;
      [|discriminate Hs].
    assert (Hc : snd (KeyEDM.compute s hpcpAverage)
                 = snd (KeyEDM.compute (KeyEDM_configured "edma" 36)
                                       hpcpAverage)).
    { destruct D as [Hvalid|Hinvalid].
      - f_equal.
        apply (KeyEDM_compute_configured algoE KeyEDM.fresh _ _ "edma"
                 pcpSize 36 _ Hvalid Hs).
        reflexivity.
      - rewrite !KeyEDM_compute_invalid by assumption. reflexivity. }
    rewrite <- Hc.
    destruct (KeyEDM.compute s hpcpAverage) as [a [out|e]]; reflexivity.
Qed.

Lemma streaming_process_fixes_the_profile_type_witness :
  snd (KeyEDM.process (KeyEDM_configured (Real := spec_float) "edmm" 24)
                      24 true unitPCP)
  = match snd (KeyEDM.compute (KeyEDM_configured "edma" 36) unitPCP) with
    | Ok out =>
        Ok (FINISHED, Some (mkPushed (key out) (scale out) (strength out)))
    | Err e => Err e
    end.
Proof.
  assert (Hrange : 12 <= 24) by lia.
  destruct (streaming_process_fixes_the_profile_type (Real := spec_float)
              (Key2_configured "edma" 24) (KeyEDM_configured "edmm" 24)
              24 unitPCP Hrange)
    as (_ & _ & W).
  exact W.
Defined.

(** ** The strength reported *)

Section StrengthFacts.
Context {Real : Type} {ops : RealOps Real} {ok : Real -> Prop}
        {laws : RealOrder ops ok}.

(** A value at least the maximum of a mode is at least each of its
    scores. *)
Lemma scan_dominated (score : Z -> Real) (N : nat) (x : Real) (s : Z) :
  (forall s, 0 <= s < Z.of_nat N -> ok (score s)) ->
  ok x ->
  rgeb x (pmax (scan score (Z.of_nat N))) = true ->
  0 <= s < Z.of_nat N ->
  rgeb x (score s) = true.
Proof.
  intros Hok Hx Hge Hs.
  destruct (scan_Tracked score N Hok) as (_ & _ & Hall & _).
  pose proof (scan_pmax_ok score N Hok) as Hp.
  apply (rgeb_trans x (pmax (scan score (Z.of_nat N))) (score s)); auto.
Qed.

(** The maximum of a mode is the initial [-1] or one of its scores. *)
Lemma scan_attained (score : Z -> Real) (N : nat) :
  pmax (scan score (Z.of_nat N)) = rof_int (-1)
  \/ exists s, 0 <= s < Z.of_nat N
               /\ pmax (scan score (Z.of_nat N)) = score s.
Proof.
  destruct (scan_structure score N) as [(_ & Hm & _)|(Hi & Hm & _)].
  - left. exact Hm.
  - right. eexists. split; [exact Hi | exact Hm].
Qed.
End StrengthFacts.

(** X8: the strength reported is the highest score of the search.  When the
    scores are comparable, the strength [compute] returns is at least the
    score of every shift in every mode and at least the initial [-1], and
    it is that [-1] or the score of some shift in some mode. *)
Theorem strength_is_the_highest_score
        {Real : Type} {ops : RealOps Real} {ok : Real -> Prop}
        {laws : RealOrder ops ok}
        (st2 : Key2.State) (stE : KeyEDM.State) (pcp : list Real)
        (out2 outE : Output) :
  let N := Z.of_nat (length pcp) in
  (forall sc s, 0 <= s < N -> ok (Key2.score st2 pcp sc s)) ->
  (forall sc s, 0 <= s < N -> ok (KeyEDM.score stE pcp sc s)) ->
  snd (Key2.compute st2 pcp) = Ok out2 ->
  snd (KeyEDM.compute stE pcp) = Ok outE ->
  (rgeb (strength out2) (rof_int (-1)) = true
   /\ (forall sc s, 0 <= s < N ->
         rgeb (strength out2) (Key2.score st2 pcp sc s) = true)
   /\ (strength out2 = rof_int (-1)
       \/ exists sc s, 0 <= s < N
                       /\ strength out2 = Key2.score st2 pcp sc s))
  /\ (rgeb (strength outE) (rof_int (-1)) = true
      /\ (forall sc s, 0 <= s < N ->
            rgeb (strength outE) (KeyEDM.score stE pcp sc s) = true)
      /\ (strength outE = rof_int (-1)
          \/ exists sc s, 0 <= s < N
                          /\ strength outE = KeyEDM.score stE pcp sc s)).
Proof.
  intros N Hok2 HokE Hout2 HoutE.
  assert (Hvalid : validSize N).
  { destruct (Z_le_dec 12 N) as [Hn|Hn];
      [destruct (Z.eq_dec (N mod 12) 0) as [Hm|Hm];
       [split; assumption|]|];
      rewrite KeyEDM_compute_invalid in HoutE;
      try discriminate; unfold validSize; fold N; tauto. }
  split.
  - rewrite (Key2_compute_valid st2 pcp Hvalid) in Hout2. cbn [snd] in Hout2.
    pose proof (Key2_chosen_cases st2 pcp Hvalid) as Hc. cbv zeta in Hc.
    assert (Hp : forall sc, ok (pmax (Key2.peakOf st2 pcp sc))).
    { intros sc. rewrite Key2_peakOf_scan. apply scan_pmax_ok.
      intros s Hs. now apply Hok2. }
    assert (Hdom : forall sc0,
               (forall sc, rgeb (pmax (Key2.peakOf st2 pcp sc0))
                                (pmax (Key2.peakOf st2 pcp sc)) = true) ->
               rgeb (pmax (Key2.peakOf st2 pcp sc0)) (rof_int (-1)) = true
               /\ (forall sc s, 0 <= s < N ->
                     rgeb (pmax (Key2.peakOf st2 pcp sc0))
                          (Key2.score st2 pcp sc s) = true)
               /\ (pmax (Key2.peakOf st2 pcp sc0) = rof_int (-1)
                   \/ exists sc s, 0 <= s < N
                        /\ pmax (Key2.peakOf st2 pcp sc0)
                           = Key2.score st2 pcp sc s)).
    { intros sc0 Hge. split; [|split].
      - rewrite Key2_peakOf_scan.
        now destruct (scan_Tracked (Key2.score st2 pcp sc0) (length pcp)
                        (Hok2 sc0)) as (_ & ? & _).
      - intros sc s Hs.
        apply (scan_dominated (Key2.score st2 pcp sc) (length pcp));
          auto.
        rewrite <- Key2_peakOf_scan. apply Hge.
      - rewrite Key2_peakOf_scan.
        destruct (scan_attained (Key2.score st2 pcp sc0) (length pcp))
          as [?|(s & ? & ?)]; [left; assumption|].
        right. exists sc0, s. split; assumption. }
    destruct (rgtb (pmax (Key2.peakOf st2 pcp Key2.MAJOR))
                   (pmax (Key2.peakOf st2 pcp Key2.MINOR))
              && rgtb (pmax (Key2.peakOf st2 pcp Key2.MAJOR))
                      (pmax (Key2.peakOf st2 pcp Key2.OTHER))) eqn:E1.
    { rewrite Hc in Hout2. injection Hout2 as <-. cbn [strength Key2.report].
      apply (Hdom Key2.MAJOR). apply andb_prop in E1 as [A B].
      intros []; [apply rgeb_refl | apply rgtb_true_rgeb
                  | apply rgtb_true_rgeb]; auto. }
    destruct (rgeb (pmax (Key2.peakOf st2 pcp Key2.MINOR))
                   (pmax (Key2.peakOf st2 pcp Key2.MAJOR))
              && rgeb (pmax (Key2.peakOf st2 pcp Key2.MINOR))
                      (pmax (Key2.peakOf st2 pcp Key2.OTHER))) eqn:E2.
    { rewrite Hc in Hout2. injection Hout2 as <-. cbn [strength Key2.report].
      apply (Hdom Key2.MINOR). apply andb_prop in E2 as [A B].
      intros []; [| apply rgeb_refl |]; auto. }
    destruct (rgtb (pmax (Key2.peakOf st2 pcp Key2.OTHER))
                   (pmax (Key2.peakOf st2 pcp Key2.MAJOR))
              && rgtb (pmax (Key2.peakOf st2 pcp Key2.OTHER))
                      (pmax (Key2.peakOf st2 pcp Key2.MINOR))) eqn:E3.
    { rewrite Hc in Hout2. injection Hout2 as <-. cbn [strength Key2.report].
      apply (Hdom Key2.OTHER). apply andb_prop in E3 as [A B].
      intros []; [apply rgtb_true_rgeb | apply rgtb_true_rgeb
                  | apply rgeb_refl]; auto. }
    rewrite Hc in Hout2. discriminate.
  - rewrite (KeyEDM_compute_valid stE pcp Hvalid) in HoutE.
    cbn [snd] in HoutE.
    rewrite (KeyEDM_chosen_cases stE pcp Hvalid) in HoutE.
    assert (Hp : forall sc, ok (pmax (KeyEDM.peakOf stE pcp sc))).
    { intros sc. rewrite KeyEDM_peakOf_scan. apply scan_pmax_ok.
      intros s Hs. now apply HokE. }
    assert (Hdom : forall sc0,
               (forall sc, rgeb (pmax (KeyEDM.peakOf stE pcp sc0))
                                (pmax (KeyEDM.peakOf stE pcp sc)) = true) ->
               rgeb (pmax (KeyEDM.peakOf stE pcp sc0)) (rof_int (-1)) = true
               /\ (forall sc s, 0 <= s < N ->
                     rgeb (pmax (KeyEDM.peakOf stE pcp sc0))
                          (KeyEDM.score stE pcp sc s) = true)
               /\ (pmax (KeyEDM.peakOf stE pcp sc0) = rof_int (-1)
                   \/ exists sc s, 0 <= s < N
                        /\ pmax (KeyEDM.peakOf stE pcp sc0)
                           = KeyEDM.score stE pcp sc s)).
    { intros sc0 Hge. split; [|split].
      - rewrite KeyEDM_peakOf_scan.
        now destruct (scan_Tracked (KeyEDM.score stE pcp sc0) (length pcp)
                        (HokE sc0)) as (_ & ? & _).
      - intros sc s Hs.
        apply (scan_dominated (KeyEDM.score stE pcp sc) (length pcp));
          auto.
        rewrite <- KeyEDM_peakOf_scan. apply Hge.
      - rewrite KeyEDM_peakOf_scan.
        destruct (scan_attained (KeyEDM.score stE pcp sc0) (length pcp))
          as [?|(s & ? & ?)]; [left; assumption|].
        right. exists sc0, s. split; assumption. }
    destruct (rgeb (pmax (KeyEDM.peakOf stE pcp KeyEDM.MAJOR))
                   (pmax (KeyEDM.peakOf stE pcp KeyEDM.MINOR))) eqn:E.
    + injection HoutE as <-. cbn [strength KeyEDM.report].
      apply (Hdom KeyEDM.MAJOR). intros []; [apply rgeb_refl|]; auto.
    + injection HoutE as <-. cbn [strength KeyEDM.report].
      apply (Hdom KeyEDM.MINOR). intros []; [|apply rgeb_refl]; auto.
      destruct (rgeb_total (pmax (KeyEDM.peakOf stE pcp KeyEDM.MAJOR))
                           (pmax (KeyEDM.peakOf stE pcp KeyEDM.MINOR)));
        auto; congruence.
Qed.

Lemma strength_is_the_highest_score_witness :
  exists out2 outE,
    snd (Key2.compute (Key2_configured "bmtg2" 12) unitPCP) = Ok out2
    /\ snd (KeyEDM.compute (KeyEDM_configured "edma" 12) unitPCP) = Ok outE
    /\ (forall sc s, 0 <= s < 12 ->
          rgeb (strength out2)
               (Key2.score (Key2_configured "bmtg2" 12) unitPCP sc s) = true)
    /\ (forall sc s, 0 <= s < 12 ->
          rgeb (strength outE)
               (KeyEDM.score (KeyEDM_configured "edma" 12) unitPCP sc s)
          = true).
Proof.
  pose (out2 := mkOutput "A" "minor" (S754_finite false 13117925 (-24))
                         (S754_finite false 9558623 (-22))).
  pose (outE := mkOutput "A" "minor" (S754_finite false 12454752 (-24))
                         (S754_finite false 9844255 (-22))).
  assert (Hok2 : forall sc s, 0 <= s < Z.of_nat (length unitPCP) ->
                   comparable (Key2.score (Key2_configured "bmtg2" 12)
                                          unitPCP sc s)).
  { intros sc s Hs.
    destruct sc; twelve_shifts s Hs ltac:(vm_compute; discriminate). }
  assert (HokE : forall sc s, 0 <= s < Z.of_nat (length unitPCP) ->
                   comparable (KeyEDM.score (KeyEDM_configured "edma" 12)
                                            unitPCP sc s)).
  { intros sc s Hs.
    destruct sc; twelve_shifts s Hs ltac:(vm_compute; discriminate). }
  assert (Hout2 : snd (Key2.compute (Key2_configured "bmtg2" 12) unitPCP)
                  = Ok out2) by (vm_compute; reflexivity).
  assert (HoutE : snd (KeyEDM.compute (KeyEDM_configured "edma" 12) unitPCP)
                  = Ok outE) by (vm_compute; reflexivity).
  destruct (strength_is_the_highest_score
              (laws := binary32_order)
              (Key2_configured "bmtg2" 12) (KeyEDM_configured "edma" 12)
              unitPCP out2 outE Hok2 HokE Hout2 HoutE)
    as ((_ & A & _) & (_ & B & _)).
  exists out2, outE. split; [exact Hout2|]. split; [exact HoutE|].
  split; [exact A | exact B].
Defined.

(** ** When no score counts *)

Section NoScore.
Context {Real : Type} {ops : RealOps Real}.

(** No score found greater than the initial [-1]: the loop leaves the
    initial values. *)
Lemma scan_no_score (score : Z -> Real) (N : nat) :
  (forall s, 0 <= s < Z.of_nat N -> rgtb (score s) (rof_int (-1)) = false) ->
  scan score (Z.of_nat N) = peak0.
Proof.
  induction N as [|N IH]; intros Hno; [reflexivity|].
  rewrite scan_succ, IH by (intros s Hs; apply Hno; lia).
  unfold track. cbn [pmax peak0]. now rewrite Hno by lia.
Qed.

Lemma KeyEDM_compute_no_score (st : KeyEDM.State) (pcp : list Real) :
  validSize (Z.of_nat (length pcp)) ->
  rgeb (rof_int (-1)) (rof_int (-1)) = true ->
  (forall sc s, 0 <= s < Z.of_nat (length pcp) ->
                rgtb (KeyEDM.score st pcp sc s) (rof_int (-1)) = false) ->
  snd (KeyEDM.compute st pcp)
  = Ok (mkOutput (nth 0 (KeyEDM._keys st) EmptyString) "major"
                 (rof_int (-1))
                 (rdiv (rsub (rof_int (-1)) (rof_int (-1))) (rof_int (-1)))).
Proof.
  intros Hvalid Hrefl Hno.
  assert (Hp : forall sc, KeyEDM.peakOf st pcp sc = peak0).
  { intros sc. rewrite KeyEDM_peakOf_scan. apply scan_no_score, Hno. }
  rewrite (KeyEDM_compute_valid st pcp Hvalid),
          (KeyEDM_chosen_cases st pcp Hvalid), !Hp.
  cbn [pmax peak0 snd]. rewrite Hrefl. cbv beta iota.
  unfold KeyEDM.report. cbn [pmax pmax2 pindex peak0].
  rewrite keyIndexOf_initial by (destruct Hvalid; assumption).
  rewrite KeyEDM_prepared_keys. reflexivity.
Qed.

Lemma Key2_compute_no_score (st : Key2.State) (pcp : list Real) :
  validSize (Z.of_nat (length pcp)) ->
  rgeb (rof_int (-1)) (rof_int (-1)) = true ->
  rgtb (rof_int (-1)) (rof_int (-1)) = false ->
  (forall sc s, 0 <= s < Z.of_nat (length pcp) ->
                rgtb (Key2.score st pcp sc s) (rof_int (-1)) = false) ->
  snd (Key2.compute st pcp)
  = Ok (mkOutput (nth 0 (Key2._keys st) EmptyString) "minor"
                 (rof_int (-1))
                 (rdiv (rsub (rof_int (-1)) (rof_int (-1))) (rof_int (-1)))).
Proof.
  intros Hvalid Hrefl Hirr Hno.
  assert (Hp : forall sc, Key2.peakOf st pcp sc = peak0).
  { intros sc. rewrite Key2_peakOf_scan. apply scan_no_score, Hno. }
  pose proof (Key2_chosen_cases st pcp Hvalid) as Hc. cbv zeta in Hc.
  rewrite !Hp in Hc. cbn [pmax peak0] in Hc.
  rewrite Hrefl, Hirr in Hc. cbn [andb] in Hc.
  rewrite (Key2_compute_valid st pcp Hvalid), Hc. cbn [snd].
  cbv beta iota. unfold Key2.report. rewrite ?Hp. cbn [pmax pmax2 pindex peak0].
  rewrite keyIndexOf_initial by (destruct Hvalid; assumption).
  rewrite Key2_prepared_keys. reflexivity.
Qed.
End NoScore.

(** X9: when no score is found greater than the initial [-1] (every score
    is NaN, say), [compute] does not fail: the initial index [-1] becomes
    key index 0, and the outputs are the first key name, strength [-1]
    and the relative strength [(-1 - (-1)) / -1], with scale "major" in
    [KeyEDM] and "minor" in [Key2]. *)
Theorem no_score_above_the_initial_value_reports_A
        {Real : Type} {ops : RealOps Real} {ok : Real -> Prop}
        {laws : RealOrder ops ok}
        (st2 : Key2.State) (stE : KeyEDM.State) (pcp : list Real) :
  let N := Z.of_nat (length pcp) in
  let placeholder scale :=
    mkOutput "A" scale (rof_int (-1))
             (rdiv (rsub (rof_int (-1)) (rof_int (-1))) (rof_int (-1))) in
  validSize N ->
  Key2._keys st2 = keyNames ->
  KeyEDM._keys stE = keyNames ->
  (forall sc s, 0 <= s < N ->
                rgtb (Key2.score st2 pcp sc s) (rof_int (-1)) = false) ->
  (forall sc s, 0 <= s < N ->
                rgtb (KeyEDM.score stE pcp sc s) (rof_int (-1)) = false) ->
  snd (Key2.compute st2 pcp) = Ok (placeholder "minor"%string)
  /\ snd (KeyEDM.compute stE pcp) = Ok (placeholder "major"%string).
Proof.
  intros N placeholder Hvalid Hk2 HkE Hno2 HnoE.
  assert (Hrefl : rgeb (rof_int (-1)) (rof_int (-1)) = true)
    by (apply rgeb_refl, ok_initial).
  assert (Hirr : rgtb (rof_int (-1)) (rof_int (-1)) = false).
  { rewrite (rgtb_rgeb _ _ ok_initial ok_initial), Hrefl. reflexivity. }
  split.
  - rewrite (Key2_compute_no_score st2 pcp Hvalid Hrefl Hirr Hno2), Hk2.
    reflexivity.
  - rewrite (KeyEDM_compute_no_score stE pcp Hvalid Hrefl HnoE), HkE.
    reflexivity.
Qed.

Lemma no_score_above_the_initial_value_reports_A_witness :
  snd (Key2.compute (Key2_configured "bmtg2" 12) flatPCP)
  = Ok (mkOutput "A" "minor" (rof_int (-1))
                 (rdiv (rsub (rof_int (-1)) (rof_int (-1))) (rof_int (-1))))
  /\ snd (KeyEDM.compute (KeyEDM_configured "edma" 12) flatPCP)
     = Ok (mkOutput "A" "major" (rof_int (-1))
                    (rdiv (rsub (rof_int (-1)) (rof_int (-1)))
                          (rof_int (-1)))).
Proof.
  assert (Hvalid : validSize (Z.of_nat (length flatPCP)))
    by (split; [cbn; lia | reflexivity]).
  assert (Hk2 : Key2._keys (Key2_configured (Real := spec_float) "bmtg2" 12)
                = keyNames) by (vm_compute; reflexivity).
  assert (HkE : KeyEDM._keys (KeyEDM_configured (Real := spec_float)
                                                "edma" 12)
                = keyNames) by (vm_compute; reflexivity).
  assert (Hno2 : forall sc s, 0 <= s < Z.of_nat (length flatPCP) ->
                   rgtb (Key2.score (Key2_configured "bmtg2" 12)
                                    flatPCP sc s) (rof_int (-1)) = false).
  { intros sc s Hs.
    destruct sc; twelve_shifts s Hs ltac:(vm_compute; reflexivity). }
  assert (HnoE : forall sc s, 0 <= s < Z.of_nat (length flatPCP) ->
                   rgtb (KeyEDM.score (KeyEDM_configured "edma" 12)
                                      flatPCP sc s) (rof_int (-1)) = false).
  { intros sc s Hs.
    destruct sc; twelve_shifts s Hs ltac:(vm_compute; reflexivity). }
  exact (no_score_above_the_initial_value_reports_A
           (laws := binary32_order)
           (Key2_configured "bmtg2" 12) (KeyEDM_configured "edma" 12)
           flatPCP Hvalid Hk2 HkE Hno2 HnoE).
Defined.

(** ** Arithmetic on NaN and on zeros in single precision *)

Lemma radd_nan_r (x : spec_float) : radd x S754_nan = S754_nan.
Proof. destruct x; reflexivity. Qed.

Lemma rsub_nan_r (x : spec_float) : rsub x S754_nan = S754_nan.
Proof. destruct x; reflexivity. Qed.

Lemma rdiv_nan_r (x : spec_float) : rdiv x S754_nan = S754_nan.
Proof. destruct x; reflexivity. Qed.

Lemma rgtb_nan_l (x : spec_float) : rgtb S754_nan x = false.
Proof. destruct x; reflexivity. Qed.

Lemma fold_radd_nan (l : list spec_float) :
  fold_left radd l S754_nan = S754_nan.
Proof. induction l as [|x l IH]; [reflexivity | exact IH]. Qed.

Lemma fold_radd_with_nan (l : list spec_float) (a : spec_float) :
  In S754_nan l -> fold_left radd l a = S754_nan.
Proof.
  revert a. induction l as [|x l IH]; intros a Hin; [destruct Hin|].
  destruct Hin as [Hx|Hl].
  - subst x. cbn [fold_left]. rewrite radd_nan_r. apply fold_radd_nan.
  - cbn [fold_left]. now apply IH.
Qed.

Lemma mean_with_nan (v : list spec_float) :
  In S754_nan v -> mean v = S754_nan.
Proof. intros Hin. unfold mean. now rewrite fold_radd_with_nan. Qed.

Lemma stdSum_nan_mean (v : list spec_float) (N : Z) :
  1 <= N -> stdSum v S754_nan N = S754_nan.
Proof.
  intros HN. unfold stdSum.
  replace N with (N - 1 + 1) by lia.
  rewrite range_snoc by lia. rewrite fold_left_app. cbn [fold_left].
  rewrite rsub_nan_r.
  change (rmul S754_nan S754_nan) with S754_nan.
  now rewrite radd_nan_r.
Qed.

Lemma correlation_nan_std (v1 : list spec_float) (mean1 : spec_float)
      (v2 : list spec_float) (mean2 std2 : spec_float) (shift : Z) :
  correlation v1 mean1 S754_nan v2 mean2 std2 shift = S754_nan.
Proof.
  unfold correlation. cbv zeta.
  change (rmul S754_nan std2) with S754_nan. apply rdiv_nan_r.
Qed.

Lemma zero_or_nan_rzero : zero_or_nan (@rzero spec_float binary32).
Proof. vm_compute. exact I. Qed.

Lemma zero_or_nan_radd (x y : spec_float) :
  zero_or_nan x -> zero_or_nan y -> zero_or_nan (radd x y).
Proof. destruct x as [[]| | |], y as [[]| | |]; cbn; tauto. Qed.

Lemma zero_or_nan_rsub (x y : spec_float) :
  zero_or_nan x -> zero_or_nan y -> zero_or_nan (rsub x y).
Proof. destruct x as [[]| | |], y as [[]| | |]; cbn; tauto. Qed.

Lemma zero_or_nan_rmul (x y : spec_float) :
  zero_or_nan x -> zero_or_nan (rmul x y).
Proof. destruct x as [[]| | |], y as [[]|[]| |[]]; cbn; tauto. Qed.

Lemma zero_or_nan_rdiv (x y : spec_float) :
  zero_or_nan x -> zero_or_nan (rdiv x y).
Proof. destruct x as [[]| | |], y as [[]|[]| |[]]; cbn; tauto. Qed.

Lemma zero_or_nan_rsqrt (x : spec_float) :
  zero_or_nan x -> zero_or_nan (rsqrt x).
Proof. destruct x as [[]| | |]; cbn; tauto. Qed.

Lemma rdiv_zero_or_nan (x y : spec_float) :
  zero_or_nan x -> zero_or_nan y -> rdiv x y = S754_nan.
Proof. destruct x as [[]| | |], y as [[]| | |]; cbn; tauto. Qed.

Section Zeros.
Variable v : list spec_float.
Hypothesis zeros : forall x, In x v -> zero_or_nan x.

Lemma zero_or_nan_rget (i : Z) : zero_or_nan (rget v i).
Proof.
  unfold rget, vget. destruct (i <? 0); [apply zero_or_nan_rzero|].
  destruct (nth_in_or_default (Z.to_nat i) v rzero) as [Hin | ->];
    [now apply zeros | apply zero_or_nan_rzero].
Qed.

Lemma zero_or_nan_mean : zero_or_nan (mean v).
Proof.
  unfold mean. apply zero_or_nan_rdiv.
  assert (G : forall l a, (forall x, In x l -> zero_or_nan x) ->
                          zero_or_nan a -> zero_or_nan (fold_left radd l a)).
  { induction l as [|x l IH]; intros a Hl Ha; [exact Ha|].
    cbn [fold_left]. apply IH.
    - intros y Hy. apply Hl. now right.
    - apply zero_or_nan_radd; [exact Ha | apply Hl; now left]. }
  apply G; [exact zeros | apply zero_or_nan_rzero].
Qed.

Lemma zero_or_nan_stdSum (m : spec_float) (N : Z) :
  zero_or_nan m -> zero_or_nan (stdSum v m N).
Proof.
  intros Hm. unfold stdSum. apply zero_or_nan_rsqrt.
  apply fold_left_invariant; [apply zero_or_nan_rzero|].
  intros s i _ Hs. apply zero_or_nan_radd; [exact Hs|].
  apply zero_or_nan_rmul, zero_or_nan_rsub; [apply zero_or_nan_rget | exact Hm].
Qed.

Lemma correlation_of_zeros (mean1 std1 : spec_float)
      (v2 : list spec_float) (mean2 std2 : spec_float) (shift : Z) :
  zero_or_nan mean1 -> zero_or_nan std1 ->
  correlation v mean1 std1 v2 mean2 std2 shift = S754_nan.
Proof.
  intros Hm Hs. unfold correlation. cbv zeta.
  apply rdiv_zero_or_nan; [|now apply zero_or_nan_rmul].
  apply fold_left_invariant; [apply zero_or_nan_rzero|].
  intros r i _ Hr. apply zero_or_nan_radd; [exact Hr|].
  apply zero_or_nan_rmul, zero_or_nan_rsub; [apply zero_or_nan_rget | exact Hm].
Qed.
End Zeros.

(** In single precision, a PCP that holds a NaN, or nothing but zeros,
    gives NaN as the score of every shift in every mode. *)
Lemma degenerate_scores (pcp : list spec_float) :
  1 <= Z.of_nat (length pcp) ->
  In S754_nan pcp \/ (forall x, In x pcp -> zero_or_nan x) ->
  forall (v2 : list spec_float) (mean2 std2 : spec_float) (shift : Z),
    correlation pcp (mean pcp)
                (stdSum pcp (mean pcp) (Z.of_nat (length pcp)))
                v2 mean2 std2 shift = S754_nan.
Proof.
  intros HN [Hnan|Hzero] v2 mean2 std2 shift.
  - rewrite (mean_with_nan pcp Hnan), stdSum_nan_mean by assumption.
    apply correlation_nan_std.
  - apply correlation_of_zeros; auto.
    + now apply zero_or_nan_mean.
    + apply zero_or_nan_stdSum; auto. now apply zero_or_nan_mean.
Qed.

(** X10: in single precision a NaN anywhere in the PCP is not reported: the
    mean, the deviation and every score are NaN, no comparison holds, and
    [compute] returns key "A" with strength [-1] and relative strength
    [-0], as "minor" in [Key2] and as "major" in [KeyEDM], whatever the
    profiles. *)
Theorem a_nan_in_the_pcp_is_reported_as_A
        (st2 : Key2.State) (stE : KeyEDM.State) (pcp : list spec_float) :
  validSize (Z.of_nat (length pcp)) ->
  Key2._keys st2 = keyNames ->
  KeyEDM._keys stE = keyNames ->
  In S754_nan pcp ->
  snd (Key2.compute st2 pcp)
  = Ok (mkOutput "A" "minor" (rlit (-1)) (S754_zero true))
  /\ snd (KeyEDM.compute stE pcp)
     = Ok (mkOutput "A" "major" (rlit (-1)) (S754_zero true)).
Proof.
  intros Hvalid Hk2 HkE Hnan.
  assert (Hdeg : In S754_nan pcp \/ (forall x, In x pcp -> zero_or_nan x))
    by (left; exact Hnan).
  assert (HN : 1 <= Z.of_nat (length pcp)) by (destruct Hvalid; lia).
  pose proof (degenerate_scores pcp HN Hdeg) as Hscores.
  split.
  - rewrite (Key2_compute_no_score st2 pcp Hvalid), Hk2;
      [reflexivity | reflexivity | reflexivity |].
    intros sc s _. unfold Key2.score. cbv zeta.
    destruct sc; rewrite Hscores; apply rgtb_nan_l.
  - rewrite (KeyEDM_compute_no_score stE pcp Hvalid), HkE;
      [reflexivity | reflexivity |].
    intros sc s _. unfold KeyEDM.score. cbv zeta.
    destruct sc; rewrite Hscores; apply rgtb_nan_l.
Qed.

Lemma a_nan_in_the_pcp_is_reported_as_A_witness :
  let pcp := S754_nan :: repeat (S754_zero false) 11 in
  snd (Key2.compute (Key2_configured "bmtg2" 36) pcp)
  = Ok (mkOutput "A" "minor" (rlit (-1)) (S754_zero true))
  /\ snd (KeyEDM.compute (KeyEDM_configured "edma" 36) pcp)
     = Ok (mkOutput "A" "major" (rlit (-1)) (S754_zero true)).
Proof.
  assert (Hvalid : validSize
                     (Z.of_nat (length (S754_nan
                                        :: repeat (S754_zero false) 11))))
    by (split; [cbn; lia | reflexivity]).
  assert (Hk2 : Key2._keys (Key2_configured (Real := spec_float) "bmtg2" 36)
                = keyNames) by (vm_compute; reflexivity).
  assert (HkE : KeyEDM._keys (KeyEDM_configured (Real := spec_float)
                                                "edma" 36)
                = keyNames) by (vm_compute; reflexivity).
  assert (Hin : In S754_nan (S754_nan :: repeat (S754_zero false) 11))
    by (left; reflexivity).
  exact (a_nan_in_the_pcp_is_reported_as_A
           (Key2_configured "bmtg2" 36) (KeyEDM_configured "edma" 36)
           (S754_nan :: repeat (S754_zero false) 11) Hvalid Hk2 HkE Hin).
Defined.

(** X11: in single precision a PCP of zeros (silence) is reported as a key:
    its deviation is zero, every score is the quotient of two zeros, and
    [compute] returns key "A" with strength [-1] and relative strength
    [-0], as "minor" in [Key2] and as "major" in [KeyEDM], whatever the
    profiles. *)
Theorem a_pcp_of_zeros_is_reported_as_A
        (st2 : Key2.State) (stE : KeyEDM.State) (pcp : list spec_float) :
  validSize (Z.of_nat (length pcp)) ->
  Key2._keys st2 = keyNames ->
  KeyEDM._keys stE = keyNames ->
  (forall x, In x pcp -> x = S754_zero false \/ x = S754_zero true) ->
  snd (Key2.compute st2 pcp)
  = Ok (mkOutput "A" "minor" (rlit (-1)) (S754_zero true))
  /\ snd (KeyEDM.compute stE pcp)
     = Ok (mkOutput "A" "major" (rlit (-1)) (S754_zero true)).
Proof.
  intros Hvalid Hk2 HkE Hzero.
  assert (Hdeg : In S754_nan pcp \/ (forall x, In x pcp -> zero_or_nan x)).
  { right. intros x Hx. destruct (Hzero x Hx) as [-> | ->]; exact I. }
  assert (HN : 1 <= Z.of_nat (length pcp)) by (destruct Hvalid; lia).
  pose proof (degenerate_scores pcp HN Hdeg) as Hscores.
  split.
  - rewrite (Key2_compute_no_score st2 pcp Hvalid), Hk2;
      [reflexivity | reflexivity | reflexivity |].
    intros sc s _. unfold Key2.score. cbv zeta.
    destruct sc; rewrite Hscores; apply rgtb_nan_l.
  - rewrite (KeyEDM_compute_no_score stE pcp Hvalid), HkE;
      [reflexivity | reflexivity |].
    intros sc s _. unfold KeyEDM.score. cbv zeta.
    destruct sc; rewrite Hscores; apply rgtb_nan_l.
Qed.

Lemma a_pcp_of_zeros_is_reported_as_A_witness :
  let pcp := repeat (S754_zero false) 24 in
  snd (Key2.compute (Key2_configured "bmtg2" 36) pcp)
  = Ok (mkOutput "A" "minor" (rlit (-1)) (S754_zero true))
  /\ snd (KeyEDM.compute (KeyEDM_configured "edma" 36) pcp)
     = Ok (mkOutput "A" "major" (rlit (-1)) (S754_zero true)).
Proof.
  assert (Hvalid : validSize
                     (Z.of_nat (length (repeat (S754_zero false) 24))))
    by (split; [cbn; lia | reflexivity]).
  assert (Hk2 : Key2._keys (Key2_configured (Real := spec_float) "bmtg2" 36)
                = keyNames) by (vm_compute; reflexivity).
  assert (HkE : KeyEDM._keys (KeyEDM_configured (Real := spec_float)
                                                "edma" 36)
                = keyNames) by (vm_compute; reflexivity).
  assert (Hzero : forall x, In x (repeat (S754_zero false) 24) ->
                            x = S754_zero false \/ x = S754_zero true).
  { intros x Hx. left. exact (repeat_spec _ _ _ Hx). }
  exact (a_pcp_of_zeros_is_reported_as_A
           (Key2_configured "bmtg2" 36) (KeyEDM_configured "edma" 36)
           (repeat (S754_zero false) 24) Hvalid Hk2 HkE Hzero).
Defined.

(** X12: what [compute] can answer.  [KeyEDM::compute] answers every PCP
    of a valid size: its only exception is the one on the size, and its
    test on a negative key index never holds.  [Key2::compute] throws the
    exception on the size exactly on the invalid sizes, and on a valid
    size either answers or throws "key not found".  An answer names the
    scale "major" or "minor", never another word, and its strength is
    the maximum of the mode named. *)
Theorem compute_answers_or_names_its_exception {Real : Type} `{RealOps Real}
        (st2 : Key2.State) (stE : KeyEDM.State) (pcp : list Real) :
  let valid := validSize (Z.of_nat (length pcp)) in
  match snd (KeyEDM.compute stE pcp) with
  | Ok out =>
      valid
      /\ (scale out = "major" \/ scale out = "minor")%string
      /\ exists sc, strength out = pmax (KeyEDM.peakOf stE pcp sc)
                    /\ scale out = KeyEDM.scaleName sc
  | Err e => e = InvalidProfileSize /\ ~ valid
  end
  /\ match snd (Key2.compute st2 pcp) with
     | Ok out =>
         valid
         /\ (scale out = "major" \/ scale out = "minor")%string
         /\ exists sc, strength out = pmax (Key2.peakOf st2 pcp sc)
                       /\ scale out = Key2.scaleName sc
     | Err e =>
         (e = InvalidProfileSize /\ ~ valid) \/ (e = KeyNotFound /\ valid)
     end.
Proof.
  cbv zeta.
  assert (D : validSize (Z.of_nat (length pcp))
              \/ ~ validSize (Z.of_nat (length pcp))).
  { unfold validSize.
    destruct (Z_le_dec 12 (Z.of_nat (length pcp)));
      destruct (Z.eq_dec (Z.of_nat (length pcp) mod 12) 0); tauto. }
  destruct D as [Hvalid|Hinvalid].
  - rewrite (KeyEDM_compute_valid stE pcp Hvalid),
            (KeyEDM_chosen_cases stE pcp Hvalid),
            (Key2_compute_valid st2 pcp Hvalid). cbn [snd].
    split.
    + split; [assumption|].
      destruct (rgeb _ _); (split; [auto|]); eexists; split; reflexivity.
    + destruct (Key2.chosen st2 pcp) as [sc|]; [|right; auto].
      split; [assumption|]. split.
      * destruct sc; cbn; auto.
      * exists sc. split; reflexivity.
  - rewrite (KeyEDM_compute_invalid stE pcp Hinvalid),
            (Key2_compute_invalid st2 pcp Hinvalid). cbn [snd]. auto.
Qed.

(** X13: [Key2::compute] on a PCP of a valid size with comparable scores
    throws "key not found" exactly when the best major score and the best
    other score are level and above the best minor score; in every other
    case it returns its outputs. *)
Theorem Key2_misses_the_key_on_level_major_and_other
        {Real : Type} {ops : RealOps Real} {ok : Real -> Prop}
        {laws : RealOrder ops ok}
        (st : Key2.State) (pcp : list Real) :
  validSize (Z.of_nat (length pcp)) ->
  (forall sc s, 0 <= s < Z.of_nat (length pcp) ->
                ok (Key2.score st pcp sc s)) ->
  let maxMajor := pmax (Key2.peakOf st pcp Key2.MAJOR) in
  let maxMinor := pmax (Key2.peakOf st pcp Key2.MINOR) in
  let maxOther := pmax (Key2.peakOf st pcp Key2.OTHER) in
  let level := rgeb maxMajor maxOther && rgeb maxOther maxMajor
               && rgtb maxMajor maxMinor in
  (snd (Key2.compute st pcp) = Err KeyNotFound <-> level = true)
  /\ ((exists out, snd (Key2.compute st pcp) = Ok out) <-> level = false).
Proof.
  intros Hvalid Hok maxMajor maxMinor maxOther level.
  pose proof (Key2_KeyNotFound_level_maxima st pcp Hvalid Hok) as Hk.
  cbv zeta in Hk. fold maxMajor maxMinor maxOther in Hk.
  assert (Hlevel : level = true
                   <-> rgeb maxMajor maxOther = true
                       /\ rgeb maxOther maxMajor = true
                       /\ rgtb maxMajor maxMinor = true).
  { unfold level. rewrite !andb_true_iff. tauto. }
  split; [rewrite Hlevel; exact Hk|].
  rewrite <- not_true_iff_false, Hlevel, <- Hk.
  rewrite (Key2_compute_valid st pcp Hvalid). cbn [snd].
  destruct (Key2.chosen st pcp) as [sc|].
  - split; [discriminate | intros _; eexists; reflexivity].
  - split; [intros [out Hout]; discriminate | intros Hne; now destruct Hne].
Qed.

Lemma Key2_misses_the_key_on_level_major_and_other_witness :
  let st := Key2_configured (Real := spec_float) "bmtg2" 12 in
  snd (Key2.compute st tiePCP) = Err KeyNotFound
  <-> rgeb (pmax (Key2.peakOf st tiePCP Key2.MAJOR))
           (pmax (Key2.peakOf st tiePCP Key2.OTHER))
      && rgeb (pmax (Key2.peakOf st tiePCP Key2.OTHER))
              (pmax (Key2.peakOf st tiePCP Key2.MAJOR))
      && rgtb (pmax (Key2.peakOf st tiePCP Key2.MAJOR))
              (pmax (Key2.peakOf st tiePCP Key2.MINOR)) = true.
Proof.
  assert (Hvalid : validSize (Z.of_nat (length tiePCP)))
    by (split; [cbn; lia | reflexivity]).
  assert (Hok : forall sc s, 0 <= s < Z.of_nat (length tiePCP) ->
                  comparable (Key2.score (Key2_configured "bmtg2" 12)
                                         tiePCP sc s)).
  { intros sc s Hs.
    destruct sc; twelve_shifts s Hs ltac:(vm_compute; discriminate). }
  exact (proj1 (Key2_misses_the_key_on_level_major_and_other
                  (laws := binary32_order)
                  (Key2_configured "bmtg2" 12) tiePCP Hvalid Hok)).
Defined.

(** X15: the correlation is circular.  The shift acts on the profile as a
    rotation: the score of a shift is the score at shift 0 of the profile
    turned by that many bins, and shifts that differ by a multiple of the
    size give the same score. *)
Theorem correlation_turns_the_profile {Real : Type} `{RealOps Real}
        (v1 : list Real) (mean1 std1 : Real)
        (v2 : list Real) (mean2 std2 : Real) (shift k : Z) :
  length v2 = length v1 ->
  correlation v1 mean1 std1 v2 mean2 std2 shift
  = correlation v1 mean1 std1 (rotate shift v2) mean2 std2 0
  /\ correlation v1 mean1 std1 v2 mean2 std2
                 (shift + k * Z.of_nat (length v1))
     = correlation v1 mean1 std1 v2 mean2 std2 shift.
Proof.
  intros Hlen. rewrite !correlation_correlateSpec. unfold correlateSpec.
  cbv zeta. split; f_equal; apply rsum_ext; intros i Hi; do 2 f_equal.
  - rewrite Z.sub_0_r, (Z.mod_small i) by lia.
    rewrite rget_rotate by lia. now rewrite Hlen.
  - f_equal.
    replace (i - (shift + k * Z.of_nat (length v1)))
      with (i - shift + (- k) * Z.of_nat (length v1)) by lia.
    apply Z_mod_plus_full.
Qed.

Lemma correlation_turns_the_profile_witness :
  let st := KeyEDM_configured (Real := spec_float) "edma" 12 in
  correlation unitPCP (mean unitPCP) (stdSum unitPCP (mean unitPCP) 12)
              (KeyEDM._profile_doM st)
              (KeyEDM._mean_profile_M st) (KeyEDM._std_profile_M st) 3
  = correlation unitPCP (mean unitPCP) (stdSum unitPCP (mean unitPCP) 12)
                (rotate 3 (KeyEDM._profile_doM st))
                (KeyEDM._mean_profile_M st) (KeyEDM._std_profile_M st) 0.
Proof.
  assert (Hlen : length (KeyEDM._profile_doM
                           (KeyEDM_configured (Real := spec_float) "edma" 12))
                 = length unitPCP) by (vm_compute; reflexivity).
  exact (proj1 (correlation_turns_the_profile
                  unitPCP (mean unitPCP) (stdSum unitPCP (mean unitPCP) 12)
                  (KeyEDM._profile_doM (KeyEDM_configured "edma" 12))
                  (KeyEDM._mean_profile_M (KeyEDM_configured "edma" 12))
                  (KeyEDM._std_profile_M (KeyEDM_configured "edma" 12))
                  3 0 Hlen)).
Defined.

(** ** The flat major profile of [edmm] *)

Section ConstantScore.
Context {Real : Type} {ops : RealOps Real}.

(** A score that does not depend on the shift is stored at shift 0 or not
    at all. *)
Lemma scan_constant_score (score : Z -> Real) (N : nat) :
  (forall x : Real, rgtb x x = false) ->
  (forall s, 0 <= s < Z.of_nat N -> score s = score 0) ->
  pindex (scan score (Z.of_nat N)) <= 0.
Proof.
  intros Hirr. induction N as [|N IH]; intros Hconst; [cbn; lia|].
  rewrite scan_succ. unfold track.
  destruct (rgtb (score (Z.of_nat N)) (pmax (scan score (Z.of_nat N))))
    eqn:E; [|apply IH; intros s Hs; apply Hconst; lia].
  cbn [pindex]. destruct N as [|N]; [cbn; lia|].
  exfalso. rewrite (Hconst (Z.of_nat (S N))) in E by lia.
  destruct (scan_structure score (S N))
    as [(_ & Hm & _ & Hno)|(Hi & Hm & _)]; cbv zeta in *.
  - rewrite Hm, (Hno 0) in E by lia. discriminate.
  - rewrite Hm, (Hconst (pindex (scan score (Z.of_nat (S N))))) in E by lia.
    rewrite Hirr in E. discriminate.
Qed.

(** When the deviation of the profile from its mean is the same at every
    bin, the correlation does not depend on the shift. *)
Lemma correlation_flat_profile (v1 : list Real) (mean1 std1 : Real)
      (v2 : list Real) (mean2 std2 : Real) (shift shift' : Z) :
  (forall k k', 0 <= k < Z.of_nat (length v1) ->
                0 <= k' < Z.of_nat (length v1) ->
                rsub (rget v2 k) mean2 = rsub (rget v2 k') mean2) ->
  correlation v1 mean1 std1 v2 mean2 std2 shift
  = correlation v1 mean1 std1 v2 mean2 std2 shift'.
Proof.
  intros Hflat. rewrite !correlation_correlateSpec. unfold correlateSpec.
  cbv zeta. f_equal. apply rsum_ext. intros i Hi. f_equal.
  apply Hflat; apply Z.mod_pos_bound; lia.
Qed.
End ConstantScore.

Lemma rgtb_irrefl (x : spec_float) : rgtb x x = false.
Proof.
  destruct x as [s|s| |s m e]; try (destruct s; reflexivity);
    try reflexivity.
  cbn. unfold SFltb, SFcompare.
  rewrite Z.compare_refl, Pos.compare_cont_refl.
  destruct s; reflexivity.
Qed.

Lemma rmul_nan_r (x : spec_float) : rmul x S754_nan = S754_nan.
Proof. destruct x; reflexivity. Qed.

Lemma zero_or_nan_rmul_r (x y : spec_float) :
  zero_or_nan y -> zero_or_nan (rmul x y).
Proof. destruct y as [[]| | |], x as [[]|[]| |[]]; cbn; tauto. Qed.


Lemma rsub_finite_zero_or_nan (s : bool) (m : positive) (e : Z)
      (y : spec_float) :
  zero_or_nan y ->
  rsub (S754_finite s m e) y = S754_finite s m e
  \/ rsub (S754_finite s m e) y = S754_nan.
Proof. destruct y as [[]| | |]; cbn; tauto. Qed.

(** The major template of [edmm]: twelve times the single-precision value
    of 0.083. *)
Lemma edmm_major_template :
  KeyEDM.arrayToVector (Real := spec_float) 6
  = repeat (S754_finite false 11140071 (-27)) 12.
Proof. vm_compute. reflexivity. Qed.

Lemma KeyEDM_configure_edmm (st s : KeyEDM.State) (pcpSize : Z) :
  KeyEDM.configure st "edmm" pcpSize = Ok s ->
  exists x : KeyEDM.State,
    s = KeyEDM.resize pcpSize x
    /\ KeyEDM._M x = repeat (S754_finite false 11140071 (-27)) 12
    /\ KeyEDM._keys x = keyNames.
Proof.
  unfold KeyEDM.configure.
  replace ("edmm" =? "temperley")%string with false by reflexivity.
  replace ("edmm" =? "shaath")%string with false by reflexivity.
  replace ("edmm" =? "edma")%string with false by reflexivity.
  replace ("edmm" =? "edmm")%string with true by reflexivity.
  intros Hs. injection Hs as <-. eexists. split; [reflexivity|].
  split; [exact edmm_major_template | reflexivity].
Qed.

Lemma rget_repeat_12 (c : spec_float) (i : Z) :
  0 <= i < 12 -> rget (repeat c 12) i = c.
Proof.
  intros Hi.
  assert (Hcases : i = 0 \/ i = 1 \/ i = 2 \/ i = 3 \/ i = 4 \/ i = 5
                   \/ i = 6 \/ i = 7 \/ i = 8 \/ i = 9 \/ i = 10 \/ i = 11)
    by lia.
  repeat (destruct Hcases as [-> | Hcases]; [reflexivity|]).
  subst i. reflexivity.
Qed.

(** Interpolating between equal anchors gives the anchor again, or NaN
    when the increment [0 / n] or its multiple is NaN. *)
Lemma stored_flat (n i j : Z) :
  0 <= i < 12 ->
  let c := S754_finite false 11140071 (-27) in
  stored (repeat c 12) n i j = c \/ stored (repeat c 12) n i j = S754_nan.
Proof.
  intros Hi c. unfold stored.
  destruct (j =? 0); [left; now apply rget_repeat_12|].
  rewrite !rget_repeat_12 by (try apply Z.mod_pos_bound; lia).
  apply rsub_finite_zero_or_nan, zero_or_nan_rmul_r, zero_or_nan_rdiv.
  exact I.
Qed.

Lemma flat_profile_deviation (v : list spec_float) (c : spec_float)
      (k k' : Z) :
  (forall k, 0 <= k < Z.of_nat (length v) ->
             rget v k = c \/ rget v k = S754_nan) ->
  0 <= k < Z.of_nat (length v) -> 0 <= k' < Z.of_nat (length v) ->
  rsub (rget v k) (mean v) = rsub (rget v k') (mean v).
Proof.
  intros Hflat Hk Hk'.
  assert (Hnan : forall k, 0 <= k < Z.of_nat (length v) ->
                           rget v k = S754_nan -> mean v = S754_nan).
  { intros k0 Hk0 E. apply mean_with_nan. rewrite <- E.
    unfold rget, vget. destruct (k0 <? 0) eqn:E0;
      [apply Z.ltb_lt in E0; lia|].
    apply nth_In. lia. }
  destruct (Hflat k Hk) as [E|E]; destruct (Hflat k' Hk') as [E'|E'].
  - now rewrite E, E'.
  - rewrite (Hnan k' Hk' E'). now rewrite !rsub_nan_r.
  - rewrite (Hnan k Hk E). now rewrite !rsub_nan_r.
  - now rewrite E, E'.
Qed.

(** X16: with profile type "edmm" the major profile is flat, and the
    major score of [KeyEDM] is the same at every shift (the same number,
    or NaN throughout).  The search therefore stores a major score at
    shift 0 or not at all, and whenever [compute] answers "major" the key
    it names is "A", for every PCP and every size; in single precision. *)
Theorem edmm_reports_major_only_as_A
        (st s : KeyEDM.State) (pcpSize : Z) (pcp : list spec_float) :
  12 <= pcpSize ->
  KeyEDM.configure st "edmm" pcpSize = Ok s ->
  validSize (Z.of_nat (length pcp)) ->
  (forall shift shift',
      KeyEDM.score s pcp KeyEDM.MAJOR shift
      = KeyEDM.score s pcp KeyEDM.MAJOR shift')
  /\ pindex (KeyEDM.peakOf s pcp KeyEDM.MAJOR) <= 0
  /\ (forall out, snd (KeyEDM.compute s pcp) = Ok out ->
                  scale out = "major"%string -> key out = "A"%string).
Proof.
  intros _ Hs Hvalid.
  destruct (KeyEDM_configure_edmm _ _ _ Hs) as (x & -> & HM & Hkeys).
  destruct (validSize_multiple _ Hvalid) as (n & Hn & HN).
  assert (Hscore : forall shift shift',
             KeyEDM.score (KeyEDM.resize pcpSize x) pcp KeyEDM.MAJOR shift
             = KeyEDM.score (KeyEDM.resize pcpSize x) pcp KeyEDM.MAJOR
                            shift').
  { intros shift shift'. unfold KeyEDM.score. cbv zeta.
    rewrite (KeyEDM_prepared_resize pcpSize x pcp Hvalid).
    rewrite KeyEDM_resize_fields. cbv zeta.
    cbn [KeyEDM._profile_doM KeyEDM._mean_profile_M KeyEDM._std_profile_M].
    apply correlation_flat_profile. intros k k' Hk Hk'.
    rewrite HN, quot_12, HM in *.
    set (prof := interpolateAll _ n _).
    assert (Hlen : Z.of_nat (length prof) = 12 * n).
    { subst prof. rewrite length_interpolateAll. apply vresize_size. lia. }
    apply (flat_profile_deviation prof (S754_finite false 11140071 (-27)));
      rewrite ?Hlen; auto.
    intros k0 Hk0.
    assert (Hdiv : 0 <= k0 / n < 12).
    { split; [apply Z.div_pos; lia | apply Z.div_lt_upper_bound; lia]. }
    assert (Hmod : 0 <= k0 mod n < n) by (apply Z.mod_pos_bound; lia).
    assert (Hget : rget prof k0
                   = stored (repeat (S754_finite false 11140071 (-27)) 12)
                            n (k0 / n) (k0 mod n)).
    { subst prof.
      rewrite <- (interpolateAll_get _ n
                    (vresize rzero (12 * n) (KeyEDM._profile_doM x)))
        by (auto; apply vresize_size; lia).
      f_equal. pose proof (Z.div_mod k0 n). lia. }
    rewrite Hget. now apply stored_flat. }
  assert (Hindex : pindex (KeyEDM.peakOf (KeyEDM.resize pcpSize x) pcp
                                         KeyEDM.MAJOR) <= 0).
  { rewrite KeyEDM_peakOf_scan.
    apply scan_constant_score; [exact rgtb_irrefl|].
    intros sh _. apply Hscore. }
  split; [exact Hscore|]. split; [exact Hindex|].
  intros out Hout Hscale.
  rewrite (KeyEDM_compute_valid _ pcp Hvalid),
          (KeyEDM_chosen_cases _ pcp Hvalid) in Hout. cbn [snd] in Hout.
  pose proof (KeyEDM_peak_index (KeyEDM.resize pcpSize x) pcp KeyEDM.MAJOR)
    as Hlow.
  remember (KeyEDM.peakOf (KeyEDM.resize pcpSize x) pcp KeyEDM.MAJOR)
    as pM eqn:EpM.
  destruct (rgeb _ _); injection Hout as <-;
    [|discriminate Hscale].
  unfold KeyEDM.report. cbn [key].
  change (fst (KeyEDM.peaks (KeyEDM.resize pcpSize x) pcp))
    with (KeyEDM.peakOf (KeyEDM.resize pcpSize x) pcp KeyEDM.MAJOR).
  rewrite <- EpM.
  rewrite KeyEDM_prepared_keys, KeyEDM_resize_keys, Hkeys.
  assert (Hcases : pindex pM = -1 \/ pindex pM = 0) by lia.
  destruct Hcases as [-> | ->].
  - rewrite keyIndexOf_initial by (destruct Hvalid; assumption).
    reflexivity.
  - rewrite keyIndexOf_shift by (destruct Hvalid; lia).
    reflexivity.
Qed.

Lemma edmm_reports_major_only_as_A_witness :
  pindex (KeyEDM.peakOf (KeyEDM_configured "edmm" 36) unitPCP KeyEDM.MAJOR)
  <= 0.
Proof.
  assert (Hrange : 12 <= 36) by lia.
  assert (Hs : KeyEDM.configure KeyEDM.fresh "edmm" 36
               = Ok (KeyEDM_configured (Real := spec_float) "edmm" 36))
    by (vm_compute; reflexivity).
  assert (Hvalid : validSize (Z.of_nat (length unitPCP)))
    by (split; [cbn; lia | reflexivity]).
  exact (proj1 (proj2 (edmm_reports_major_only_as_A
                         KeyEDM.fresh (KeyEDM_configured "edmm" 36) 36
                         unitPCP Hrange Hs Hvalid))).
Defined.
